(** * gtthread_sched.c: the round-robin scheduler of the gtthreads library

    A shallow embedding of [src/src/gtthread_sched.c].  The global data
    section of the C file becomes one record, [sched]; every function of
    the file becomes a computation in a state monad with non-local exits
    (a context switch, [exit], a fault), written statement by statement. *)

From Stdlib Require Import ZArith Lia.
From stdpp Require Import base option list gmap sorting.

Local Open Scope Z_scope.

(** ** Data *)

(** [#define GTTHREAD_RUNNING 0], [GTTHREAD_CANCEL 1], [GTTHREAD_DONE 2]:
    the only values ever stored in [thread_t.state]. *)
Inductive thread_state : Set :=
  | GTTHREAD_RUNNING
  | GTTHREAD_CANCEL
  | GTTHREAD_DONE.

Definition state_code (st : thread_state) : Z :=
  match st with
  | GTTHREAD_RUNNING => 0
  | GTTHREAD_CANCEL => 1
  | GTTHREAD_DONE => 2
  end.

#[global] Instance thread_state_eq_dec : EqDecision thread_state.
Proof. solve_decision. Defined.

(** Addresses.  A [thread_t*] is an index in the descriptor heap, a
    [ucontext_t*] an index in the context heap, a stack pointer an index in
    the table of stack buffers; [None] is [NULL]. *)
Abbreviation ptr := nat.

(** The part of [ucontext_t] the file touches: [uc_stack.ss_sp], and the
    entry set by [makecontext] (routine and argument handed to
    [gtthread_start]). *)
Record ucontext_t : Type := mk_ucontext {
  ss_sp : option nat;
  uc_entry : option (Z * Z)
}.

(** [struct Thread_t]. *)
Record thread_t : Type := mk_thread {
  tid : Z;
  joining : Z;
  state : thread_state;
  proc : Z;
  arg : Z;
  retval : Z;
  ucp : option nat
}.

(** Modelled from the spec: [gtthread_t] is declared in gtthread.h, which is
    not among the sources.  Spec 3 calls an identity "a monotonically
    increasing positive integer"; it is taken as an unsigned machine word of
    [gtthread_t_bits] bits, and [maxtid++] wraps at [gtthread_t_modulus]. *)
Definition gtthread_t_bits : Z := 64.
Definition gtthread_t_modulus : Z := 2 ^ gtthread_t_bits.
Definition tid_succ (x : Z) : Z := (x + 1) mod gtthread_t_modulus.

(** The global data section (lines 35-41), the three heaps the pointers
    index, the signal mask of the process, the disposition of SIGVTALRM and
    the caller's memory reached through out-parameters. *)
Record sched : Type := mk_sched {
  threads : list thread_t;
  contexts : list (option ucontext_t);
  stacks : list bool;
  ready_queue : list ptr;
  zombie_queue : list ptr;
  current : option ptr;
  maxtid : Z;
  vtalrm_blocked : bool;
  timer : option Z;
  handler_installed : bool;
  user_mem : gmap Z Z
}.

(** The process when [main] starts: the statics are all zero and nothing
    has been allocated; the inherited signal mask and the caller's memory
    are whatever they are. *)
Definition boot (blocked : bool) (mem : gmap Z Z) : sched :=
  mk_sched [] [] [] [] [] None 0 blocked None false mem.

Definition with_threads (f : list thread_t → list thread_t) (s : sched) : sched :=
  mk_sched (f (threads s)) (contexts s) (stacks s) (ready_queue s)
    (zombie_queue s) (current s) (maxtid s) (vtalrm_blocked s) (timer s)
    (handler_installed s) (user_mem s).

Definition with_contexts (f : list (option ucontext_t) → list (option ucontext_t))
    (s : sched) : sched :=
  mk_sched (threads s) (f (contexts s)) (stacks s) (ready_queue s)
    (zombie_queue s) (current s) (maxtid s) (vtalrm_blocked s) (timer s)
    (handler_installed s) (user_mem s).

Definition with_stacks (f : list bool → list bool) (s : sched) : sched :=
  mk_sched (threads s) (contexts s) (f (stacks s)) (ready_queue s)
    (zombie_queue s) (current s) (maxtid s) (vtalrm_blocked s) (timer s)
    (handler_installed s) (user_mem s).

Definition with_ready (q : list ptr) (s : sched) : sched :=
  mk_sched (threads s) (contexts s) (stacks s) q
    (zombie_queue s) (current s) (maxtid s) (vtalrm_blocked s) (timer s)
    (handler_installed s) (user_mem s).

Definition with_zombie (q : list ptr) (s : sched) : sched :=
  mk_sched (threads s) (contexts s) (stacks s) (ready_queue s)
    q (current s) (maxtid s) (vtalrm_blocked s) (timer s)
    (handler_installed s) (user_mem s).

Definition with_current (c : option ptr) (s : sched) : sched :=
  mk_sched (threads s) (contexts s) (stacks s) (ready_queue s)
    (zombie_queue s) c (maxtid s) (vtalrm_blocked s) (timer s)
    (handler_installed s) (user_mem s).

Definition with_maxtid (m : Z) (s : sched) : sched :=
  mk_sched (threads s) (contexts s) (stacks s) (ready_queue s)
    (zombie_queue s) (current s) m (vtalrm_blocked s) (timer s)
    (handler_installed s) (user_mem s).

Definition with_blocked (b : bool) (s : sched) : sched :=
  mk_sched (threads s) (contexts s) (stacks s) (ready_queue s)
    (zombie_queue s) (current s) (maxtid s) b (timer s)
    (handler_installed s) (user_mem s).

Definition with_timer (t : option Z) (s : sched) : sched :=
  mk_sched (threads s) (contexts s) (stacks s) (ready_queue s)
    (zombie_queue s) (current s) (maxtid s) (vtalrm_blocked s) t
    (handler_installed s) (user_mem s).

Definition with_handler (b : bool) (s : sched) : sched :=
  mk_sched (threads s) (contexts s) (stacks s) (ready_queue s)
    (zombie_queue s) (current s) (maxtid s) (vtalrm_blocked s) (timer s)
    b (user_mem s).

Definition with_user_mem (m : gmap Z Z) (s : sched) : sched :=
  mk_sched (threads s) (contexts s) (stacks s) (ready_queue s)
    (zombie_queue s) (current s) (maxtid s) (vtalrm_blocked s) (timer s)
    (handler_installed s) m.

(** ** The monad *)

(** How a call can end other than by returning to its caller. *)
Inductive halt : Set :=
  | Switched            (* swapcontext: the caller is suspended, [current] runs *)
  | Installed           (* setcontext: [current] runs, the caller is gone *)
  | Exited (status : Z) (* exit(status) *)
  | Underflow           (* steque_pop on an empty queue *)
  | Fault               (* a NULL or dangling pointer was used *)
  | OutOfFuel.            (* a wait loop was still running when the fuel ran out *)

Inductive result (A : Type) : Type :=
  | Ok (a : A) (s : sched)
  | Stop (h : halt) (s : sched).
Arguments Ok {A} a s.
Arguments Stop {A} h s.

Definition M (A : Type) : Type := sched → result A.

Definition ret {A} (a : A) : M A := fun s => Ok a s.

Definition bind {A B} (m : M A) (k : A → M B) : M B :=
  fun s => match m s with
           | Ok a s' => k a s'
           | Stop h s' => Stop h s'
           end.

Declare Scope sched_scope.
Delimit Scope sched_scope with sched.
Notation "x ← y ; z" := (bind y (fun x => z))
  (at level 20, y at level 100, z at level 200) : sched_scope.
Notation "x ;; z" := (bind x (fun _ => z))
  (at level 100, z at level 200, right associativity) : sched_scope.
Local Open Scope sched_scope.

Definition gets {A} (f : sched → A) : M A := fun s => Ok (f s) s.
Definition modify (f : sched → sched) : M unit := fun s => Ok tt (f s).
Definition stop {A} (h : halt) : M A := fun s => Stop h s.

Definition EXIT_FAILURE : Z := 1.

(** Final state of a call, however it ended. *)
Definition final {A} (r : result A) : sched :=
  match r with Ok _ s => s | Stop _ s => s end.

(** ** Memory and host primitives *)

Definition set_tid (x : Z) (d : thread_t) : thread_t :=
  mk_thread x (joining d) (state d) (proc d) (arg d) (retval d) (ucp d).
Definition set_joining (x : Z) (d : thread_t) : thread_t :=
  mk_thread (tid d) x (state d) (proc d) (arg d) (retval d) (ucp d).
Definition set_state (x : thread_state) (d : thread_t) : thread_t :=
  mk_thread (tid d) (joining d) x (proc d) (arg d) (retval d) (ucp d).
Definition set_proc (x : Z) (d : thread_t) : thread_t :=
  mk_thread (tid d) (joining d) (state d) x (arg d) (retval d) (ucp d).
Definition set_arg (x : Z) (d : thread_t) : thread_t :=
  mk_thread (tid d) (joining d) (state d) (proc d) x (retval d) (ucp d).
Definition set_retval (x : Z) (d : thread_t) : thread_t :=
  mk_thread (tid d) (joining d) (state d) (proc d) (arg d) x (ucp d).
Definition set_ucp (x : option nat) (d : thread_t) : thread_t :=
  mk_thread (tid d) (joining d) (state d) (proc d) (arg d) (retval d) x.

(** [*p] for a [thread_t* p]. *)
Definition deref (p : ptr) : M thread_t :=
  fun s => match threads s !! p with
           | Some d => Ok d s
           | None => Stop Fault s
           end.

(** [p->field = x], as an update [f] of the record at [p]. *)
Definition store (p : ptr) (f : thread_t → thread_t) : M unit :=
  deref p;; modify (with_threads (alter f p)).

(** The value of the static [current], used as a pointer: a NULL [current]
    is a fault.  (Lines 264 and 374 enqueue the pointer before lines 269 and
    380 use it; the model faults at the first of the two.) *)
Definition get_current : M ptr :=
  fun s => match current s with
           | Some p => Ok p s
           | None => Stop Fault s
           end.

(** [malloc(sizeof(thread_t))]: a new record holding whatever the block
    held before, [junk]. *)
Definition malloc_thread (junk : thread_t) : M ptr :=
  p ← gets (fun s => length (threads s));
  modify (with_threads (fun h => h ++ [junk]));;
  ret p.

Definition zero_context : ucontext_t := mk_ucontext None None.

(** [malloc(sizeof(ucontext_t))]. *)
Definition malloc_context : M nat :=
  c ← gets (fun s => length (contexts s));
  modify (with_contexts (fun h => h ++ [Some zero_context]));;
  ret c.

(** Read and write through a [ucontext_t*]. *)
Definition load_context (p : option nat) : M ucontext_t :=
  fun s => match p with
           | Some c => match contexts s !! c with
                       | Some (Some u) => Ok u s
                       | _ => Stop Fault s
                       end
           | None => Stop Fault s
           end.

Definition store_context (p : option nat) (f : ucontext_t → ucontext_t) : M unit :=
  u ← load_context p;
  match p with
  | Some c => modify (with_contexts (<[c := Some (f u)]>))
  | None => stop Fault
  end.

(** [memset(p, 0, sizeof(ucontext_t))]. *)
Definition memset_context (p : option nat) : M unit :=
  store_context p (fun _ => zero_context).

(** [malloc(SIGSTKSZ)]. *)
Definition malloc_stack : M nat :=
  b ← gets (fun s => length (stacks s));
  modify (with_stacks (fun h => h ++ [true]));;
  ret b.

(** [free] of a stack buffer; [free(NULL)] does nothing, a second [free]
    of one block is a fault. *)
Definition free_stack (p : option nat) : M unit :=
  match p with
  | None => ret tt
  | Some b =>
      fun s => match stacks s !! b with
               | Some true => Ok tt (with_stacks (<[b := false]>) s)
               | _ => Stop Fault s
               end
  end.

(** [free] of a context record. *)
Definition free_context (p : option nat) : M unit :=
  match p with
  | None => ret tt
  | Some c =>
      fun s => match contexts s !! c with
               | Some (Some _) => Ok tt (with_contexts (<[c := None]>) s)
               | _ => Stop Fault s
               end
  end.

Inductive sig_how : Set := SIG_BLOCK | SIG_UNBLOCK.

(** [sigprocmask(how, &vtalrm, NULL)]. *)
Definition sigprocmask (how : sig_how) : M unit :=
  modify (with_blocked match how with SIG_BLOCK => true | SIG_UNBLOCK => false end).

(** [getcontext(p)]; [rc] is what the host call returns. *)
Definition getcontext (rc : Z) (p : option nat) : M Z :=
  load_context p;; ret rc.

(** [swapcontext(oucp, ucp)].  The running context is saved in [*oucp]: a
    fault when [oucp] is NULL or the record has been freed.  A NULL [ucp]
    is refused by the host (the address of its signal mask is handed to
    the kernel, which answers EFAULT): the call returns -1 and the caller
    goes on.  A record in use is switched to: the caller is suspended. *)
Definition swapcontext (oucp ucp : option nat) : M Z :=
  load_context oucp;;
  match ucp with
  | None => ret (-1)
  | Some _ => load_context ucp;; stop Switched
  end.

(** [setcontext(ucp)]: -1 for a NULL [ucp], as in [swapcontext]; a record
    in use is installed and the call does not return. *)
Definition setcontext (ucp : option nat) : M Z :=
  match ucp with
  | None => ret (-1)
  | Some _ => load_context ucp;; stop Installed
  end.

(** [exit(status)]. *)
Definition exit {A} (status : Z) : M A := stop (Exited status).

(** [*p = v] for an out-parameter [p] of the caller; address 0 is [NULL]. *)
Definition poke (p : Z) (v : Z) : M unit :=
  if p =? 0 then stop Fault
  else fun s => Ok tt (with_user_mem (<[p := v]> (user_mem s)) s).

(** ** The queue *)

(** Modelled from the spec: steque.h and steque.c are not among the
    sources.  Spec 1 and 6: "a generic first-in-first-out container of
    opaque items", with init-empty, enqueue-tail, pop-head, is-empty and
    forward iteration from the head.  A queue is the list of its items, head
    first; [steque_pop] on an empty queue stops the call with [Underflow]. *)
Inductive steque_ref : Set := Ready | Zombie.

Definition queue_of (q : steque_ref) (s : sched) : list ptr :=
  match q with Ready => ready_queue s | Zombie => zombie_queue s end.

Definition with_queue (q : steque_ref) (l : list ptr) : sched → sched :=
  match q with Ready => with_ready l | Zombie => with_zombie l end.

Definition steque_init (q : steque_ref) : M unit :=
  modify (with_queue q []).

Definition steque_enqueue (q : steque_ref) (item : ptr) : M unit :=
  l ← gets (queue_of q); modify (with_queue q (l ++ [item])).

Definition steque_isempty (q : steque_ref) : M bool :=
  l ← gets (queue_of q); ret (match l with [] => true | _ => false end).

Definition steque_pop (q : steque_ref) : M ptr :=
  l ← gets (queue_of q);
  match l with
  | [] => stop Underflow
  | item :: l' => modify (with_queue q l');; ret item
  end.

(** ** The functions of gtthread_sched.c *)

(** One of the two loops of [thread_get] (lines 390-397 and 399-406) over
    the nodes of a queue, from the front. *)
Fixpoint thread_scan (nodes : list ptr) (id : Z) : M (option ptr) :=
  match nodes with
  | [] => ret None
  | t :: next =>
      d ← deref t;
      if tid d =? id then ret (Some t) else thread_scan next id
  end.

(** [thread_get] (lines 388-408). *)
Definition thread_get (id : Z) : M (option ptr) :=
  front ← gets ready_queue;
  r ← thread_scan front id;
  match r with
  | Some t => ret (Some t)
  | None => front ← gets zombie_queue; thread_scan front id
  end.

(** The loop of lines 368-372 of the handler, by recursion on what is left
    of the ready queue [rq]; its two last lines are [steque_pop] on that
    queue (lemma [skip_cancelled_pop] below). *)
Fixpoint skip_cancelled (rq : list ptr) (next : ptr) : M ptr :=
  d ← deref next;
  match state d with
  | GTTHREAD_CANCEL =>
      steque_enqueue Zombie next;;
      match rq with
      | [] => stop Underflow
      | item :: rq' => modify (with_queue Ready rq');; skip_cancelled rq' item
      end
  | _ => ret next
  end.

(** [sigvtalrm_handler] (lines 357-381).  What [swapcontext] returns is
    not looked at (line 380): when it returns, the handler returns. *)
Definition sigvtalrm_handler : M unit :=
  sigprocmask SIG_BLOCK;;
  e ← steque_isempty Ready;
  if e then ret tt else
  next ← steque_pop Ready;
  rq ← gets ready_queue;
  next ← skip_cancelled rq next;
  prev ← get_current;
  steque_enqueue Ready prev;;
  store next (set_state GTTHREAD_RUNNING);;
  modify (with_current (Some next));;
  sigprocmask SIG_UNBLOCK;;
  p ← deref prev;
  c ← deref next;
  swapcontext (ucp p) (ucp c);;
  ret tt.

(** [gtthread_init] (lines 64-116).  [junk] is the content of the block
    [malloc] hands out; [rc_getcontext], [rc_setitimer] and [rc_sigaction]
    are what the three host calls return. *)
Definition gtthread_init (junk : thread_t) (rc_getcontext rc_setitimer rc_sigaction : Z)
    (period : Z) : M unit :=
  modify (with_maxtid 1);;
  steque_init Ready;;
  main_thread ← malloc_thread junk;
  m ← gets maxtid;
  modify (with_maxtid (tid_succ m));;
  store main_thread (set_tid m);;
  c ← malloc_context;
  store main_thread (set_ucp (Some c));;
  d ← deref main_thread;
  memset_context (ucp d);;
  store main_thread (set_arg 0);;
  store main_thread (set_state GTTHREAD_RUNNING);;
  store main_thread (set_joining 0);;
  d ← deref main_thread;
  rc ← getcontext rc_getcontext (ucp d);
  if rc =? -1 then exit EXIT_FAILURE else
  modify (with_current (Some main_thread));;
  sigprocmask SIG_UNBLOCK;;
  if rc_setitimer <? 0 then exit EXIT_FAILURE else
  modify (with_timer (Some period));;
  if rc_sigaction <? 0 then exit EXIT_FAILURE else
  modify (with_handler true).

(** [gtthread_create] (lines 123-160); [thread] is the address of the
    out-parameter. *)
Definition gtthread_create (junk : thread_t) (rc_getcontext : Z)
    (thread : Z) (start_routine : Z) (arg : Z) : M Z :=
  sigprocmask SIG_BLOCK;;
  t ← malloc_thread junk;
  m ← gets maxtid;
  modify (with_maxtid (tid_succ m));;
  store t (set_tid m);;
  poke thread m;;
  store t (set_state GTTHREAD_RUNNING);;
  store t (set_proc start_routine);;
  store t (set_arg arg);;
  c ← malloc_context;
  store t (set_ucp (Some c));;
  store t (set_joining 0);;
  d ← deref t;
  memset_context (ucp d);;
  rc ← getcontext rc_getcontext (ucp d);
  if rc =? -1 then exit EXIT_FAILURE else
  b ← malloc_stack;
  store_context (ucp d) (fun u => mk_ucontext (Some b) (uc_entry u));;
  store_context (ucp d) (fun u => mk_ucontext (ss_sp u) (Some (start_routine, arg)));;
  steque_enqueue Ready t;;
  sigprocmask SIG_UNBLOCK;;
  ret 0.

(** Lines 190-198 of [gtthread_join]: the target [t] is no longer running. *)
Definition join_finish (t : ptr) (status : Z) : M Z :=
  if status =? 0 then ret 0 else
  d ← deref t;
  match state d with
  | GTTHREAD_CANCEL => poke status (state_code GTTHREAD_CANCEL);; ret 0
  | GTTHREAD_DONE => poke status (retval d);; ret 0
  | GTTHREAD_RUNNING => ret 0
  end.

(** The wait loop of [gtthread_join] (lines 183-188) followed by lines
    190-198.  A turn of the loop that the handler ends by a context switch
    stops the call there ([Switched]); the caller goes on at
    [gtthread_join_resume] when it is given the processor again.  [fuel]
    bounds the turns in which the handler comes back at once. *)
Fixpoint join_wait (fuel : nat) (t : ptr) (status : Z) : M Z :=
  d ← deref t;
  match state d with
  | GTTHREAD_RUNNING =>
      match fuel with
      | O => stop OutOfFuel
      | S fuel' =>
          sigprocmask SIG_UNBLOCK;;
          sigvtalrm_handler;;
          sigprocmask SIG_BLOCK;;
          join_wait fuel' t status
      end
  | _ => join_finish t status
  end.

(** [gtthread_join] (lines 166-199). *)
Definition gtthread_join (fuel : nat) (thread : Z) (status : Z) : M Z :=
  cur ← get_current;
  c ← deref cur;
  if thread =? tid c then ret (-1) else
  r ← thread_get thread;
  match r with
  | None => ret (-1)
  | Some t =>
      d ← deref t;
      if joining d =? tid c then ret (-1) else
      store cur (set_joining (tid d));;
      join_wait fuel t status
  end.

(** Where a caller suspended inside the wait loop goes on: line 187. *)
Definition gtthread_join_resume (fuel : nat) (t : ptr) (status : Z) : M Z :=
  sigprocmask SIG_BLOCK;;
  join_wait fuel t status.

(** The loop of lines 218-225 of [gtthread_exit], run by the initial
    thread. *)
Fixpoint exit_drain (fuel : nat) (retval : Z) : M unit :=
  e ← steque_isempty Ready;
  if e then sigprocmask SIG_UNBLOCK;; exit retval else
  match fuel with
  | O => stop OutOfFuel
  | S fuel' =>
      sigprocmask SIG_UNBLOCK;;
      sigvtalrm_handler;;
      sigprocmask SIG_BLOCK;;
      exit_drain fuel' retval
  end.

(** Lines 228-246 of [gtthread_exit].  What [setcontext] returns is not
    looked at (line 245): when it returns, [gtthread_exit] returns to its
    caller (line 246). *)
Definition exit_switch (retval : Z) : M unit :=
  prev ← get_current;
  next ← steque_pop Ready;
  modify (with_current (Some next));;
  store next (set_state GTTHREAD_RUNNING);;
  p ← deref prev;
  u ← load_context (ucp p);
  free_stack (ss_sp u);;
  free_context (ucp p);;
  store prev (set_ucp None);;
  store prev (set_state GTTHREAD_DONE);;
  store prev (set_retval retval);;
  store prev (set_joining 0);;
  steque_enqueue Zombie prev;;
  sigprocmask SIG_UNBLOCK;;
  c ← deref next;
  setcontext (ucp c);;
  ret tt.

(** [gtthread_exit] (lines 204-246). *)
Definition gtthread_exit (fuel : nat) (retval : Z) : M unit :=
  sigprocmask SIG_BLOCK;;
  e ← steque_isempty Ready;
  if e then sigprocmask SIG_UNBLOCK;; exit retval else
  cur ← get_current;
  c ← deref cur;
  if tid c =? 1 then exit_drain fuel retval else
  exit_switch retval.

(** Where the initial thread, suspended inside the loop of
    [gtthread_exit], goes on: line 222. *)
Definition gtthread_exit_resume (fuel : nat) (retval : Z) : M unit :=
  sigprocmask SIG_BLOCK;;
  exit_drain fuel retval.

(** [gtthread_yield] (lines 253-271).  What [swapcontext] returns is not
    looked at (line 269): when it returns, at once or when the caller is
    given the processor again, line 270 returns 0. *)
Definition gtthread_yield : M Z :=
  sigprocmask SIG_BLOCK;;
  e ← steque_isempty Ready;
  if e then ret 0 else
  next ← steque_pop Ready;
  prev ← get_current;
  steque_enqueue Ready prev;;
  modify (with_current (Some next));;
  sigprocmask SIG_UNBLOCK;;
  p ← deref prev;
  c ← deref next;
  swapcontext (ucp p) (ucp c);;
  ret 0.

(** [gtthread_equal] (lines 277-280). *)
Definition gtthread_equal (t1 t2 : Z) : Z :=
  if t1 =? t2 then 1 else 0.

(** Lines 292-318 of [gtthread_cancel]. *)
Definition cancel_target (thread : Z) : M Z :=
  sigprocmask SIG_BLOCK;;
  r ← thread_get thread;
  match r with
  | None => sigprocmask SIG_UNBLOCK;; ret (-1)
  | Some t =>
      d ← deref t;
      match state d with
      | GTTHREAD_DONE => sigprocmask SIG_UNBLOCK;; ret (-1)
      | GTTHREAD_CANCEL => sigprocmask SIG_UNBLOCK;; ret (-1)
      | GTTHREAD_RUNNING =>
          store t (set_state GTTHREAD_CANCEL);;
          d ← deref t;
          u ← load_context (ucp d);
          free_stack (ss_sp u);;
          free_context (ucp d);;
          store t (set_ucp None);;
          store t (set_joining 0);;
          steque_enqueue Zombie t;;
          sigprocmask SIG_UNBLOCK;;
          ret 0
      end
  end.

(** [gtthread_cancel] (lines 286-319).  A caller that cancels itself
    calls [gtthread_exit] (line 290); when that call returns, the function
    goes on at line 292. *)
Definition gtthread_cancel (fuel : nat) (thread : Z) : M Z :=
  cur ← get_current;
  c ← deref cur;
  (if gtthread_equal (tid c) thread =? 0 then ret tt else gtthread_exit fuel 0);;
  cancel_target thread.

(** [gtthread_self] (lines 324-327). *)
Definition gtthread_self : M Z :=
  cur ← get_current;
  c ← deref cur;
  ret (tid c).

(** [gtthread_start] (lines 339-349), in its two halves: up to the call of
    the start routine, and from the moment the routine has returned [v].
    When [gtthread_exit] returns, [gtthread_start] returns (line 349). *)
Definition gtthread_start_enter : M unit :=
  sigprocmask SIG_UNBLOCK.

Definition gtthread_start_return (fuel : nat) (v : Z) : M unit :=
  cur ← get_current;
  store cur (set_retval v);;
  c ← deref cur;
  gtthread_exit fuel (retval c).

(** ** Notions used in the statements *)

(** The state in which the program goes on after a call, when it does:
    the call returned, or it switched to another thread. *)
Definition continues {A} (r : result A) : option sched :=
  match r with
  | Ok _ s' => Some s'
  | Stop Switched s' => Some s'
  | Stop Installed s' => Some s'
  | Stop _ _ => None
  end.

(** A field of the descriptor at [p]. *)
Definition field {A} (f : thread_t → A) (s : sched) (p : ptr) : option A :=
  f <$> threads s !! p.

(** The context record at [p] can be used: [p] is not NULL and the
    record has not been freed. *)
Definition live (s : sched) (p : option nat) : bool :=
  match p with
  | Some c => match contexts s !! c with Some (Some _) => true | _ => false end
  | None => false
  end.

(** The descriptor [thread_get] returns for an identity: the first one in
    the ready queue, then in the zombie queue, that carries it. *)
Definition has_tid (s : sched) (id : Z) (p : ptr) : bool :=
  match threads s !! p with
  | Some d => tid d =? id
  | None => false
  end.

Definition target_of (s : sched) (id : Z) : option ptr :=
  find (has_tid s id) (ready_queue s ++ zombie_queue s).

(** "Identity present in ready ∪ zombie". *)
Definition known (s : sched) (id : Z) : Prop :=
  ∃ p d, p ∈ ready_queue s ++ zombie_queue s ∧ threads s !! p = Some d ∧ tid d = id.

(** The queues hold pointers to allocated descriptors. *)
Definition queues_valid (s : sched) : Prop :=
  Forall (fun p => is_Some (threads s !! p)) (ready_queue s ++ zombie_queue s).

Definition terminal (st : thread_state) : Prop :=
  st = GTTHREAD_CANCEL ∨ st = GTTHREAD_DONE.

(** What a joiner is handed for a terminal target (lines 193-196). *)
Definition join_result (d : thread_t) : Z :=
  match state d with
  | GTTHREAD_CANCEL => state_code GTTHREAD_CANCEL
  | _ => retval d
  end.

(** What a join hands to its caller: nothing through a NULL [status],
    [join_result] otherwise. *)
Definition deliver (status : Z) (d : thread_t) (s : sched) : sched :=
  if status =? 0 then s
  else with_user_mem (<[status := join_result d]> (user_mem s)) s.

(** The [joining] fields of all descriptors, by address. *)
Definition joinings (s : sched) : list Z := joining <$> threads s.

(** [s'] has the descriptors of [s], maybe more, and differs from [s] in
    the [joining] field of the descriptors in [P] at most. *)
Definition joining_kept (P : ptr → Prop) (s s' : sched) : Prop :=
  (length (threads s) ≤ length (threads s'))%nat
  ∧ ∀ p, ¬ P p → (p < length (threads s))%nat →
         joinings s' !! p = joinings s !! p.

(** [s'] has the identities and the identity counter of [s]. *)
Definition tids_kept (s s' : sched) : Prop :=
  maxtid s' = maxtid s ∧ tid <$> threads s' = tid <$> threads s.

(** A computation whose final state is always related to its first one. *)
Definition keeps (R : sched → sched → Prop) {A} (m : M A) : Prop :=
  ∀ s, R s (final (m s)).

(** A relation between the state before and after a call that holds
    across every statement but a store [p->field = x] outside [ok], an
    allocation of a descriptor and an assignment to [maxtid]. *)
Class Frame (R : sched → sched → Prop)
    (ok : ptr → (thread_t → thread_t) → Prop) : Prop := {
  frame_refl : ∀ s, R s s;
  frame_trans : ∀ s1 s2 s3, R s1 s2 → R s2 s3 → R s1 s3;
  frame_rest : ∀ s s', threads s' = threads s → maxtid s' = maxtid s → R s s';
  frame_store : ∀ p g s, ok p g → R s (with_threads (alter g p) s);
  frame_state : ∀ p x, ok p (set_state x)
}.

(** The stores that [joining_kept P] and [tids_kept] allow. *)
Definition ok_joining (P : ptr → Prop) (p : ptr) (g : thread_t → thread_t) : Prop :=
  (∀ d, joining (g d) = joining d) ∨ P p.

Definition ok_tid (p : ptr) (g : thread_t → thread_t) : Prop :=
  ∀ d, tid (g d) = tid d.


(** What holds of it: the current descriptor is not in the ready queue,
    and the ready queue holds no descriptor twice. *)
Definition ready_apart (s : sched) : Prop :=
  (∀ p, current s = Some p → p ∉ ready_queue s) ∧ NoDup (ready_queue s).

Definition current_list (s : sched) : list ptr :=
  match current s with Some p => [p] | None => [] end.

(** The facts that carry [ready_apart] from one call to the next, and
    who owns what.  The current descriptor and those of the ready queue
    are distinct and allocated; a descriptor of the ready queue is
    cancelled or has a context record; one of the zombie queue has none,
    and is terminal unless it is the current one; a context record that a
    descriptor points to is in use, and its owner RUNNING; no two
    descriptors share a context record, no two context records in use
    share a stack, and the stack of a context record in use has not been
    freed. *)
Record consistent (s : sched) : Prop := mk_consistent {
  cons_nodup : NoDup (current_list s ++ ready_queue s);
  cons_valid : Forall (fun p => p < length (threads s))%nat
                 (current_list s ++ ready_queue s ++ zombie_queue s);
  cons_ready : ∀ p, p ∈ ready_queue s →
      field state s p = Some GTTHREAD_CANCEL
      ∨ ∃ c, field ucp s p = Some (Some c);
  cons_zombie : ∀ p, p ∈ zombie_queue s →
      field ucp s p = Some None
      ∧ (field state s p = Some GTTHREAD_CANCEL
         ∨ field state s p = Some GTTHREAD_DONE
         ∨ current s = Some p);
  cons_context : ∀ p c, field ucp s p = Some (Some c) →
      field state s p = Some GTTHREAD_RUNNING
      ∧ ∃ u, contexts s !! c = Some (Some u);
  cons_ctx : ∀ p q c,
      field ucp s p = Some (Some c) → field ucp s q = Some (Some c) → p = q;
  cons_stack : ∀ c1 c2 u1 u2 b,
      contexts s !! c1 = Some (Some u1) → contexts s !! c2 = Some (Some u2) →
      ss_sp u1 = Some b → ss_sp u2 = Some b → c1 = c2;
  cons_stack_live : ∀ c u b,
      contexts s !! c = Some (Some u) → ss_sp u = Some b →
      stacks s !! b = Some true
}.

(** The sentinel 0, the identities in the order of allocation and the
    counter grow strictly. *)
Definition tids_monotone (s : sched) : Prop :=
  StronglySorted Z.lt (0 :: (tid <$> threads s) ++ [maxtid s]).

(** ** Runs of the library *)

(** What can happen next in a process that has called [gtthread_init]: the
    running thread calls a function of the library, or goes on in one it
    was suspended in, or the timer signal is delivered. *)
Inductive call : Type :=
  | Create (junk : thread_t) (rc_getcontext thread start_routine arg : Z)
  | Join (fuel : nat) (thread status : Z)
  | JoinResume (fuel : nat) (t : ptr) (status : Z)
  | Exit (fuel : nat) (retval : Z)
  | ExitResume (fuel : nat) (retval : Z)
  | Yield
  | Cancel (fuel : nat) (thread : Z)
  | Self
  | StartEnter
  | StartReturn (fuel : nat) (v : Z)
  | Tick.

Definition erase {A} (r : result A) : result unit :=
  match r with
  | Ok _ s => Ok tt s
  | Stop h s => Stop h s
  end.

(** A function handed to [makecontext] returns: the successor context
    [uc_link] is NULL (line 152), so the thread, which is the whole
    process, exits; glibc does so with status 0. *)
Definition start_returns (r : result unit) : result unit :=
  match r with
  | Ok _ s => Stop (Exited 0) s
  | Stop h s => Stop h s
  end.

Definition run_call (c : call) (s : sched) : result unit :=
  match c with
  | Create junk rc thread start_routine arg =>
      erase (gtthread_create junk rc thread start_routine arg s)
  | Join fuel thread status => erase (gtthread_join fuel thread status s)
  | JoinResume fuel t status => erase (gtthread_join_resume fuel t status s)
  | Exit fuel retval => gtthread_exit fuel retval s
  | ExitResume fuel retval => gtthread_exit_resume fuel retval s
  | Yield => erase (gtthread_yield s)
  | Cancel fuel thread => erase (gtthread_cancel fuel thread s)
  | Self => erase (gtthread_self s)
  | StartEnter => gtthread_start_enter s
  | StartReturn fuel v => start_returns (gtthread_start_return fuel v s)
  | Tick => sigvtalrm_handler s
  end.

Definition perform (c : call) (s : sched) : option sched :=
  continues (run_call c s).

(** The descriptors whose [joining] field a call can write: the caller of
    join and exit, the caller and the target of cancel. *)
Definition may_write_joining (c : call) (s : sched) (p : ptr) : Prop :=
  match c with
  | Join _ _ _ => current s = Some p
  | Exit _ _ => current s = Some p
  | StartReturn _ _ => current s = Some p
  | Cancel _ thread => current s = Some p ∨ target_of s thread = Some p
  | _ => False
  end.

(** The identity counter is not at the end of its range when
    [gtthread_create] is called. *)
Definition in_range (c : call) (s : sched) : Prop :=
  match c with
  | Create _ _ _ _ _ => maxtid s + 1 < gtthread_t_modulus
  | _ => True
  end.

Inductive reachable : sched → Prop :=
  | reachable_init blocked mem junk rc_getcontext rc_setitimer rc_sigaction period s :
      continues (gtthread_init junk rc_getcontext rc_setitimer rc_sigaction period
                   (boot blocked mem)) = Some s →
      reachable s
  | reachable_step c s s' :
      reachable s → in_range c s → perform c s = Some s' → reachable s'.

(** [s'] is reached from [s] by calls of the library none of which may
    write the [joining] field of the descriptor at [p]. *)
Inductive undisturbed (p : ptr) : sched → sched → Prop :=
  | undisturbed_refl s : undisturbed p s s
  | undisturbed_step c s s1 s2 :
      undisturbed p s s1 → in_range c s1 → ¬ may_write_joining c s1 p →
      perform c s1 = Some s2 → undisturbed p s s2.

(** ** Scenarios *)

Definition after {A} (m : M A) (s : sched) : sched := final (m s).

Definition junk0 : thread_t := mk_thread 0 0 GTTHREAD_RUNNING 0 0 0 None.

(** init(50000): the initial thread, descriptor 0, identity 1. *)
Definition started : sched :=
  after (gtthread_init junk0 0 0 0 50000) (boot false ∅).

(** ... create: descriptor 1, identity 2, in the ready queue. *)
Definition one_child : sched :=
  after (gtthread_create junk0 0 100 7 41) started.

(** ... cancel(2) by the initial thread. *)
Definition child_cancelled : sched :=
  after (gtthread_cancel 1 2) one_child.

(** ... and the initial thread yields: line 262 pops the cancelled
    descriptor, [swapcontext] refuses its NULL context and the call
    returns 0 with that descriptor as the current one. *)
Definition cancelled_current : sched :=
  after gtthread_yield child_cancelled.

(** init, two creates: descriptors 1 and 2, identities 2 and 3. *)
Definition two_children : sched :=
  after (gtthread_create junk0 0 101 8 42) one_child.

(** ... the initial thread yields: thread 2 runs, ready queue 3, 1. *)
Definition second_running : sched :=
  after gtthread_yield two_children.

(** ... thread 2 cancels thread 3, the head of the ready queue. *)
Definition head_cancelled : sched :=
  after (gtthread_cancel 1 3) second_running.


(** two_children, then the initial thread cancels thread 3, joins it, and
    yields to thread 2. *)
Definition third_cancelled : sched :=
  after (gtthread_cancel 1 3) two_children.
Definition third_joined : sched :=
  after (gtthread_join 1 3 200) third_cancelled.
Definition joiner_waiting : sched :=
  after gtthread_yield third_joined.

(** ... and thread 2 yields in its turn: the head of the ready queue is
    the cancelled thread 3, which becomes the current descriptor. *)
Definition target_current : sched :=
  after gtthread_yield joiner_waiting.

(** ** Notions used for the rest of the library *)

(** [s'] is as set up as [s]: [current] is the same or points to a
    descriptor, the timer and the disposition of SIGVTALRM are the same. *)
Definition setup_kept (s s' : sched) : Prop :=
  (current s' = current s ∨ is_Some (current s'))
  ∧ timer s' = timer s
  ∧ handler_installed s' = handler_installed s.

(** The descriptor at [p] can be switched to and from: it is allocated
    and its context record is in use. *)
Definition runnable (s : sched) (p : ptr) : bool :=
  match threads s !! p with
  | Some d => live s (ucp d)
  | None => false
  end.

(** [n] calls of gtthread_yield, each by the thread the one before has
    switched to. *)
Fixpoint yields (n : nat) (s : sched) : option sched :=
  match n with
  | O => Some s
  | S n' =>
      match continues (gtthread_yield s) with
      | Some s' => yields n' s'
      | None => None
      end
  end.

(** The running thread followed by the ready queue. *)
Definition schedule (s : sched) : list ptr := current_list s ++ ready_queue s.

(** The state [s] with the thread at the head of [l] running, the rest of
    [l] as the ready queue and the signal unblocked. *)
Definition scheduled (l : list ptr) (s : sched) : sched :=
  match l with
  | [] => s
  | p :: rq => with_blocked false (with_current (Some p) (with_ready rq s))
  end.

(** The descriptor at [p] owns a context record in use whose stack, when
    it names one, has not been freed. *)
Definition equipped (s : sched) (p : ptr) : Prop :=
  ∃ c u, field ucp s p = Some (Some c) ∧ contexts s !! c = Some (Some u)
         ∧ ∀ b, ss_sp u = Some b → stacks s !! b = Some true.


(** * Running the model *)

Section Monad.
Context {A B : Type}.

Lemma run_bind_Ok (m : M A) (k : A → M B) s a s1 :
  m s = Ok a s1 → bind m k s = k a s1.
Proof. unfold bind. intros ->. reflexivity. Qed.

Lemma run_bind_Stop (m : M A) (k : A → M B) s h s1 :
  m s = Stop h s1 → bind m k s = Stop h s1.
Proof. unfold bind. intros ->. reflexivity. Qed.

Lemma run_bind_assoc {C} (m : M A) (k1 : A → M B) (k2 : B → M C) s :
  bind (bind m k1) k2 s = bind m (fun a => bind (k1 a) k2) s.
Proof. unfold bind. destruct (m s); reflexivity. Qed.

Lemma run_bind_case (m : M A) (k : A → M B) s :
  bind m k s =
  match m s with Ok a s1 => k a s1 | Stop h s1 => Stop h s1 end.
Proof. reflexivity. Qed.

(** What [bind] returns, it returns through both halves. *)
Lemma run_bind_inv (m : M A) (k : A → M B) s r :
  bind m k s = r →
  (∃ a s1, m s = Ok a s1 ∧ k a s1 = r) ∨ (∃ h s1, m s = Stop h s1 ∧ r = Stop h s1).
Proof.
  unfold bind. destruct (m s) as [a s1|h s1]; intros <-.
  - left. exists a, s1. split; reflexivity.
  - right. exists h, s1. split; reflexivity.
Qed.
End Monad.

(** ** One statement at a time *)

Section Steps.
Context {B : Type}.
Implicit Types (k : unit → M B) (s : sched).

Lemma run_ret {A} (a : A) (k : A → M B) s : bind (ret a) k s = k a s.
Proof. reflexivity. Qed.

Lemma run_modify f k s : bind (modify f) k s = k tt (f s).
Proof. reflexivity. Qed.

Lemma run_gets {A} (f : sched → A) (k : A → M B) s :
  bind (gets f) k s = k (f s) s.
Proof. reflexivity. Qed.

Lemma run_stop {A} h (k : A → M B) s : bind (stop h) k s = Stop h s.
Proof. reflexivity. Qed.

Lemma run_exit {A} st (k : A → M B) s : bind (exit st) k s = Stop (Exited st) s.
Proof. reflexivity. Qed.

Lemma run_deref p (k : thread_t → M B) s :
  bind (deref p) k s =
  match threads s !! p with Some d => k d s | None => Stop Fault s end.
Proof. unfold bind, deref. by destruct (threads s !! p). Qed.

Lemma run_store p f k s :
  bind (store p f) k s =
  match threads s !! p with
  | Some _ => k tt (with_threads (alter f p) s)
  | None => Stop Fault s
  end.
Proof. unfold store, bind, deref, modify. by destruct (threads s !! p). Qed.

Lemma run_get_current (k : ptr → M B) s :
  bind get_current k s =
  match current s with Some p => k p s | None => Stop Fault s end.
Proof. unfold bind, get_current. by destruct (current s). Qed.

Lemma run_load_context p (k : ucontext_t → M B) s :
  bind (load_context p) k s =
  match p with
  | Some c => match contexts s !! c with
              | Some (Some u) => k u s
              | _ => Stop Fault s
              end
  | None => Stop Fault s
  end.
Proof.
  unfold bind, load_context. destruct p as [c|]; [|done].
  by destruct (contexts s !! c) as [[u|]|].
Qed.

Lemma run_sigprocmask how k s :
  bind (sigprocmask how) k s =
  k tt (with_blocked match how with SIG_BLOCK => true | SIG_UNBLOCK => false end s).
Proof. reflexivity. Qed.

Lemma run_steque_init q k s : bind (steque_init q) k s = k tt (with_queue q [] s).
Proof. reflexivity. Qed.

Lemma run_steque_enqueue q item k s :
  bind (steque_enqueue q item) k s = k tt (with_queue q (queue_of q s ++ [item]) s).
Proof. reflexivity. Qed.

Lemma run_steque_isempty q (k : bool → M B) s :
  bind (steque_isempty q) k s =
  k (match queue_of q s with [] => true | _ => false end) s.
Proof. reflexivity. Qed.

Lemma run_steque_pop q (k : ptr → M B) s :
  bind (steque_pop q) k s =
  match queue_of q s with
  | [] => Stop Underflow s
  | item :: l => k item (with_queue q l s)
  end.
Proof.
  unfold steque_pop, bind, gets, stop, modify, ret.
  by destruct (queue_of q s).
Qed.

Lemma run_free_stack p k s :
  bind (free_stack p) k s =
  match p with
  | None => k tt s
  | Some b => match stacks s !! b with
              | Some true => k tt (with_stacks (<[b := false]>) s)
              | _ => Stop Fault s
              end
  end.
Proof.
  unfold bind, free_stack. destruct p as [b|]; [|done].
  by destruct (stacks s !! b) as [[|]|].
Qed.

Lemma run_free_context p k s :
  bind (free_context p) k s =
  match p with
  | None => k tt s
  | Some c => match contexts s !! c with
              | Some (Some _) => k tt (with_contexts (<[c := None]>) s)
              | _ => Stop Fault s
              end
  end.
Proof.
  unfold bind, free_context. destruct p as [c|]; [|done].
  by destruct (contexts s !! c) as [[u|]|].
Qed.

Lemma run_poke p v k s :
  bind (poke p v) k s =
  if p =? 0 then Stop Fault s
  else k tt (with_user_mem (<[p := v]> (user_mem s)) s).
Proof. unfold bind, poke. by destruct (p =? 0). Qed.

Lemma run_malloc_thread junk (k : ptr → M B) s :
  bind (malloc_thread junk) k s =
  k (length (threads s)) (with_threads (fun h => h ++ [junk]) s).
Proof. reflexivity. Qed.

Lemma run_malloc_context (k : nat → M B) s :
  bind malloc_context k s =
  k (length (contexts s)) (with_contexts (fun h => h ++ [Some zero_context]) s).
Proof. reflexivity. Qed.

Lemma run_malloc_stack (k : nat → M B) s :
  bind malloc_stack k s =
  k (length (stacks s)) (with_stacks (fun h => h ++ [true]) s).
Proof. reflexivity. Qed.
End Steps.

Lemma run_swapcontext {B} oucp ucp (k : Z → M B) s :
  bind (swapcontext oucp ucp) k s =
  if live s oucp then
    match ucp with
    | None => k (-1) s
    | Some _ => if live s ucp then Stop Switched s else Stop Fault s
    end
  else Stop Fault s.
Proof.
  unfold swapcontext, bind, load_context, stop, live, ret.
  destruct oucp as [c|]; [|done].
  destruct (contexts s !! c) as [[u|]|]; try done.
  destruct ucp as [c'|]; [|done].
  by destruct (contexts s !! c') as [[u'|]|].
Qed.

Lemma run_setcontext {B} ucp (k : Z → M B) s :
  bind (setcontext ucp) k s =
  match ucp with
  | None => k (-1) s
  | Some _ => if live s ucp then Stop Installed s else Stop Fault s
  end.
Proof.
  unfold setcontext, bind, load_context, stop, live, ret.
  destruct ucp as [c|]; [|done].
  by destruct (contexts s !! c) as [[u|]|].
Qed.

Lemma live_Some s p : live s p = true → ∃ c, p = Some c.
Proof. destruct p; [eauto|done]. Qed.

Lemma lookup_snoc {A} (l : list A) x : (l ++ [x]) !! length l = Some x.
Proof. by apply list_lookup_middle. Qed.

Lemma alter_snoc {A} (f : A → A) (l : list A) x :
  alter f (length l) (l ++ [x]) = l ++ [f x].
Proof.
  rewrite <- (Nat.add_0_r (length l)) at 1.
  rewrite alter_app_r. reflexivity.
Qed.

Lemma insert_snoc {A} (l : list A) x y :
  <[length l := y]> (l ++ [x]) = l ++ [y].
Proof.
  rewrite <- (Nat.add_0_r (length l)) at 1.
  rewrite insert_app_r. reflexivity.
Qed.

(** An update that leaves a field alone leaves the list of that field
    alone. *)
Lemma fmap_alter_same {A B} (f : A → B) (g : A → A) i (l : list A) :
  (∀ x, f (g x) = f x) → f <$> alter g i l = f <$> l.
Proof.
  intros H. rewrite (list_fmap_alter f g id).
  - by apply list_alter_id.
  - apply Forall_true. intros x. apply H.
Qed.

(** Projections of an updated state. *)
Ltac msimpl :=
  cbn [with_queue queue_of
       with_threads with_contexts with_stacks with_ready with_zombie
       with_current with_maxtid with_blocked with_timer with_handler
       with_user_mem
       threads contexts stacks ready_queue zombie_queue current maxtid
       vtalrm_blocked timer handler_installed user_mem
       tid joining state proc arg retval ucp
       set_tid set_joining set_state set_proc set_arg set_retval set_ucp
       ss_sp uc_entry fmap option_fmap option_map final continues] in *.

(** An updated state as a record of its fields, innermost update first;
    the states in the goal should have been destructed. *)
Ltac mnorm :=
  cbv beta iota delta
    [with_queue with_threads with_contexts with_stacks with_ready
     with_zombie with_current with_maxtid with_blocked with_timer
     with_handler with_user_mem
     threads contexts stacks ready_queue zombie_queue current maxtid
     vtalrm_blocked timer handler_installed user_mem].

(** Lookups in an updated heap. *)
Ltac heap :=
  msimpl;
  repeat first
    [ rewrite list_lookup_alter_eq
    | rewrite lookup_snoc
    | rewrite list_lookup_alter_ne by congruence
    | rewrite list_lookup_insert_eq by
        (rewrite ?length_insert, ?length_app; simpl; lia)
    | rewrite list_lookup_insert_ne by congruence
    | erewrite lookup_app_l_Some by eassumption
    | match goal with
      | H : _ !! _ = _ |- _ => rewrite H
      | H : ready_queue _ = _ |- _ => rewrite H
      | H : zombie_queue _ = _ |- _ => rewrite H
      | H : current _ = _ |- _ => rewrite H
      end
    | progress msimpl ].

(** One statement of the program in the goal. *)
Ltac mstep :=
  first
    [ rewrite run_bind_assoc
    | rewrite run_ret
    | rewrite run_modify
    | rewrite run_gets
    | rewrite run_stop
    | rewrite run_exit
    | rewrite run_sigprocmask
    | rewrite run_steque_init
    | rewrite run_steque_enqueue
    | rewrite run_steque_isempty
    | rewrite run_steque_pop
    | rewrite run_malloc_thread
    | rewrite run_malloc_context
    | rewrite run_malloc_stack
    | rewrite run_deref
    | rewrite run_store
    | rewrite run_get_current
    | rewrite run_load_context
    | rewrite run_free_stack
    | rewrite run_free_context
    | rewrite run_poke
    | rewrite run_swapcontext
    | rewrite run_setcontext
    | progress unfold memset_context, store_context, getcontext
    | match goal with
      | |- context [@ret ?A ?a ?s] => change (@ret A a s) with (Ok a s)
      | |- context [@stop ?A ?h ?s] => change (@stop A h s) with (@Stop A h s)
      | |- context [@exit ?A ?st ?s] =>
          change (@exit A st s) with (@Stop A (Exited st) s)
      | |- context [modify ?f ?s] => change (modify f s) with (Ok tt (f s))
      end ];
  heap.

Ltac mrun := repeat first [mstep | progress heap].

(** A case distinction on what the program in the goal tests next. *)
Ltac mcase :=
  match goal with
  | |- context [alter ?f ?i ?l !! ?j] =>
      destruct (decide (i = j)) as [->|?];
      [rewrite list_lookup_alter_eq | rewrite list_lookup_alter_ne by done]
  | |- context [<[?i := ?x]> ?l !! ?j] =>
      destruct (decide (i = j)) as [->|?];
      [rewrite list_lookup_insert | rewrite list_lookup_insert_ne by done]
  | |- context [match ?l !! ?i with _ => _ end] => destruct (l !! i) eqn:?
  | |- context [match current ?s with _ => _ end] => destruct (current s) eqn:?
  | |- context [match ready_queue ?s with _ => _ end] =>
      destruct (ready_queue s) eqn:?
  | |- context [match ucp ?d with _ => _ end] => destruct (ucp d) eqn:?
  | |- context [match ss_sp ?d with _ => _ end] => destruct (ss_sp d) eqn:?
  | |- context [match state ?d with _ => _ end] => destruct (state d) eqn:?
  | |- context [match ?x with Some _ => _ | None => _ end] => destruct x eqn:?
  | |- context [if ?b then _ else _] =>
      match b with
      | ?x =? ?y => destruct (Z.eqb_spec x y)
      | ?x <? ?y => destruct (Z.ltb_spec x y)
      | _ => destruct b eqn:?
      end
  end; heap.

(** Closed conjuncts, by evaluation. *)
Ltac evals :=
  repeat match goal with |- _ ∧ _ => split end; vm_compute; reflexivity.

(** The conjuncts of the goal, in order, from the hypotheses. *)
Ltac conj_step :=
  first
    [ reflexivity
    | eassumption
    | match goal with H : ss_sp _ = _ |- _ => rewrite H; reflexivity end
    | done ].
Ltac conjs := repeat (split; [conj_step|]); try conj_step.

(** Run the program in the goal to the end of every path. *)
Ltac mexec := repeat first [mstep | mcase].

(** * Initialisation *)

(** [gtthread_init] from any state: it empties the ready queue, leaves the
    zombie queue alone, and makes a new descriptor the current one. *)
Lemma gtthread_init_run junk rg rt rs period s :
  rg ≠ -1 → 0 ≤ rt → 0 ≤ rs →
  gtthread_init junk rg rt rs period s =
  Ok tt (mk_sched
           (threads s ++
              [mk_thread 1 0 GTTHREAD_RUNNING (proc junk) 0 (retval junk)
                 (Some (length (contexts s)))])
           (contexts s ++ [Some zero_context])
           (stacks s) [] (zombie_queue s) (Some (length (threads s)))
           (tid_succ 1) false (Some period) true (user_mem s)).
Proof.
  intros Hg Ht Hs. unfold gtthread_init.
  mrun.
  destruct (Z.eqb_spec rg (-1)) as [|_]; [done|].
  mrun.
  destruct (Z.ltb_spec rt 0); [lia|].
  mrun.
  destruct (Z.ltb_spec rs 0); [lia|].
  unfold modify. destruct s; mnorm.
  by rewrite !alter_snoc, insert_snoc.
Qed.



(** * Yield *)

Lemma gtthread_yield_empty s :
  ready_queue s = [] → gtthread_yield s = Ok 0 (with_blocked true s).
Proof.
  intros H. unfold gtthread_yield. mrun. reflexivity.
Qed.

Lemma started_eq :
  started = mk_sched [mk_thread 1 0 GTTHREAD_RUNNING 0 0 0 (Some 0%nat)]
              [Some zero_context] [] [] [] (Some 0%nat) 2 false (Some 50000)
              true ∅.
Proof. reflexivity. Qed.

Lemma reachable_started : reachable started.
Proof.
  apply (reachable_init false ∅ junk0 0 0 0 50000).
  vm_compute. reflexivity.
Qed.

(** C5: gtthread_yield called with an empty ready queue (here by the
    initial thread right after gtthread_init) returns 0 and leaves the
    preemption signal blocked: line 260 returns without the sigprocmask of
    line 268. *)
Theorem gtthread_yield_returns_masked :
  reachable started
  ∧ ready_queue started = []
  ∧ vtalrm_blocked started = false
  ∧ ∃ s', gtthread_yield started = Ok 0 s' ∧ vtalrm_blocked s' = true.
Proof.
  split; [apply reachable_started|].
  do 2 (split; [reflexivity|]).
  eexists. split; [by apply gtthread_yield_empty|]. reflexivity.
Qed.

(** * The preemption handler *)

(** The two last lines of the loop are [steque_pop] on the ready queue. *)
Lemma skip_cancelled_pop rq next s :
  ready_queue s = rq →
  skip_cancelled rq next s =
  (d ← deref next;
   match state d with
   | GTTHREAD_CANCEL =>
       steque_enqueue Zombie next;;
       item ← steque_pop Ready;
       skip_cancelled (tail rq) item
   | _ => ret next
   end) s.
Proof.
  intros <-. destruct (ready_queue s) as [|item rq'] eqn:E;
    cbn [skip_cancelled]; unfold bind, deref, steque_enqueue, steque_pop,
      gets, modify, stop; destruct (threads s !! next) as [d|]; try done;
    destruct (state d); cbn; rewrite ?E; reflexivity.
Qed.

(** The loop moves a run of cancelled descriptors from the front of the
    ready queue to the zombie queue and stops at the first other one. *)
Lemma skip_cancelled_Ok rq : ∀ next s n s',
  ready_queue s = rq →
  skip_cancelled rq next s = Ok n s' →
  ∃ pre rest,
    next :: rq = pre ++ n :: rest
    ∧ Forall (fun p => field state s p = Some GTTHREAD_CANCEL) pre
    ∧ (∃ d, threads s !! n = Some d ∧ state d ≠ GTTHREAD_CANCEL)
    ∧ s' = with_ready rest (with_zombie (zombie_queue s ++ pre) s).
Proof.
  induction rq as [|item rq IH]; intros next s n s' Hrq;
    cbn [skip_cancelled]; unfold bind at 1, deref;
    destruct (threads s !! next) as [d|] eqn:Hd; try done;
    destruct (state d) eqn:Hst.
  all: try (intros [= <- <-]; exists [], (ready_queue s);
        (split; [by rewrite Hrq|]); (split; [constructor|]);
        (split; [eexists; split; [eassumption|congruence]|]);
        destruct s; cbn in *; subst; by rewrite app_nil_r).
  intros Hrun.
  apply (IH item (with_ready rq (with_zombie (zombie_queue s ++ [next]) s)))
    in Hrun as (pre & rest & Hsplit & Hpre & Hn & ->); [|reflexivity].
  exists (next :: pre), rest. split; [by rewrite Hsplit|].
  split; [constructor; [unfold field; by rewrite Hd, <- Hst | exact Hpre]|].
  split; [exact Hn|].
  destruct s; cbn. by rewrite <- app_assoc.
Qed.

(** The loop ends otherwise only on a queue of cancelled descriptors, by
    a pop of the empty queue, or on a bad pointer. *)
Lemma skip_cancelled_Stop rq : ∀ next s h s',
  skip_cancelled rq next s = Stop h s' → h = Underflow ∨ h = Fault.
Proof.
  induction rq as [|item rq IH]; intros next s h s';
    cbn [skip_cancelled]; unfold bind at 1, deref;
    destruct (threads s !! next) as [d|]; try (intros [= <- <-]; by right);
    destruct (state d); try done.
  - intros [= <- <-]. by left.
  - apply IH.
Qed.

Lemma skip_cancelled_underflow rq : ∀ next s,
  ready_queue s = rq →
  Forall (fun p => field state s p = Some GTTHREAD_CANCEL) (next :: rq) →
  skip_cancelled rq next s =
  Stop Underflow (with_ready [] (with_zombie (zombie_queue s ++ next :: rq) s)).
Proof.
  induction rq as [|item rq IH]; intros next s Hrq Hall;
    apply Forall_cons in Hall as [Hnext Hall]; unfold field in Hnext;
    cbn [skip_cancelled]; unfold bind at 1, deref;
    destruct (threads s !! next) as [d|]; try done;
    injection Hnext as ->.
  - destruct s; cbn in *. by subst.
  - unfold steque_enqueue, bind, gets, modify. cbn.
    rewrite IH; [|reflexivity|exact Hall].
    destruct s; cbn. by rewrite <- app_assoc.
Qed.


Lemma sigvtalrm_handler_empty s :
  ready_queue s = [] → sigvtalrm_handler s = Ok tt (with_blocked true s).
Proof. intros H. unfold sigvtalrm_handler. mrun. reflexivity. Qed.

(** All the handler can do.  It returns on an empty ready queue and when
    [swapcontext] has refused the NULL context of the descriptor it
    chose. *)
Lemma sigvtalrm_handler_spec s :
  match sigvtalrm_handler s with
  | Ok _ s' =>
      (ready_queue s = [] ∧ s' = with_blocked true s)
      ∨ ∃ pre n rest cur,
          ready_queue s = pre ++ n :: rest
          ∧ Forall (fun p => field state s p = Some GTTHREAD_CANCEL) pre
          ∧ (∃ d, threads s !! n = Some d ∧ state d ≠ GTTHREAD_CANCEL
                  ∧ ucp d = None)
          ∧ current s = Some cur
          ∧ s' = with_blocked false
                   (with_current (Some n)
                      (with_threads (alter (set_state GTTHREAD_RUNNING) n)
                         (with_ready (rest ++ [cur])
                            (with_zombie (zombie_queue s ++ pre) s))))
  | Stop Switched s' =>
      ∃ pre n rest cur,
        ready_queue s = pre ++ n :: rest
        ∧ Forall (fun p => field state s p = Some GTTHREAD_CANCEL) pre
        ∧ (∃ d c, threads s !! n = Some d ∧ state d ≠ GTTHREAD_CANCEL
                  ∧ ucp d = Some c)
        ∧ current s = Some cur
        ∧ s' = with_blocked false
                 (with_current (Some n)
                    (with_threads (alter (set_state GTTHREAD_RUNNING) n)
                       (with_ready (rest ++ [cur])
                          (with_zombie (zombie_queue s ++ pre) s))))
  | Stop Underflow _ => ready_queue s ≠ []
  | Stop Fault _ => ready_queue s ≠ []
  | Stop _ _ => False
  end.
Proof.
  unfold sigvtalrm_handler. mrun.
  destruct (ready_queue s) as [|next0 rq] eqn:Hrq; [by left|].
  mrun. rewrite run_bind_case.
  destruct (skip_cancelled _ _ _) as [n s1|h s1] eqn:Hskip.
  - apply skip_cancelled_Ok in Hskip
      as (pre & rest & Hsplit & Hpre & (d & Hd & Hst) & ->); [|reflexivity].
    mexec; try done.
    all: try right.
    all: eexists _, _, _, _; (split; [exact Hsplit|]); (split; [exact Hpre|]).
    all: (split; [first [by exists d | by eexists d, _]|]).
    all: (split; [reflexivity|]); destruct s; reflexivity.
  - apply skip_cancelled_Stop in Hskip as [-> | ->]; done.
Qed.

(** A ready queue that holds cancelled descriptors only makes the handler
    pop the empty queue. *)
Lemma sigvtalrm_handler_underflow s :
  ready_queue s ≠ [] →
  Forall (fun p => field state s p = Some GTTHREAD_CANCEL) (ready_queue s) →
  sigvtalrm_handler s =
  Stop Underflow
    (with_ready [] (with_zombie (zombie_queue s ++ ready_queue s)
                      (with_blocked true s))).
Proof.
  intros Hne Hall. unfold sigvtalrm_handler. mrun.
  destruct (ready_queue s) as [|next0 rq] eqn:Hrq; [done|].
  mrun. rewrite run_bind_case, skip_cancelled_underflow; [|reflexivity|exact Hall].
  destruct s; reflexivity.
Qed.

Lemma skip_cancelled_run pre : ∀ rq next s n rest d,
  ready_queue s = rq →
  next :: rq = pre ++ n :: rest →
  Forall (fun p => field state s p = Some GTTHREAD_CANCEL) pre →
  threads s !! n = Some d → state d ≠ GTTHREAD_CANCEL →
  skip_cancelled rq next s =
  Ok n (with_ready rest (with_zombie (zombie_queue s ++ pre) s)).
Proof.
  induction pre as [|p pre IH]; intros rq next s n rest d Hrq Hsplit Hpre Hd Hst.
  - injection Hsplit as -> ->.
    destruct rest; cbn [skip_cancelled]; rewrite run_deref, Hd;
      destruct (state d); try done; destruct s; cbn in *; subst;
      by rewrite app_nil_r.
  - injection Hsplit as -> ->. apply Forall_cons in Hpre as [Hp Hpre].
    unfold field in Hp. destruct (threads s !! p) as [dp|] eqn:Hdp; [|done].
    injection Hp as Hp.
    destruct pre as [|q pre]; cbn [app skip_cancelled];
      rewrite run_deref, Hdp, Hp; mrun.
    + rewrite (IH rest n _ n rest d); try done.
      destruct s; cbn. by rewrite <- app_assoc.
    + rewrite (IH (pre ++ n :: rest) q _ n rest d); try done.
      destruct s; cbn. by rewrite <- app_assoc.
Qed.

(** With a descriptor that is not cancelled in the ready queue, the
    handler reaps the cancelled ones before it, puts the current descriptor
    at the tail and switches to the one it found. *)
Lemma sigvtalrm_handler_dispatch s pre n rest cur d dc :
  ready_queue s = pre ++ n :: rest →
  Forall (fun p => field state s p = Some GTTHREAD_CANCEL) pre →
  threads s !! n = Some d → state d ≠ GTTHREAD_CANCEL →
  current s = Some cur → threads s !! cur = Some dc →
  live s (ucp d) = true → live s (ucp dc) = true →
  sigvtalrm_handler s =
  Stop Switched
    (with_blocked false
       (with_current (Some n)
          (with_threads (alter (set_state GTTHREAD_RUNNING) n)
             (with_ready (rest ++ [cur])
                (with_zombie (zombie_queue s ++ pre) s))))).
Proof.
  intros Hrq Hpre Hd Hst Hcur Hdc Hl Hlc. unfold sigvtalrm_handler. mrun.
  destruct (pre ++ n :: rest) as [|next0 rq] eqn:Hsplit;
    [by destruct pre|].
  mrun. rewrite run_bind_case.
  rewrite (skip_cancelled_run pre rq next0 _ n rest d); try done.
  assert (∀ s0, contexts s0 = contexts s →
            live s0 (ucp d) = true ∧ live s0 (ucp dc) = true) as Hlive.
  { intros s0 E. unfold live in *. by rewrite E. }
  destruct (live_Some _ _ Hl) as [c Hc].
  mrun. destruct (decide (n = cur)) as [->|Hne]; heap.
  - replace dc with d in * by congruence. mrun.
    match goal with
    | |- context [live ?s0 _] => destruct (Hlive s0 eq_refl) as [E _]
    end.
    rewrite !E, Hc. destruct s; reflexivity.
  - mrun.
    match goal with
    | |- context [live ?s0 _] => destruct (Hlive s0 eq_refl) as [E1 E2]
    end.
    rewrite E1, E2, Hc. destruct s; reflexivity.
Qed.

(** * The scenarios are runs of the library *)

Ltac next_call c Hprev :=
  apply (reachable_step c _ _ Hprev);
  [ first [exact I | vm_compute; reflexivity] | vm_compute; reflexivity ].

Lemma reachable_one_child : reachable one_child.
Proof. next_call (Create junk0 0 100 7 41) reachable_started. Qed.

Lemma reachable_child_cancelled : reachable child_cancelled.
Proof. next_call (Cancel 1 2) reachable_one_child. Qed.

Lemma reachable_cancelled_current : reachable cancelled_current.
Proof. next_call Yield reachable_child_cancelled. Qed.

Lemma reachable_two_children : reachable two_children.
Proof. next_call (Create junk0 0 101 8 42) reachable_one_child. Qed.

Lemma reachable_second_running : reachable second_running.
Proof. next_call Yield reachable_two_children. Qed.

Lemma reachable_head_cancelled : reachable head_cancelled.
Proof. next_call (Cancel 1 3) reachable_second_running. Qed.





Lemma reachable_third_cancelled : reachable third_cancelled.
Proof. next_call (Cancel 1 3) reachable_two_children. Qed.

Lemma reachable_third_joined : reachable third_joined.
Proof. next_call (Join 1 3 200) reachable_third_cancelled. Qed.

Lemma reachable_joiner_waiting : reachable joiner_waiting.
Proof. next_call Yield reachable_third_joined. Qed.

Lemma reachable_target_current : reachable target_current.
Proof. next_call Yield reachable_joiner_waiting. Qed.

(** C4: with a ready queue that holds one cancelled descriptor (init,
    create, cancel of the new thread, then the timer signal), the handler
    moves it to the zombie queue and pops the ready queue again although it
    is empty now: the loop of lines 368-372 has no emptiness test, and the
    handler neither unmasks nor returns. *)
Theorem sigvtalrm_handler_pops_empty_queue :
  reachable child_cancelled
  ∧ ready_queue child_cancelled = [1%nat]
  ∧ field state child_cancelled 1 = Some GTTHREAD_CANCEL
  ∧ ∃ s', sigvtalrm_handler child_cancelled = Stop Underflow s'
          ∧ ready_queue s' = [] ∧ zombie_queue s' = [1%nat; 1%nat]
          ∧ vtalrm_blocked s' = true.
Proof.
  split; [apply reachable_child_cancelled|].
  do 2 (split; [vm_compute; reflexivity|]).
  exists (after sigvtalrm_handler child_cancelled).
  evals.
Qed.

(** * Looking a descriptor up *)

Lemma thread_scan_spec id nodes : ∀ s,
  match thread_scan nodes id s with
  | Ok r s' => s' = s ∧ r = find (has_tid s id) nodes
  | Stop h s' => h = Fault ∧ s' = s
  end.
Proof.
  induction nodes as [|t nodes IH]; intros s; cbn [thread_scan find]; [done|].
  rewrite run_deref. unfold has_tid at 1.
  destruct (threads s !! t) as [d|]; [|done].
  destruct (tid d =? id); [done|]. apply IH.
Qed.

Lemma find_app {A} (f : A → bool) (l1 l2 : list A) :
  find f (l1 ++ l2) =
  match find f l1 with Some x => Some x | None => find f l2 end.
Proof.
  induction l1 as [|x l1 IH]; cbn; [done|]. by destruct (f x).
Qed.

Lemma thread_get_spec id s :
  match thread_get id s with
  | Ok r s' => s' = s ∧ r = target_of s id
  | Stop h s' => h = Fault ∧ s' = s
  end.
Proof.
  unfold thread_get, target_of. rewrite run_gets, run_bind_case, find_app.
  pose proof (thread_scan_spec id (ready_queue s) s) as H1.
  destruct (thread_scan (ready_queue s) id s) as [r s1|h s1];
    destruct H1 as [-> ->]; [|done].
  destruct (find _ (ready_queue s)) as [t|]; [done|].
  rewrite run_gets. apply thread_scan_spec.
Qed.

Lemma thread_scan_valid id nodes s :
  Forall (fun p => is_Some (threads s !! p)) nodes →
  thread_scan nodes id s = Ok (find (has_tid s id) nodes) s.
Proof.
  induction 1 as [|t nodes [d Hd] _ IH]; cbn [thread_scan find]; [done|].
  rewrite run_deref. unfold has_tid at 1. rewrite Hd.
  by destruct (tid d =? id).
Qed.

Lemma thread_get_valid id s :
  queues_valid s → thread_get id s = Ok (target_of s id) s.
Proof.
  unfold queues_valid. rewrite Forall_app. intros [Hr Hz].
  unfold thread_get, target_of.
  rewrite run_gets, run_bind_case, find_app, (thread_scan_valid _ _ _ Hr).
  destruct (find _ (ready_queue s)); [done|].
  rewrite run_gets. by apply thread_scan_valid.
Qed.

Lemma target_of_Some s id t :
  target_of s id = Some t →
  t ∈ ready_queue s ++ zombie_queue s
  ∧ ∃ d, threads s !! t = Some d ∧ tid d = id.
Proof.
  unfold target_of. intros H. apply find_some in H as [Hin Hid].
  split; [by apply list_elem_of_In|].
  unfold has_tid in Hid. destruct (threads s !! t) as [d|]; [|done].
  exists d. split; [done|]. by apply Z.eqb_eq.
Qed.

Lemma target_of_None s id : target_of s id = None ↔ ¬ known s id.
Proof.
  unfold target_of, known. split.
  - intros H (p & d & Hin & Hd & Hid).
    apply list_elem_of_In in Hin.
    pose proof (find_none _ _ H p Hin) as Hp.
    unfold has_tid in Hp. rewrite Hd in Hp. apply Z.eqb_neq in Hp. done.
  - intros H. destruct (find _ _) as [t|] eqn:Hf; [|done].
    exfalso. apply H. apply find_some in Hf as [Hin Hid].
    unfold has_tid in Hid. destruct (threads s !! t) as [d|] eqn:Hd; [|done].
    exists t, d. split; [by apply list_elem_of_In|].
    split; [done|]. by apply Z.eqb_eq.
Qed.

(** The lookup reads the identities and the queues only. *)
Lemma target_of_ext s s' id :
  tid <$> threads s' = tid <$> threads s →
  ready_queue s' = ready_queue s → zombie_queue s' = zombie_queue s →
  target_of s' id = target_of s id.
Proof.
  intros Ht Hr Hz. unfold target_of. rewrite Hr, Hz.
  assert (∀ p, has_tid s' id p = has_tid s id p) as Hext; last first.
  { induction (ready_queue s ++ zombie_queue s) as [|p l IH]; cbn; [done|].
    by rewrite Hext, IH. }
  intros p. unfold has_tid.
  assert (tid <$> threads s' !! p = tid <$> threads s !! p) as H
    by (by rewrite <- !list_lookup_fmap, Ht).
  destruct (threads s' !! p), (threads s !! p); cbn in H; congruence.
Qed.

(** * Join *)

Lemma join_finish_terminal t status s d :
  threads s !! t = Some d → terminal (state d) →
  join_finish t status s = Ok 0 (deliver status d s).
Proof.
  intros Hd Hst. unfold join_finish, deliver, join_result.
  destruct (Z.eqb_spec status 0) as [->|Hne]; [done|].
  rewrite run_deref, Hd.
  destruct Hst as [-> | ->]; rewrite run_poke;
    by destruct (Z.eqb_spec status 0).
Qed.

(** The handler leaves a RUNNING descriptor RUNNING. *)
Lemma sigvtalrm_handler_running s s1 t :
  sigvtalrm_handler s = Ok tt s1 →
  field state s t = Some GTTHREAD_RUNNING →
  field state s1 t = Some GTTHREAD_RUNNING.
Proof.
  intros Hrun Ht. pose proof (sigvtalrm_handler_spec s) as H.
  rewrite Hrun in H.
  destruct H as [[_ ->]|(pre & n & rest & cur & _ & _ & _ & _ & ->)]; [done|].
  unfold field in *. msimpl.
  destruct (decide (n = t)) as [->|Hne].
  - rewrite list_lookup_alter_eq. by destruct (threads s !! t).
  - by rewrite list_lookup_alter_ne.
Qed.

(** A turn of the wait loop. *)
Lemma join_wait_running fuel t status s d :
  threads s !! t = Some d → state d = GTTHREAD_RUNNING →
  join_wait (S fuel) t status s =
  match sigvtalrm_handler (with_blocked false s) with
  | Ok _ s1 => join_wait fuel t status (with_blocked true s1)
  | Stop h s1 => Stop h s1
  end.
Proof.
  intros Hd Hst. cbn [join_wait].
  rewrite run_deref, Hd, Hst, run_sigprocmask, run_bind_case.
  by destruct (sigvtalrm_handler _).
Qed.

(** The wait loop returns only when it finds the target terminal at once;
    a turn of the loop ends the call by a context switch, or the loop goes
    on: a target that is RUNNING stays so from one turn to the next. *)
Lemma join_wait_spec fuel : ∀ t status s,
  match join_wait fuel t status s with
  | Ok v s' =>
      v = 0 ∧ ∃ d, threads s !! t = Some d ∧ terminal (state d)
                   ∧ s' = deliver status d s
  | Stop Switched s' => field state s t = Some GTTHREAD_RUNNING
  | Stop Installed _ => False
  | Stop (Exited _) _ => False
  | Stop _ _ => True
  end.
Proof.
  induction fuel as [|fuel IH]; intros t status s.
  all: destruct (threads s !! t) as [d|] eqn:Hd;
    [|cbn [join_wait]; by rewrite run_deref, Hd].
  all: destruct (state d) eqn:Hst.
  all: try (cbn [join_wait]; rewrite run_deref, Hd, Hst;
            rewrite (join_finish_terminal t status s d Hd)
              by (rewrite Hst; unfold terminal; auto);
            (split; [done|]); exists d; rewrite Hst; unfold terminal; by auto).
  { cbn [join_wait]. by rewrite run_deref, Hd, Hst. }
  rewrite (join_wait_running fuel t status s d Hd Hst).
  destruct (sigvtalrm_handler (with_blocked false s)) as [[] s1|h s1] eqn:Hh.
  - apply (sigvtalrm_handler_running _ _ t) in Hh;
      [|unfold field; msimpl; rewrite Hd; cbn; by rewrite Hst].
    specialize (IH t status (with_blocked true s1)).
    destruct (join_wait fuel t status _) as [v s'|h s'].
    + destruct IH as (_ & d' & Hd' & Hterm & _). unfold field in Hh. msimpl.
      rewrite Hd' in Hh. injection Hh as Hh.
      destruct Hterm; congruence.
    + destruct h; try done. unfold field. rewrite Hd. cbn. by rewrite Hst.
  - pose proof (sigvtalrm_handler_spec (with_blocked false s)) as Hs.
    rewrite Hh in Hs. destruct h; try done.
    unfold field. rewrite Hd. cbn. by rewrite Hst.
Qed.

(** A turn of the loop in which the handler comes back at once changes
    nothing: with a running target and an empty ready queue the caller spins
    for ever. *)
Lemma join_wait_spins fuel t status s d :
  threads s !! t = Some d → state d = GTTHREAD_RUNNING → ready_queue s = [] →
  ∃ s', join_wait fuel t status s = Stop OutOfFuel s'.
Proof.
  revert s. induction fuel as [|fuel IH]; intros s Hd Hst Hempty;
    cbn [join_wait]; rewrite run_deref, Hd, Hst; [by eexists|].
  rewrite run_sigprocmask, run_bind_case, sigvtalrm_handler_empty by done.
  rewrite run_sigprocmask. by apply IH.
Qed.

Lemma gtthread_join_spec fuel thread status s :
  match gtthread_join fuel thread status s with
  | Ok v s' =>
      ∃ cur c, current s = Some cur ∧ threads s !! cur = Some c ∧
        ((v = -1 ∧ s' = s ∧
          (thread = tid c ∨ target_of s thread = None ∨
           ∃ t d, target_of s thread = Some t ∧ threads s !! t = Some d
                  ∧ joining d = tid c))
         ∨ (v = 0 ∧ thread ≠ tid c ∧
            ∃ t d, thread_get thread s = Ok (Some t) s
                   ∧ target_of s thread = Some t ∧ threads s !! t = Some d
                   ∧ joining d ≠ tid c ∧ terminal (state d)
                   ∧ s' = deliver status d
                            (with_threads (alter (set_joining (tid d)) cur) s)))
  | Stop Installed _ => False
  | Stop (Exited _) _ => False
  | Stop _ _ => True
  end.
Proof.
  unfold gtthread_join. rewrite run_get_current.
  destruct (current s) as [cur|] eqn:Hcur; [|done].
  rewrite run_deref. destruct (threads s !! cur) as [c|] eqn:Hc; [|done].
  destruct (Z.eqb_spec thread (tid c)) as [->|Hself].
  { exists cur, c. repeat split; try done. left. auto. }
  rewrite run_bind_case. pose proof (thread_get_spec thread s) as Hget.
  destruct (thread_get thread s) as [r s1|h s1] eqn:Hrun;
    destruct Hget as [-> ->]; [|done].
  destruct (target_of s thread) as [t|] eqn:Ht.
  2: { exists cur, c. repeat split; try done. left. auto. }
  rewrite run_deref. destruct (threads s !! t) as [d|] eqn:Hd; [|done].
  destruct (Z.eqb_spec (joining d) (tid c)) as [Hrec|Hrec].
  { exists cur, c. repeat split; try done. left. split; [done|].
    split; [done|]. right. right. by exists t, d. }
  rewrite run_store, Hc.
  pose proof (join_wait_spec fuel t status
                (with_threads (alter (set_joining (tid d)) cur) s)) as Hw.
  destruct (join_wait fuel t status _) as [v s'|h s']; [|by destruct h].
  destruct Hw as (-> & d' & Hd' & Hterm & ->).
  exists cur, c. repeat split; try done. right. repeat split; try done.
  exists t, d. repeat split; try done.
  - msimpl. destruct (decide (cur = t)) as [->|Hne].
    + rewrite list_lookup_alter_eq, Hd in Hd'. by injection Hd' as <-.
    + rewrite list_lookup_alter_ne, Hd in Hd' by done. by injection Hd' as <-.
  - unfold deliver, join_result. msimpl.
    destruct (decide (cur = t)) as [->|Hne].
    + rewrite list_lookup_alter_eq, Hd in Hd'. by injection Hd' as <-.
    + rewrite list_lookup_alter_ne, Hd in Hd' by done. by injection Hd' as <-.
Qed.


Lemma thread_scan_ext id nodes : ∀ s s' r,
  tid <$> threads s' = tid <$> threads s →
  thread_scan nodes id s = Ok r s → thread_scan nodes id s' = Ok r s'.
Proof.
  induction nodes as [|t nodes IH]; intros s s' r Ht; cbn [thread_scan].
  - by intros [= <-].
  - rewrite !run_deref.
    assert (tid <$> threads s' !! t = tid <$> threads s !! t) as H
      by (by rewrite <- !list_lookup_fmap, Ht).
    destruct (threads s !! t) as [d|], (threads s' !! t) as [d'|];
      try done; cbn in H; injection H as ->.
    destruct (tid d =? id); [by intros [= <-]|]. by apply IH.
Qed.

Lemma thread_get_ext id s s' r :
  tid <$> threads s' = tid <$> threads s →
  ready_queue s' = ready_queue s → zombie_queue s' = zombie_queue s →
  thread_get id s = Ok r s → thread_get id s' = Ok r s'.
Proof.
  intros Ht Hr Hz. unfold thread_get. rewrite !run_gets, !run_bind_case, Hr.
  pose proof (thread_scan_spec id (ready_queue s) s) as H1.
  destruct (thread_scan (ready_queue s) id s) as [r1 s1|h s1] eqn:E1;
    destruct H1 as [-> _]; [|done].
  rewrite (thread_scan_ext id _ s s' r1 Ht E1).
  destruct r1; [by intros [= <-]|].
  rewrite !run_gets, Hz. by apply thread_scan_ext.
Qed.


(** A join on a terminal target returns at once. *)
Lemma gtthread_join_terminal fuel thread status s cur c t d :
  current s = Some cur → threads s !! cur = Some c → thread ≠ tid c →
  thread_get thread s = Ok (Some t) s →
  threads s !! t = Some d → joining d ≠ tid c → terminal (state d) →
  gtthread_join fuel thread status s =
  Ok 0 (deliver status d (with_threads (alter (set_joining (tid d)) cur) s)).
Proof.
  intros Hcur Hc Hself Hget Hd Hrec Hterm. unfold gtthread_join.
  rewrite run_get_current, Hcur, run_deref, Hc.
  destruct (Z.eqb_spec thread (tid c)); [done|].
  rewrite run_bind_case, Hget, run_deref, Hd.
  destruct (Z.eqb_spec (joining d) (tid c)); [done|].
  rewrite run_store, Hc.
  assert (t ≠ cur) as Hne.
  { intros ->. pose proof (thread_get_spec thread s) as Hs.
    rewrite Hget in Hs. destruct Hs as [_ Hs]. symmetry in Hs.
    apply target_of_Some in Hs as (_ & d' & Hd' & Htid). congruence. }
  destruct fuel; cbn [join_wait]; rewrite run_deref; msimpl;
    rewrite list_lookup_alter_ne, Hd by done;
    destruct Hterm as [Hst|Hst]; rewrite Hst;
    apply join_finish_terminal; msimpl;
    rewrite ?list_lookup_alter_ne by done; try done;
    rewrite Hst; unfold terminal; auto.
Qed.

(** The three refusals of lines 168-179. *)
Lemma gtthread_join_refused fuel thread status s cur c :
  current s = Some cur → threads s !! cur = Some c → queues_valid s →
  thread = tid c ∨ ¬ known s thread ∨
    (∃ t d, target_of s thread = Some t ∧ threads s !! t = Some d
            ∧ joining d = tid c) →
  gtthread_join fuel thread status s = Ok (-1) s.
Proof.
  intros Hcur Hc Hvalid Href. unfold gtthread_join.
  rewrite run_get_current, Hcur, run_deref, Hc.
  destruct (Z.eqb_spec thread (tid c)) as [|Hself]; [done|].
  rewrite run_bind_case, (thread_get_valid _ _ Hvalid).
  destruct Href as [Href|[Href|(t & d & Ht & Hd & Hrec)]]; [done| |].
  - apply target_of_None in Href. by rewrite Href.
  - rewrite Ht, run_deref, Hd.
    by destruct (Z.eqb_spec (joining d) (tid c)).
Qed.

(** C6: gtthread_join returns a negative code, and leaves the state as it
    was, when the target is the caller, when no descriptor of the ready or
    the zombie queue carries the identity, and when the target's joining
    field holds the caller's identity; it returns a negative code in no
    other case. *)
Theorem gtthread_join_fails_exactly fuel thread status s cur c :
  current s = Some cur → threads s !! cur = Some c → queues_valid s →
  let refused :=
    thread = tid c ∨ ¬ known s thread ∨
    (∃ t d, target_of s thread = Some t ∧ threads s !! t = Some d
            ∧ joining d = tid c) in
  (refused → gtthread_join fuel thread status s = Ok (-1) s)
  ∧ (∀ v s', gtthread_join fuel thread status s = Ok v s' → v < 0 →
       refused ∧ v = -1 ∧ s' = s).
Proof.
  intros Hcur Hc Hvalid refused. split.
  - by apply (gtthread_join_refused fuel thread status s cur c).
  - intros v s' Hrun Hneg.
    pose proof (gtthread_join_spec fuel thread status s) as Hspec.
    rewrite Hrun in Hspec.
    destruct Hspec as (cur' & c' & Hcur' & Hc' & Hcases).
    rewrite Hcur in Hcur'. injection Hcur' as <-.
    rewrite Hc in Hc'. injection Hc' as <-.
    destruct Hcases as [(-> & -> & Hwhy)|(-> & _)]; [|lia].
    split; [|done]. unfold refused.
    destruct Hwhy as [?|[Hnone|?]]; auto.
    right. left. by apply target_of_None.
Qed.

Lemma gtthread_join_fails_exactly_witness :
  gtthread_join 1 1 0 started = Ok (-1) started.
Proof.
  apply (gtthread_join_fails_exactly 1 1 0 started 0%nat
           (mk_thread 1 0 GTTHREAD_RUNNING 0 0 0 (Some 0%nat))).
  - vm_compute. reflexivity.
  - vm_compute. reflexivity.
  - unfold queues_valid. rewrite started_eq. simpl. constructor.
  - left. simpl. reflexivity.
Defined.

Lemma gtthread_join_resume_spec fuel t status s :
  match gtthread_join_resume fuel t status s with
  | Ok v s' =>
      v = 0 ∧ ∃ d, threads s !! t = Some d ∧ terminal (state d)
                   ∧ s' = deliver status d (with_blocked true s)
  | Stop Switched s' => field state s t = Some GTTHREAD_RUNNING
  | Stop Installed _ => False
  | Stop (Exited _) _ => False
  | Stop _ _ => True
  end.
Proof.
  unfold gtthread_join_resume. rewrite run_sigprocmask.
  pose proof (join_wait_spec fuel t status (with_blocked true s)) as H.
  destruct (join_wait fuel t status _) as [v s'|h s']; [done|].
  by destruct h.
Qed.

Lemma user_mem_deliver status d s :
  user_mem (deliver status d s) =
  if status =? 0 then user_mem s else <[status := join_result d]> (user_mem s).
Proof. unfold deliver. by destruct (status =? 0). Qed.

Lemma threads_deliver status d s : threads (deliver status d s) = threads s.
Proof. unfold deliver. by destruct (status =? 0). Qed.

Lemma ready_queue_deliver status d s :
  ready_queue (deliver status d s) = ready_queue s.
Proof. unfold deliver. by destruct (status =? 0). Qed.


Lemma current_deliver status d s : current (deliver status d s) = current s.
Proof. unfold deliver. by destruct (status =? 0). Qed.



(** * What a call leaves alone *)

Section Frame.
Context {R : sched → sched → Prop} {ok : ptr → (thread_t → thread_t) → Prop}.
Context `{!Frame R ok}.

Lemma keeps_pure {A} (m : M A) : (∀ s, final (m s) = s) → keeps R m.
Proof. intros H s. rewrite H. apply frame_refl. Qed.

Lemma keeps_rest {A} (m : M A) :
  (∀ s, threads (final (m s)) = threads s ∧ maxtid (final (m s)) = maxtid s) →
  keeps R m.
Proof. intros H s. destruct (H s). by apply frame_rest. Qed.

Lemma keeps_bind {A B} (m : M A) (k : A → M B) :
  keeps R m → (∀ a, keeps R (k a)) → keeps R (bind m k).
Proof.
  intros Hm Hk s. unfold bind. specialize (Hm s).
  destruct (m s) as [a s1|h s1]; cbn in *; [|done].
  apply (frame_trans _ s1); [done|]. apply Hk.
Qed.

Lemma keeps_step {A} (m : M A) s s1 :
  R s s1 → keeps R m → R s (final (m s1)).
Proof. intros H Hk. eapply frame_trans; [exact H|apply Hk]. Qed.

Lemma keeps_modify f :
  (∀ s, threads (f s) = threads s) → (∀ s, maxtid (f s) = maxtid s) →
  keeps R (modify f).
Proof. intros H1 H2. apply keeps_rest. intros s. cbn. auto. Qed.

Lemma keeps_sigprocmask how : keeps R (sigprocmask how).
Proof. by apply keeps_modify. Qed.

Lemma keeps_steque_init q : keeps R (steque_init q).
Proof. apply keeps_modify; by destruct q. Qed.

Lemma keeps_steque_enqueue q item : keeps R (steque_enqueue q item).
Proof. apply keeps_rest. intros s. by destruct q. Qed.

Lemma keeps_steque_pop q : keeps R (steque_pop q).
Proof.
  apply keeps_rest. intros s. unfold steque_pop.
  rewrite run_gets. by destruct q, (queue_of _ s).
Qed.

Lemma keeps_deref p : keeps R (deref p).
Proof. apply keeps_pure. intros s. unfold deref. by destruct (threads s !! p). Qed.

Lemma keeps_get_current : keeps R get_current.
Proof. apply keeps_pure. intros s. unfold get_current. by destruct (current s). Qed.

Lemma keeps_load_context p : keeps R (load_context p).
Proof.
  apply keeps_pure. intros s. unfold load_context.
  destruct p as [c|]; [|done]. by destruct (contexts s !! c) as [[]|].
Qed.

Lemma keeps_store p g : ok p g → keeps R (store p g).
Proof.
  intros Hok. unfold store. apply keeps_bind; [apply keeps_deref|].
  intros _ s. cbn. by apply frame_store.
Qed.

Lemma keeps_free_stack p : keeps R (free_stack p).
Proof.
  apply keeps_rest. intros s. unfold free_stack.
  destruct p as [b|]; [|done]. by destruct (stacks s !! b) as [[]|].
Qed.

Lemma keeps_free_context p : keeps R (free_context p).
Proof.
  apply keeps_rest. intros s. unfold free_context.
  destruct p as [c|]; [|done]. by destruct (contexts s !! c) as [[]|].
Qed.

Lemma keeps_store_context p f : keeps R (store_context p f).
Proof.
  apply keeps_rest. intros s. unfold store_context.
  rewrite run_load_context. destruct p as [c|]; [|done].
  by destruct (contexts s !! c) as [[]|].
Qed.

Lemma keeps_poke p v : keeps R (poke p v).
Proof. apply keeps_rest. intros s. unfold poke. by destruct (p =? 0). Qed.

Lemma keeps_malloc_context : keeps R malloc_context.
Proof. by apply keeps_rest. Qed.

Lemma keeps_malloc_stack : keeps R malloc_stack.
Proof. by apply keeps_rest. Qed.

Lemma keeps_swapcontext oucp ucp : keeps R (swapcontext oucp ucp).
Proof.
  unfold swapcontext. apply keeps_bind; [apply keeps_load_context|intros _].
  destruct ucp; [|by apply keeps_pure].
  apply keeps_bind; [apply keeps_load_context|intros _]. by apply keeps_pure.
Qed.

Lemma keeps_setcontext ucp : keeps R (setcontext ucp).
Proof.
  unfold setcontext. destruct ucp; [|by apply keeps_pure].
  apply keeps_bind; [apply keeps_load_context|intros _]. by apply keeps_pure.
Qed.

Lemma keeps_thread_scan nodes id : keeps R (thread_scan nodes id).
Proof.
  induction nodes as [|t nodes IH]; cbn [thread_scan]; [by apply keeps_pure|].
  apply keeps_bind; [apply keeps_deref|intros d].
  destruct (tid d =? id); [by apply keeps_pure|apply IH].
Qed.

Lemma keeps_thread_get id : keeps R (thread_get id).
Proof.
  unfold thread_get. apply keeps_bind; [by apply keeps_pure|intros front].
  apply keeps_bind; [apply keeps_thread_scan|intros [t|]];
    [by apply keeps_pure|].
  apply keeps_bind; [by apply keeps_pure|intros front']. apply keeps_thread_scan.
Qed.
End Frame.

(** Functions already dealt with, and the stores allowed; extended below. *)
Ltac frame_known := fail.
Ltac frame_ok :=
  first [ apply frame_state
        | intros []; reflexivity
        | left; intros []; reflexivity
        | right; solve [reflexivity | assumption | auto] ].

Ltac frame :=
  repeat first
    [ frame_known
    | apply keeps_sigprocmask | apply keeps_steque_enqueue
    | apply keeps_steque_pop | apply keeps_steque_init
    | apply keeps_deref | apply keeps_get_current
    | apply keeps_load_context | apply keeps_thread_get
    | apply keeps_swapcontext | apply keeps_setcontext
    | apply keeps_free_stack | apply keeps_free_context
    | apply keeps_store_context | apply keeps_poke
    | apply keeps_malloc_context | apply keeps_malloc_stack
    | apply keeps_store; frame_ok
    | apply keeps_modify; intros ?; reflexivity
    | apply keeps_pure; intros ?; reflexivity
    | assumption
    | match goal with
      | |- keeps _ (if ?b then _ else _) => destruct b
      | |- keeps _ (match ?x with _ => _ end) => destruct x
      end
    | apply keeps_bind; [|intros ?] ].

Lemma keeps_skip_cancelled `{!Frame R ok} rq :
  ∀ next, keeps R (skip_cancelled rq next).
Proof.
  induction rq as [|item rq IH]; intros next; cbn [skip_cancelled]; frame.
  apply IH.
Qed.

Ltac frame_known ::= apply keeps_skip_cancelled.

Lemma keeps_sigvtalrm_handler `{!Frame R ok} : keeps R sigvtalrm_handler.
Proof. unfold sigvtalrm_handler. frame. Qed.

Ltac frame_known ::=
  first [ apply keeps_skip_cancelled | apply keeps_sigvtalrm_handler ].

Lemma keeps_gtthread_yield `{!Frame R ok} : keeps R gtthread_yield.
Proof. unfold gtthread_yield. frame. Qed.

Lemma keeps_join_finish `{!Frame R ok} t status :
  keeps R (join_finish t status).
Proof. unfold join_finish. frame. Qed.

Ltac frame_known ::=
  first [ apply keeps_skip_cancelled | apply keeps_sigvtalrm_handler
        | apply keeps_join_finish ].

Lemma keeps_join_wait `{!Frame R ok} fuel :
  ∀ t status, keeps R (join_wait fuel t status).
Proof.
  induction fuel as [|fuel IH]; intros t status; cbn [join_wait]; frame.
  apply IH.
Qed.

Lemma keeps_exit_drain `{!Frame R ok} fuel :
  ∀ rv, keeps R (exit_drain fuel rv).
Proof.
  induction fuel as [|fuel IH]; intros rv; cbn [exit_drain]; unfold exit;
    frame.
  apply IH.
Qed.

Ltac frame_known ::=
  first [ apply keeps_skip_cancelled | apply keeps_sigvtalrm_handler
        | apply keeps_join_finish | apply keeps_join_wait
        | apply keeps_exit_drain ].

Lemma keeps_gtthread_join_resume `{!Frame R ok} fuel t status :
  keeps R (gtthread_join_resume fuel t status).
Proof. unfold gtthread_join_resume. frame. Qed.

Lemma keeps_gtthread_exit_resume `{!Frame R ok} fuel rv :
  keeps R (gtthread_exit_resume fuel rv).
Proof. unfold gtthread_exit_resume. frame. Qed.

Lemma keeps_gtthread_self `{!Frame R ok} : keeps R gtthread_self.
Proof. unfold gtthread_self. frame. Qed.

(** The relation [joining_kept P]. *)
Lemma joining_kept_refl P s : joining_kept P s s.
Proof. by split. Qed.

Lemma joining_kept_trans P s1 s2 s3 :
  joining_kept P s1 s2 → joining_kept P s2 s3 → joining_kept P s1 s3.
Proof.
  intros [Hl1 H1] [Hl2 H2]. split; [lia|].
  intros p Hp Hlt. rewrite H2 by (done || lia). by apply H1.
Qed.

Lemma joining_kept_weaken (P Q : ptr → Prop) s s' :
  (∀ p, P p → Q p) → joining_kept P s s' → joining_kept Q s s'.
Proof. intros HPQ [Hl H]. split; [done|]. intros p Hp. apply H. auto. Qed.

Lemma joining_kept_fresh (P Q : ptr → Prop) s s' :
  (∀ p, P p → (length (threads s) ≤ p)%nat) →
  joining_kept P s s' → joining_kept Q s s'.
Proof.
  intros HP [Hl H]. split; [done|]. intros p _ Hlt. apply H; [|done].
  intros Hp. apply HP in Hp. lia.
Qed.

Lemma joining_kept_threads P s s' :
  threads s' = threads s → joining_kept P s s'.
Proof. intros H. unfold joining_kept, joinings. by rewrite H. Qed.

#[global] Instance joining_frame P : Frame (joining_kept P) (ok_joining P).
Proof.
  split.
  - apply joining_kept_refl.
  - apply joining_kept_trans.
  - intros s s' H _. by apply joining_kept_threads.
  - intros p g s [Hg|Hp]; (split; msimpl; [by rewrite length_alter|]);
      intros q Hq _; unfold joinings; msimpl.
    + by rewrite fmap_alter_same.
    + rewrite !list_lookup_fmap, list_lookup_alter_ne; [done|congruence].
  - intros p x. left. by intros [].
Qed.

Lemma joining_kept_step P {A} (m : M A) s s1 :
  joining_kept P s s1 → keeps (joining_kept P) m →
  joining_kept P s (final (m s1)).
Proof. apply keeps_step. Qed.

(** gtthread_create writes the [joining] field of the descriptor it
    allocates, and of no other. *)
Lemma keeps_gtthread_create P junk rc thread start_routine arg :
  keeps (joining_kept P) (gtthread_create junk rc thread start_routine arg).
Proof.
  intros s. apply (joining_kept_fresh (fun p => length (threads s) = p)).
  { by intros p <-. }
  unfold gtthread_create. rewrite run_sigprocmask, run_malloc_thread.
  apply joining_kept_step.
  - split; msimpl; [rewrite length_app; lia|].
    intros p _ Hlt. unfold joinings. msimpl.
    by rewrite fmap_app, lookup_app_l by (by rewrite length_fmap).
  - unfold memset_context, getcontext, exit. frame.
    intros s0. by apply joining_kept_threads.
Qed.

(** The loop of the initial thread does not return. *)
Lemma exit_drain_stops fuel : ∀ rv s, ∃ h s', exit_drain fuel rv s = Stop h s'.
Proof.
  induction fuel as [|fuel IH]; intros rv s; cbn [exit_drain];
    rewrite run_steque_isempty; destruct (queue_of Ready s);
    try (by eexists _, _).
  rewrite run_sigprocmask, run_bind_case.
  destruct (sigvtalrm_handler _) as [[] s1|h s1]; [|by eexists _, _].
  rewrite run_sigprocmask. apply IH.
Qed.

(** The caller's is the one [joining] field gtthread_exit writes. *)
Lemma exit_switch_joining rv s :
  joining_kept (fun p => current s = Some p) s (final (exit_switch rv s)).
Proof.
  unfold exit_switch. rewrite run_get_current.
  destruct (current s) as [prev|]; [|apply joining_kept_refl].
  apply joining_kept_step; [apply joining_kept_refl|]. frame.
Qed.

Lemma gtthread_exit_joining fuel rv s :
  joining_kept (fun p => current s = Some p) s (final (gtthread_exit fuel rv s)).
Proof.
  unfold gtthread_exit. rewrite run_sigprocmask, run_steque_isempty.
  destruct (queue_of Ready _); msimpl.
  { by apply joining_kept_threads. }
  rewrite run_get_current. msimpl.
  destruct (current s) as [cur|] eqn:Hcur; [|by apply joining_kept_threads].
  rewrite run_deref. msimpl.
  destruct (threads s !! cur) as [c|]; [|by apply joining_kept_threads].
  destruct (tid c =? 1).
  - apply joining_kept_step; [by apply joining_kept_threads|].
    apply keeps_exit_drain.
  - pose proof (exit_switch_joining rv (with_blocked true s)) as H.
    msimpl. rewrite Hcur in H.
    eapply joining_kept_trans; [|exact H]. by apply joining_kept_threads.
Qed.

Lemma gtthread_join_joining fuel thread status s :
  joining_kept (fun p => current s = Some p) s
    (final (gtthread_join fuel thread status s)).
Proof.
  unfold gtthread_join. rewrite run_get_current.
  destruct (current s) as [cur|]; [|apply joining_kept_refl].
  apply joining_kept_step; [apply joining_kept_refl|]. frame.
Qed.

Lemma gtthread_start_return_joining fuel v s :
  joining_kept (fun p => current s = Some p) s
    (final (gtthread_start_return fuel v s)).
Proof.
  unfold gtthread_start_return. rewrite run_get_current.
  destruct (current s) as [cur|] eqn:Hcur; [|apply joining_kept_refl].
  rewrite run_store.
  destruct (threads s !! cur) as [c|]; [|apply joining_kept_refl].
  rewrite run_deref. msimpl.
  destruct (alter _ _ _ !! cur) as [c'|]; msimpl.
  2: { split; msimpl; [by rewrite length_alter|]. intros p _ _.
       unfold joinings. msimpl. by rewrite fmap_alter_same. }
  pose proof (gtthread_exit_joining fuel (retval c')
                (with_threads (alter (set_retval v) cur) s)) as H.
  msimpl. rewrite Hcur in H.
  eapply joining_kept_trans; [|exact H].
  split; msimpl; [by rewrite length_alter|]. intros p _ _.
  unfold joinings. msimpl. by rewrite fmap_alter_same.
Qed.

Lemma final_erase {A} (r : result A) : final (erase r) = final r.
Proof. by destruct r. Qed.

Lemma final_start_returns r : final (start_returns r) = final r.
Proof. by destruct r. Qed.

(** * Exit *)

(** All that lines 228-246 can do: install the context of the head of the
    ready queue, or return when [setcontext] has refused its NULL context,
    in the same state. *)
Lemma exit_switch_spec rv s :
  match exit_switch rv s with
  | Stop Installed s' =>
      ∃ prev next rq dp dn cp cn u,
        current s = Some prev ∧ ready_queue s = next :: rq ∧ next ≠ prev
        ∧ threads s !! prev = Some dp ∧ threads s !! next = Some dn
        ∧ ucp dp = Some cp ∧ contexts s !! cp = Some (Some u)
        ∧ ucp dn = Some cn
        ∧ threads s' =
            alter (set_joining 0) prev
              (alter (set_retval rv) prev
                 (alter (set_state GTTHREAD_DONE) prev
                    (alter (set_ucp None) prev
                       (alter (set_state GTTHREAD_RUNNING) next (threads s)))))
        ∧ contexts s' = <[cp := None]> (contexts s)
        ∧ stacks s' = match ss_sp u with
                      | Some b => <[b := false]> (stacks s)
                      | None => stacks s
                      end
        ∧ ready_queue s' = rq ∧ zombie_queue s' = zombie_queue s ++ [prev]
        ∧ current s' = Some next
        ∧ maxtid s' = maxtid s ∧ user_mem s' = user_mem s
        ∧ vtalrm_blocked s' = false
  | Ok _ s' =>
      ∃ prev next rq dp dn cp u,
        current s = Some prev ∧ ready_queue s = next :: rq
        ∧ (next = prev ∨ ucp dn = None)
        ∧ threads s !! prev = Some dp ∧ threads s !! next = Some dn
        ∧ ucp dp = Some cp ∧ contexts s !! cp = Some (Some u)
        ∧ threads s' =
            alter (set_joining 0) prev
              (alter (set_retval rv) prev
                 (alter (set_state GTTHREAD_DONE) prev
                    (alter (set_ucp None) prev
                       (alter (set_state GTTHREAD_RUNNING) next (threads s)))))
        ∧ contexts s' = <[cp := None]> (contexts s)
        ∧ stacks s' = match ss_sp u with
                      | Some b => <[b := false]> (stacks s)
                      | None => stacks s
                      end
        ∧ ready_queue s' = rq ∧ zombie_queue s' = zombie_queue s ++ [prev]
        ∧ current s' = Some next
        ∧ maxtid s' = maxtid s ∧ user_mem s' = user_mem s
        ∧ vtalrm_blocked s' = false
  | Stop Fault _ => True
  | Stop Underflow _ => ready_queue s = []
  | _ => False
  end.
Proof.
  unfold exit_switch. mexec; try done.
  all: try match goal with
       | H : live _ (ucp _) = true |- _ => apply live_Some in H as [cn Hcn]
       end.
  all: try (eexists _, _, _, _, _, _, _, _; conjs; fail).
  all: eexists _, _, _, _, _, _, _; (split; [reflexivity|]);
    (split; [reflexivity|]); (split; [first [by left | by right]|]); conjs.
Qed.

(** The loop of the initial thread ends the process on an empty ready
    queue; on a non-empty one it runs the handler, and goes on when the
    handler returns. *)
Lemma exit_drain_empty fuel rv s :
  ready_queue s = [] →
  exit_drain fuel rv s = Stop (Exited rv) (with_blocked false s).
Proof.
  intros Hrq. destruct fuel; cbn [exit_drain]; rewrite run_steque_isempty;
    msimpl; by rewrite Hrq.
Qed.

Lemma exit_drain_turn fuel rv s :
  ready_queue s ≠ [] →
  exit_drain (S fuel) rv s =
  match sigvtalrm_handler (with_blocked false s) with
  | Ok _ s1 => exit_drain fuel rv (with_blocked true s1)
  | Stop h s1 => Stop h s1
  end.
Proof.
  intros Hrq. cbn [exit_drain]. rewrite run_steque_isempty. msimpl.
  destruct (ready_queue s); [done|].
  rewrite run_sigprocmask, run_bind_case.
  by destruct (sigvtalrm_handler _).
Qed.


Lemma gtthread_exit_unfold fuel rv s :
  gtthread_exit fuel rv s =
  match ready_queue s with
  | [] => Stop (Exited rv) (with_blocked false s)
  | _ :: _ =>
      match current s with
      | None => Stop Fault (with_blocked true s)
      | Some cur =>
          match threads s !! cur with
          | None => Stop Fault (with_blocked true s)
          | Some c =>
              if tid c =? 1 then exit_drain fuel rv (with_blocked true s)
              else exit_switch rv (with_blocked true s)
          end
      end
  end.
Proof.
  unfold gtthread_exit. mrun. destruct (ready_queue s); [done|].
  mrun. destruct (current s) as [cur|]; [|done].
  mrun. destruct (threads s !! cur) as [c|]; [|done].
  by destruct (tid c =? 1).
Qed.

(** gtthread_exit returns to its caller on one path only: the caller is
    not the initial thread, and [setcontext] has refused the context of
    the descriptor popped from the ready queue. *)
Lemma gtthread_exit_returns fuel rv s s' :
  gtthread_exit fuel rv s = Ok tt s' →
  exit_switch rv (with_blocked true s) = Ok tt s'
  ∧ ∃ cur c, current s = Some cur ∧ threads s !! cur = Some c ∧ tid c ≠ 1.
Proof.
  rewrite gtthread_exit_unfold.
  destruct (ready_queue s); [done|].
  destruct (current s) as [cur|] eqn:Hcur; [|done].
  destruct (threads s !! cur) as [c|] eqn:Hc; [|done].
  destruct (Z.eqb_spec (tid c) 1).
  - intros H.
    destruct (exit_drain_stops fuel rv (with_blocked true s)) as (h & s1 & H1).
    by rewrite H1 in H.
  - intros H. split; [done|]. exists cur, c. by split_and!.
Qed.

(** C3: thread 2 calls gtthread_exit when the head of the ready queue is
    thread 3, which it has cancelled (init, two creates, the initial thread
    yields, thread 2 cancels thread 3 and exits): line 229 pops the
    cancelled descriptor, line 230 marks it RUNNING although it is in the
    zombie queue and its context has been freed, and line 245 hands its
    NULL context to setcontext; the host refuses it and gtthread_exit
    returns to its caller, with the cancelled descriptor as current. *)
Theorem gtthread_exit_installs_cancelled :
  reachable head_cancelled
  ∧ current head_cancelled = Some 1%nat
  ∧ field tid head_cancelled 1 = Some 2
  ∧ ready_queue head_cancelled = [2%nat; 0%nat]
  ∧ field state head_cancelled 2 = Some GTTHREAD_CANCEL
  ∧ field ucp head_cancelled 2 = Some None
  ∧ ∃ s', gtthread_exit 1 9 head_cancelled = Ok tt s'
          ∧ current s' = Some 2%nat
          ∧ field state s' 2 = Some GTTHREAD_RUNNING
          ∧ field ucp s' 2 = Some None
          ∧ zombie_queue s' = [2%nat; 1%nat].
Proof.
  split; [apply reachable_head_cancelled|].
  do 5 (split; [vm_compute; reflexivity|]).
  exists (after (gtthread_exit 1 9) head_cancelled).
  evals.
Qed.
(** * Cancel *)

(** What lines 292-318 have done when they return. *)
Lemma cancel_target_spec thread s :
  match cancel_target thread s with
  | Ok v s' =>
      (v = -1 ∧ s' = with_blocked false s ∧
        (target_of s thread = None ∨
         ∃ t d, target_of s thread = Some t ∧ threads s !! t = Some d
                ∧ terminal (state d)))
       ∨ (v = 0 ∧
          ∃ t d cp u,
            target_of s thread = Some t ∧ threads s !! t = Some d
            ∧ state d = GTTHREAD_RUNNING
            ∧ ucp d = Some cp ∧ contexts s !! cp = Some (Some u)
            ∧ threads s' =
                alter (set_joining 0) t
                  (alter (set_ucp None) t
                     (alter (set_state GTTHREAD_CANCEL) t (threads s)))
            ∧ contexts s' = <[cp := None]> (contexts s)
            ∧ stacks s' = match ss_sp u with
                          | Some b => <[b := false]> (stacks s)
                          | None => stacks s
                          end
            ∧ ready_queue s' = ready_queue s
            ∧ zombie_queue s' = zombie_queue s ++ [t]
            ∧ current s' = current s
            ∧ maxtid s' = maxtid s ∧ user_mem s' = user_mem s
            ∧ vtalrm_blocked s' = false)
  | Stop h _ => h = Fault
  end.
Proof.
  unfold cancel_target. rewrite run_sigprocmask, run_bind_case.
  pose proof (thread_get_spec thread (with_blocked true s)) as Hget.
  destruct (thread_get thread _) as [r s1|h s1]; destruct Hget as [-> ->];
    [|done].
  replace (target_of (with_blocked true s) thread)
    with (target_of s thread) by done.
  destruct (target_of s thread) as [t|] eqn:Ht.
  2: { mrun. left. conjs. by left. }
  mexec; try done.
  all: try (left; conjs; right; eexists _, _; conjs; unfold terminal; by auto).
  all: right; conjs; eexists _, _, _, _; conjs.
Qed.

(** Lines 288-290: a caller that names another thread goes to line 292 at
    once; one that names itself calls gtthread_exit(0) first, and goes on
    at line 292 when that call returns. *)
Lemma gtthread_cancel_other fuel thread s cur c :
  current s = Some cur → threads s !! cur = Some c → tid c ≠ thread →
  gtthread_cancel fuel thread s = cancel_target thread s.
Proof.
  intros Hcur Hc Hother. unfold gtthread_cancel.
  rewrite run_get_current, Hcur, run_deref, Hc, run_bind_case.
  unfold gtthread_equal.
  by destruct (Z.eqb_spec (tid c) thread) as [|_].
Qed.

Lemma gtthread_cancel_self fuel thread s cur c :
  current s = Some cur → threads s !! cur = Some c → tid c = thread →
  gtthread_cancel fuel thread s =
  match gtthread_exit fuel 0 s with
  | Ok _ s1 => cancel_target thread s1
  | Stop h s1 => Stop h s1
  end.
Proof.
  intros Hcur Hc Hself. unfold gtthread_cancel.
  rewrite run_get_current, Hcur, run_deref, Hc, run_bind_case.
  unfold gtthread_equal.
  by destruct (Z.eqb_spec (tid c) thread) as [_|].
Qed.

(** What gtthread_cancel has done when it returns: lines 292-318, from
    the state of the call or, for a caller that names itself, from the
    state in which gtthread_exit has returned. *)
Lemma gtthread_cancel_spec fuel thread s :
  match gtthread_cancel fuel thread s with
  | Ok v s' =>
      ∃ cur c s0, current s = Some cur ∧ threads s !! cur = Some c
      ∧ ((tid c ≠ thread ∧ s0 = s)
         ∨ (tid c = thread ∧ gtthread_exit fuel 0 s = Ok tt s0))
      ∧ cancel_target thread s0 = Ok v s'
  | Stop _ _ => True
  end.
Proof.
  destruct (gtthread_cancel fuel thread s) as [v s'|h s1] eqn:Hrun; [|done].
  destruct (current s) as [cur|] eqn:Hcur.
  2: { unfold gtthread_cancel in Hrun. by rewrite run_get_current, Hcur in Hrun. }
  destruct (threads s !! cur) as [c|] eqn:Hc.
  2: { unfold gtthread_cancel in Hrun.
       by rewrite run_get_current, Hcur, run_deref, Hc in Hrun. }
  destruct (decide (tid c = thread)) as [Hself|Hother].
  - rewrite (gtthread_cancel_self fuel thread s cur c) in Hrun by done.
    destruct (gtthread_exit fuel 0 s) as [[] s0|h s0] eqn:Hexit; [|done].
    exists cur, c, s0. split_and!; try done. by right.
  - rewrite (gtthread_cancel_other fuel thread s cur c) in Hrun by done.
    exists cur, c, s. split_and!; try done. by left.
Qed.

(** gtthread_cancel on a thread other than the caller that is running and
    owns a context. *)
Lemma gtthread_cancel_run fuel thread s cur c t d cp u :
  current s = Some cur → threads s !! cur = Some c → tid c ≠ thread →
  queues_valid s → target_of s thread = Some t →
  threads s !! t = Some d → state d = GTTHREAD_RUNNING →
  ucp d = Some cp → contexts s !! cp = Some (Some u) →
  (∀ b, ss_sp u = Some b → stacks s !! b = Some true) →
  ∃ s', gtthread_cancel fuel thread s = Ok 0 s'
        ∧ threads s' =
            alter (set_joining 0) t
              (alter (set_ucp None) t
                 (alter (set_state GTTHREAD_CANCEL) t (threads s)))
        ∧ contexts s' = <[cp := None]> (contexts s)
        ∧ stacks s' = match ss_sp u with
                      | Some b => <[b := false]> (stacks s)
                      | None => stacks s
                      end
        ∧ ready_queue s' = ready_queue s
        ∧ zombie_queue s' = zombie_queue s ++ [t]
        ∧ current s' = current s
        ∧ vtalrm_blocked s' = false.
Proof.
  intros Hcur Hc Hother Hvalid Ht Hd Hst Hcp Hu Hstack.
  rewrite (gtthread_cancel_other fuel thread s cur c) by done.
  unfold cancel_target.
  rewrite run_sigprocmask, run_bind_case.
  rewrite (thread_get_ext thread s _ (Some t)); try done.
  2: { rewrite <- Ht. by apply thread_get_valid. }
  mrun. rewrite Hst. mrun. rewrite Hcp.
  destruct (ss_sp u) as [b|] eqn:Hb; eexists; (split; [mrun|]).
  - rewrite Hb. mrun. rewrite (Hstack b eq_refl). mrun. reflexivity.
  - conjs.
  - rewrite Hb. mrun. reflexivity.
  - conjs.
Qed.

(** * The joining field *)

Lemma exit_drain_not_installed fuel : ∀ rv s s',
  exit_drain fuel rv s ≠ Stop Installed s'.
Proof.
  induction fuel as [|fuel IH]; intros rv s s'; cbn [exit_drain];
    rewrite run_steque_isempty; destruct (queue_of Ready s); try done.
  rewrite run_sigprocmask, run_bind_case.
  pose proof (sigvtalrm_handler_spec (with_blocked false s)) as Hh.
  destruct (sigvtalrm_handler _) as [[] s1|h s1].
  - rewrite run_sigprocmask. apply IH.
  - by destruct h.
Qed.

Lemma gtthread_exit_installed fuel rv s s' :
  gtthread_exit fuel rv s = Stop Installed s' →
  exit_switch rv (with_blocked true s) = Stop Installed s'.
Proof.
  rewrite gtthread_exit_unfold.
  destruct (ready_queue s); [done|]. destruct (current s) as [cur|]; [|done].
  destruct (threads s !! cur) as [c|]; [|done].
  destruct (tid c =? 1); [|done].
  intros H. by apply exit_drain_not_installed in H.
Qed.

(** * Yield and create *)

(** All gtthread_yield can do: it returns 0 on an empty ready queue and
    when [swapcontext] has refused the NULL context of the head of the
    queue, which is the current descriptor by then. *)
Lemma gtthread_yield_spec s :
  match gtthread_yield s with
  | Ok v s' =>
      v = 0
      ∧ ((ready_queue s = [] ∧ s' = with_blocked true s)
         ∨ ∃ next rq cur dn,
             ready_queue s = next :: rq ∧ current s = Some cur
             ∧ threads s !! next = Some dn ∧ ucp dn = None
             ∧ s' = with_blocked false
                      (with_current (Some next) (with_ready (rq ++ [cur]) s)))
  | Stop Switched s' =>
      ∃ next rq cur dn cn,
        ready_queue s = next :: rq ∧ current s = Some cur
        ∧ threads s !! next = Some dn ∧ ucp dn = Some cn
        ∧ s' = with_blocked false
                 (with_current (Some next) (with_ready (rq ++ [cur]) s))
  | Stop Fault _ => True
  | Stop _ _ => False
  end.
Proof.
  unfold gtthread_yield. mexec; try done.
  - split; [done|]. by left.
  - eexists _, _, _, _, _. conjs.
  - split; [done|]. right. eexists _, _, _, _. conjs.
Qed.

Lemma gtthread_create_spec junk rc thread start_routine arg s :
  match gtthread_create junk rc thread start_routine arg s with
  | Ok v s' =>
      v = 0 ∧ rc ≠ -1 ∧ thread ≠ 0
      ∧ threads s' =
          threads s ++
            [mk_thread (maxtid s) 0 GTTHREAD_RUNNING start_routine arg
               (retval junk) (Some (length (contexts s)))]
      ∧ contexts s' =
          contexts s ++
            [Some (mk_ucontext (Some (length (stacks s)))
                     (Some (start_routine, arg)))]
      ∧ stacks s' = stacks s ++ [true]
      ∧ ready_queue s' = ready_queue s ++ [length (threads s)]
      ∧ zombie_queue s' = zombie_queue s
      ∧ current s' = current s
      ∧ maxtid s' = tid_succ (maxtid s)
      ∧ user_mem s' = <[thread := maxtid s]> (user_mem s)
      ∧ vtalrm_blocked s' = false
  | Stop (Exited st) _ => st = EXIT_FAILURE ∧ rc = -1
  | Stop Fault _ => thread = 0
  | Stop _ _ => False
  end.
Proof.
  unfold gtthread_create. mexec; try done.
  rewrite !alter_snoc, !list_insert_insert_eq, insert_snoc. conjs.
Qed.

Lemma gtthread_create_run junk rc thread start_routine arg s :
  rc ≠ -1 → thread ≠ 0 →
  ∃ s', gtthread_create junk rc thread start_routine arg s = Ok 0 s'.
Proof.
  intros Hrc Hthread.
  pose proof (gtthread_create_spec junk rc thread start_routine arg s) as H.
  destruct (gtthread_create _ _ _ _ _ _) as [v s'|h s'].
  - destruct H as (-> & _). by exists s'.
  - destruct h; try done. by destruct H.
Qed.
(** * The current descriptor, the queues and the context records *)

#[local] Set Warnings "-clear-no-such-hyp".

Lemma field_fmap {A} (f : thread_t → A) s p :
  field f s p = (f <$> threads s) !! p.
Proof. unfold field. by rewrite list_lookup_fmap. Qed.

Lemma field_Some {A} (f : thread_t → A) s p d :
  threads s !! p = Some d → field f s p = Some (f d).
Proof. unfold field. by intros ->. Qed.

Lemma field_inv {A} (f : thread_t → A) s p x :
  field f s p = Some x → ∃ d, threads s !! p = Some d ∧ f d = x.
Proof.
  unfold field. destruct (threads s !! p) as [d|]; [|done].
  intros [= <-]. by exists d.
Qed.

Lemma field_lt {A} (f : thread_t → A) s p x :
  field f s p = Some x → (p < length (threads s))%nat.
Proof. intros (d & Hd & _)%field_inv. by apply lookup_lt_Some in Hd. Qed.

(** An update of another field leaves a field alone. *)
Lemma field_alter_keep {A} (f : thread_t → A) g q s p :
  (∀ d, f (g d) = f d) →
  field f (with_threads (alter g q) s) p = field f s p.
Proof. intros H. rewrite !field_fmap. msimpl. by rewrite fmap_alter_same. Qed.

Lemma lookup_alter_keep {A} (f : thread_t → A) g q (h : list thread_t) p :
  (∀ d, f (g d) = f d) → f <$> alter g q h !! p = f <$> h !! p.
Proof.
  intros H. rewrite <- !list_lookup_fmap. by rewrite fmap_alter_same.
Qed.

Lemma live_inv s p :
  live s p = true → ∃ c u, p = Some c ∧ contexts s !! c = Some (Some u).
Proof.
  unfold live. destruct p as [c|]; [|done].
  destruct (contexts s !! c) as [[u|]|] eqn:E; try done. by exists c, u.
Qed.

(** [consistent] reads the state and the context pointer of the
    descriptors, the two heaps of context records and stacks, the queues
    and [current]. *)
Lemma consistent_ext s s' :
  (∀ p, field state s' p = field state s p) →
  (∀ p, field ucp s' p = field ucp s p) →
  length (threads s') = length (threads s) →
  contexts s' = contexts s → stacks s' = stacks s →
  ready_queue s' = ready_queue s → zombie_queue s' = zombie_queue s →
  current s' = current s →
  consistent s → consistent s'.
Proof.
  intros Hst Hucp Hlen Hc Hs Hr Hz Hcur [H1 H2 H3 H4 H5 H6 H7 H8].
  constructor; unfold current_list in *;
    rewrite ?Hlen, ?Hc, ?Hs, ?Hr, ?Hz, ?Hcur; try done.
  - intros p. rewrite Hst, Hucp. apply H3.
  - intros p. rewrite Hst, Hucp. apply H4.
  - intros p c. rewrite Hst, Hucp. apply H5.
  - intros p q c. rewrite !Hucp. apply H6.
Qed.

Lemma consistent_alter g p s :
  (∀ d, state (g d) = state d) → (∀ d, ucp (g d) = ucp d) →
  consistent s → consistent (with_threads (alter g p) s).
Proof.
  intros Hst Hucp. apply consistent_ext; try done.
  - intros q. by apply field_alter_keep.
  - intros q. by apply field_alter_keep.
  - msimpl. by rewrite length_alter.
Qed.

Lemma consistent_blocked b s : consistent s → consistent (with_blocked b s).
Proof. by apply consistent_ext. Qed.

Lemma consistent_deliver status d s :
  consistent s → consistent (deliver status d s).
Proof.
  apply consistent_ext; unfold deliver; by destruct (status =? 0).
Qed.

(** A descriptor that has a context record is in the zombie queue of no
    consistent state, and is not cancelled. *)
Lemma consistent_not_zombie s p c :
  consistent s → field ucp s p = Some (Some c) → p ∉ zombie_queue s.
Proof.
  intros Hs Hp Hin. apply (cons_zombie s Hs) in Hin as [Hin _]. congruence.
Qed.

Lemma cancelled_no_context s p :
  consistent s → field state s p = Some GTTHREAD_CANCEL →
  field ucp s p = Some None.
Proof.
  intros Hs Hst. destruct (field_inv _ _ _ _ Hst) as (d & Hd & _).
  destruct (ucp d) as [c|] eqn:Hc.
  - assert (field ucp s p = Some (Some c)) as H by (by rewrite (field_Some _ _ _ d), Hc).
    apply (cons_context s Hs) in H as [H _]. congruence.
  - by rewrite (field_Some _ _ _ d), Hc.
Qed.

(** The descriptors of the ready queue that are not cancelled can be
    switched to. *)
Lemma ready_runnable s p d :
  consistent s → p ∈ ready_queue s → threads s !! p = Some d →
  state d ≠ GTTHREAD_CANCEL →
  state d = GTTHREAD_RUNNING ∧ ∃ c u, ucp d = Some c ∧ contexts s !! c = Some (Some u).
Proof.
  intros Hs Hin Hd Hst.
  destruct (cons_ready s Hs p Hin) as [H|[c Hc]].
  - rewrite (field_Some _ _ _ d) in H by done. congruence.
  - destruct (cons_context s Hs p c Hc) as [H1 [u Hu]].
    rewrite (field_Some _ _ _ d) in H1 by done.
    rewrite (field_Some _ _ _ d) in Hc by done.
    split; [congruence|]. exists c, u. split; [congruence|done].
Qed.

Ltac lists :=
  rewrite ?NoDup_cons, ?NoDup_app, ?NoDup_cons, ?NoDup_nil,
    ?Forall_cons, ?Forall_app, ?Forall_cons, ?Forall_nil in *.

Lemma started_consistent blocked mem junk rg rt rs period s :
  continues (gtthread_init junk rg rt rs period (boot blocked mem)) = Some s →
  consistent s.
Proof.
  destruct (Z.eq_dec rg (-1)) as [->|Hg].
  { unfold gtthread_init. mexec; try (done || lia). }
  destruct (Z.ltb_spec rt 0).
  { unfold gtthread_init. mexec; try (done || lia). }
  destruct (Z.ltb_spec rs 0).
  { unfold gtthread_init. mexec; try (done || lia). }
  rewrite gtthread_init_run by lia. cbn. intros [= <-].
  constructor; unfold current_list, field; cbn.
  - apply NoDup_singleton.
  - repeat constructor.
  - by intros p ?%elem_of_nil.
  - by intros p ?%elem_of_nil.
  - intros [|p] c; cbn; [|done]. intros [= <-]. split; [done|]. by eexists.
  - intros [|p] [|q] c; cbn; done.
  - intros [|c1] [|c2] u1 u2 b; cbn; try done.
  - intros [|c] u b; cbn; [|done]. by intros [= <-].
Qed.

(** A handler that goes on past the test of line 363 has saved the
    context of the caller in its record. *)
Lemma sigvtalrm_handler_caller s s' :
  continues (sigvtalrm_handler s) = Some s' → ready_queue s ≠ [] →
  ∃ cur dc cc u, current s = Some cur ∧ threads s !! cur = Some dc
                 ∧ ucp dc = Some cc ∧ contexts s !! cc = Some (Some u).
Proof.
  unfold sigvtalrm_handler. mrun.
  destruct (ready_queue s) as [|next0 rq] eqn:Hrq; [done|].
  mrun. rewrite run_bind_case.
  destruct (skip_cancelled _ _ _) as [n s1|h s1] eqn:Hskip;
    [|by apply skip_cancelled_Stop in Hskip as [-> | ->]].
  apply skip_cancelled_Ok in Hskip
    as (pre & rest & Hsplit & Hpre & (d & Hd & Hst) & ->); [|reflexivity].
  mexec; try done.
  all: intros _ _;
    repeat match goal with
           | H : live _ _ = true |- _ =>
               apply live_inv in H as (? & ? & ? & ?)
           end; msimpl; simplify_eq; eexists _, _, _, _; conjs.
Qed.

(** The step both the handler and gtthread_yield take: the cancelled
    descriptors [pre] at the front of the ready queue go to the zombie
    queue, the caller, which has a context record, goes to the tail, and
    the descriptor [n] found behind [pre] becomes the current one. *)
Lemma consistent_requeue s cur cc pre n rest :
  consistent s → current s = Some cur → field ucp s cur = Some (Some cc) →
  ready_queue s = pre ++ n :: rest →
  Forall (fun p => field state s p = Some GTTHREAD_CANCEL) pre →
  consistent (with_current (Some n)
                (with_ready (rest ++ [cur])
                   (with_zombie (zombie_queue s ++ pre) s))).
Proof.
  intros Hs Hcur Hcc Hrq Hpre.
  pose proof (cons_nodup s Hs) as Hnd. pose proof (cons_valid s Hs) as Hval.
  unfold current_list in Hnd, Hval. rewrite Hcur, Hrq in Hnd, Hval.
  constructor; unfold current_list; msimpl.
  - lists. set_solver.
  - lists. naive_solver.
  - intros p [Hp|Hp%list_elem_of_singleton]%elem_of_app.
    + apply (cons_ready s Hs). rewrite Hrq. set_solver.
    + subst p. right. by exists cc.
  - intros p [Hp|Hp]%elem_of_app.
    + destruct (cons_zombie s Hs p Hp) as [Hu [H|[H|H]]]; auto.
      rewrite Hcur in H. injection H as <-. congruence.
    + rewrite Forall_forall in Hpre. specialize (Hpre p Hp).
      split; [exact (cancelled_no_context s p Hs Hpre)|left; exact Hpre].
  - apply (cons_context s Hs).
  - apply (cons_ctx s Hs).
  - apply (cons_stack s Hs).
  - apply (cons_stack_live s Hs).
Qed.

(** Every call keeps the state consistent.  The handler first. *)
Lemma sigvtalrm_handler_consistent s s' :
  consistent s → continues (sigvtalrm_handler s) = Some s' → consistent s'.
Proof.
  intros Hs Hrun. pose proof (sigvtalrm_handler_spec s) as H.
  destruct (decide (ready_queue s = [])) as [Hrq0|Hrq0].
  { rewrite sigvtalrm_handler_empty in Hrun by done. injection Hrun as <-.
    by apply consistent_blocked. }
  destruct (sigvtalrm_handler_caller s s' Hrun Hrq0)
    as (cur & dc & cc & u & Hcur & Hdc & Hcc & Hu).
  assert (∃ pre n rest d,
            ready_queue s = pre ++ n :: rest
            ∧ Forall (fun p => field state s p = Some GTTHREAD_CANCEL) pre
            ∧ threads s !! n = Some d ∧ state d ≠ GTTHREAD_CANCEL
            ∧ s' = with_blocked false
                     (with_current (Some n)
                        (with_threads (alter (set_state GTTHREAD_RUNNING) n)
                           (with_ready (rest ++ [cur])
                              (with_zombie (zombie_queue s ++ pre) s)))))
    as (pre & n & rest & d & Hrq & Hpre & Hd & Hst & ->).
  { destruct (sigvtalrm_handler s) as [[] s1|h s1]; cbn in Hrun.
    - injection Hrun as <-.
      destruct H as [[H _]|(pre & n & rest & cur' & Hrq & Hpre
                            & (d & Hd & Hst & _) & Hcur' & ->)]; [done|].
      rewrite Hcur in Hcur'. injection Hcur' as <-.
      by exists pre, n, rest, d.
    - destruct h; try done. injection Hrun as <-.
      destruct H as (pre & n & rest & cur' & Hrq & Hpre
                     & (d & c & Hd & Hst & _) & Hcur' & ->).
      rewrite Hcur in Hcur'. injection Hcur' as <-.
      by exists pre, n, rest, d. }
  destruct (ready_runnable s n d Hs) as [Hrun' _]; try done.
  { rewrite Hrq. set_solver. }
  eapply consistent_ext;
    [..|apply (consistent_requeue s cur cc pre n rest Hs Hcur); try done].
  all: try done.
  - intros p. unfold field. msimpl.
    destruct (decide (n = p)) as [->|Hne].
    + rewrite list_lookup_alter_eq, Hd. cbn. by rewrite Hrun'.
    + by rewrite list_lookup_alter_ne.
  - intros p. unfold field. msimpl. by rewrite lookup_alter_keep.
  - msimpl. by rewrite length_alter.
  - by rewrite (field_Some _ _ _ dc), Hcc.
Qed.

Lemma gtthread_yield_caller s s' :
  continues (gtthread_yield s) = Some s' → ready_queue s ≠ [] →
  ∃ cur dc cc u, current s = Some cur ∧ threads s !! cur = Some dc
                 ∧ ucp dc = Some cc ∧ contexts s !! cc = Some (Some u).
Proof.
  unfold gtthread_yield. mexec; try done.
  all: intros _ _;
    repeat match goal with
           | H : live _ _ = true |- _ =>
               apply live_inv in H as (? & ? & ? & ?)
           end; msimpl; simplify_eq; eexists _, _, _, _; conjs.
Qed.

Lemma gtthread_yield_consistent s s' :
  consistent s → continues (gtthread_yield s) = Some s' → consistent s'.
Proof.
  intros Hs Hrun. pose proof (gtthread_yield_spec s) as H.
  destruct (decide (ready_queue s = [])) as [Hrq0|Hrq0].
  { rewrite gtthread_yield_empty in Hrun by done. injection Hrun as <-.
    by apply consistent_blocked. }
  destruct (gtthread_yield_caller s s' Hrun Hrq0)
    as (cur & dc & cc & u & Hcur & Hdc & Hcc & Hu).
  assert (∃ next rq,
            ready_queue s = next :: rq
            ∧ s' = with_blocked false
                     (with_current (Some next) (with_ready (rq ++ [cur]) s)))
    as (next & rq & Hrq & ->).
  { destruct (gtthread_yield s) as [v s1|h s1]; cbn in Hrun.
    - injection Hrun as <-.
      destruct H as [_ [[H _]|(next & rq & cur' & dn & Hrq & Hcur' & _ & _ & ->)]];
        [done|].
      rewrite Hcur in Hcur'. injection Hcur' as <-. by exists next, rq.
    - destruct h; try done. injection Hrun as <-.
      destruct H as (next & rq & cur' & dn & cn & Hrq & Hcur' & _ & _ & ->).
      rewrite Hcur in Hcur'. injection Hcur' as <-. by exists next, rq. }
  eapply consistent_ext;
    [..|apply (consistent_requeue s cur cc [] next rq Hs Hcur); try done].
  all: try done.
  - msimpl. by rewrite app_nil_r.
  - by rewrite (field_Some _ _ _ dc), Hcc.
Qed.

(** The step of gtthread_cancel and of gtthread_exit: the descriptor [t]
    gives up its context record and its stack, becomes terminal and goes
    to the zombie queue. *)
Lemma consistent_release s s' t d cp u st :
  consistent s → threads s !! t = Some d → ucp d = Some cp →
  contexts s !! cp = Some (Some u) →
  st = GTTHREAD_CANCEL ∨ (st = GTTHREAD_DONE ∧ t ∉ ready_queue s) →
  (∀ q, field state s' q = if decide (q = t) then Some st else field state s q) →
  (∀ q, field ucp s' q = if decide (q = t) then Some None else field ucp s q) →
  length (threads s') = length (threads s) →
  contexts s' = <[cp := None]> (contexts s) →
  stacks s' = match ss_sp u with
              | Some b => <[b := false]> (stacks s)
              | None => stacks s
              end →
  ready_queue s' = ready_queue s → zombie_queue s' = zombie_queue s ++ [t] →
  current s' = current s →
  consistent s'.
Proof.
  intros Hs Hd Hcp Hu Hst Hstate Hucp Hlen Hctx Hstk Hrq Hzq Hcur.
  assert (field ucp s t = Some (Some cp)) as Ht
    by by rewrite (field_Some _ _ _ d), Hcp.
  assert (∀ c, c ≠ cp → contexts s' !! c = contexts s !! c) as Hother.
  { intros c Hc. rewrite Hctx. by apply list_lookup_insert_ne. }
  assert (contexts s' !! cp = Some None) as Hfreed.
  { rewrite Hctx. apply list_lookup_insert_eq. by apply lookup_lt_Some in Hu. }
  assert (∀ c u', contexts s' !! c = Some (Some u') →
                  c ≠ cp ∧ contexts s !! c = Some (Some u')) as Hlive.
  { intros c u' Hc. destruct (decide (c = cp)) as [->|Hne]; [congruence|].
    by rewrite Hother in Hc. }
  pose proof (cons_valid s Hs) as Hval.
  constructor; unfold current_list in *; rewrite ?Hlen, ?Hrq, ?Hzq, ?Hcur.
  - apply (cons_nodup s Hs).
  - rewrite !app_assoc, Forall_app. split; [by rewrite <- app_assoc|].
    repeat constructor. by apply lookup_lt_Some in Hd.
  - intros p Hp. rewrite Hstate, Hucp. case_decide as Hpt.
    + subst p. destruct Hst as [->|[_ Hst]]; [by left|done].
    + by apply (cons_ready s Hs).
  - intros p Hp. rewrite Hstate, Hucp. case_decide as Hpt.
    + split; [done|]. destruct Hst as [->|[-> _]]; auto.
    + apply elem_of_app in Hp as [Hp|Hp%list_elem_of_singleton]; [|done].
      by apply (cons_zombie s Hs).
  - intros p c. rewrite Hstate, Hucp. case_decide as Hpt; [done|].
    intros Hp. destruct (cons_context s Hs p c Hp) as [H1 [u' Hu']].
    split; [done|]. exists u'. rewrite Hother; [done|].
    intros ->. apply Hpt. by apply (cons_ctx s Hs p t cp).
  - intros p q c. rewrite !Hucp. repeat case_decide; try done.
    apply (cons_ctx s Hs).
  - intros c1 c2 u1 u2 b [_ H1]%Hlive [_ H2]%Hlive.
    by apply (cons_stack s Hs).
  - intros c u' b [Hne Hc]%Hlive Hb.
    pose proof (cons_stack_live s Hs c u' b Hc Hb) as Hlv.
    rewrite Hstk. destruct (ss_sp u) as [b0|] eqn:Hb0; [|done].
    rewrite list_lookup_insert_ne; [done|]. intros ->.
    apply Hne. by apply (cons_stack s Hs c cp u' u b).
Qed.

(** The step of lines 228-230: the head of the ready queue becomes the
    current descriptor, RUNNING, and the caller, which has a context
    record, is in no queue for a moment. *)
Lemma consistent_pop s prev cp next rq :
  consistent s → current s = Some prev → field ucp s prev = Some (Some cp) →
  ready_queue s = next :: rq →
  consistent (with_current (Some next)
                (with_ready rq
                   (with_threads (alter (set_state GTTHREAD_RUNNING) next) s))).
Proof.
  intros Hs Hcur Hcp Hrq.
  pose proof (cons_nodup s Hs) as Hnd. pose proof (cons_valid s Hs) as Hval.
  unfold current_list in Hnd, Hval. rewrite Hcur, Hrq in Hnd, Hval.
  assert (∀ q, field ucp (with_threads (alter (set_state GTTHREAD_RUNNING) next) s) q
               = field ucp s q) as Hucp.
  { intros q. by apply field_alter_keep. }
  assert (∀ q, q ≠ next →
               field state (with_threads (alter (set_state GTTHREAD_RUNNING) next) s) q
               = field state s q) as Hstate.
  { intros q Hq. unfold field. msimpl. by rewrite list_lookup_alter_ne. }
  assert (field state (with_threads (alter (set_state GTTHREAD_RUNNING) next) s) next
          = Some GTTHREAD_RUNNING) as Hnext.
  { unfold field. msimpl. rewrite list_lookup_alter_eq.
    destruct (threads s !! next) as [dn|] eqn:Hdn; [done|].
    apply lookup_ge_None in Hdn. lists. lia. }
  constructor; unfold current_list; msimpl.
  - lists. set_solver.
  - rewrite length_alter. lists. naive_solver.
  - intros p Hp. change (field ?f (with_current _ (with_ready _ ?s0)) p)
      with (field f s0 p). rewrite Hucp, Hstate.
    + apply (cons_ready s Hs). rewrite Hrq. set_solver.
    + intros ->. lists. set_solver.
  - intros p Hp. change (field ?f (with_current _ (with_ready _ ?s0)) p)
      with (field f s0 p). rewrite Hucp.
    destruct (cons_zombie s Hs p Hp) as [Hu Hcase]. split; [done|].
    destruct (decide (p = next)) as [->|Hne]; [auto|].
    rewrite Hstate by done. destruct Hcase as [H|[H|H]]; auto.
    rewrite Hcur in H. injection H as <-. congruence.
  - intros p c. change (field ?f (with_current _ (with_ready _ ?s0)) p)
      with (field f s0 p). rewrite Hucp. intros Hp.
    destruct (cons_context s Hs p c Hp) as [H1 H2]. split; [|done].
    destruct (decide (p = next)) as [->|Hne]; [done|]. by rewrite Hstate.
  - intros p q c. change (field ?f (with_current _ (with_ready _ ?s0)) ?x)
      with (field f s0 x). rewrite !Hucp. apply (cons_ctx s Hs).
  - apply (cons_stack s Hs).
  - apply (cons_stack_live s Hs).
Qed.

Lemma exit_switch_consistent rv s s' :
  consistent s → continues (exit_switch rv s) = Some s' → consistent s'.
Proof.
  intros Hs Hrun.
  assert (∃ prev next rq dp cp u,
            current s = Some prev ∧ ready_queue s = next :: rq
            ∧ threads s !! prev = Some dp
            ∧ ucp dp = Some cp ∧ contexts s !! cp = Some (Some u)
            ∧ threads s' =
                alter (set_joining 0) prev
                  (alter (set_retval rv) prev
                     (alter (set_state GTTHREAD_DONE) prev
                        (alter (set_ucp None) prev
                           (alter (set_state GTTHREAD_RUNNING) next (threads s)))))
            ∧ contexts s' = <[cp := None]> (contexts s)
            ∧ stacks s' = match ss_sp u with
                          | Some b => <[b := false]> (stacks s)
                          | None => stacks s
                          end
            ∧ ready_queue s' = rq ∧ zombie_queue s' = zombie_queue s ++ [prev]
            ∧ current s' = Some next)
    as (prev & next & rq & dp & cp & u & Hcur & Hrq & Hdp & Hcp & Hu & Hth
        & Hctx & Hstk & Hrq' & Hzq' & Hcur').
  { pose proof (exit_switch_spec rv s) as H.
    destruct (exit_switch rv s) as [[] s1|h s1]; cbn in Hrun.
    - injection Hrun as <-.
      destruct H as (prev & next & rq & dp & dn & cp & u & ? & ? & _ & ? & _
                     & ? & ? & ? & ? & ? & ? & ? & ? & _).
      by exists prev, next, rq, dp, cp, u.
    - destruct h; try done. injection Hrun as <-.
      destruct H as (prev & next & rq & dp & dn & cp & cn & u & ? & ? & _ & ?
                     & _ & ? & ? & _ & ? & ? & ? & ? & ? & ? & _).
      by exists prev, next, rq, dp, cp, u. }
  pose proof (cons_nodup s Hs) as Hnd. unfold current_list in Hnd.
  rewrite Hcur, Hrq in Hnd. lists.
  assert (prev ≠ next) as Hne by set_solver.
  assert (field ucp s prev = Some (Some cp)) as Hprev
    by by rewrite (field_Some _ _ _ dp), Hcp.
  pose proof (consistent_pop s prev cp next rq Hs Hcur Hprev Hrq) as Hs1.
  eapply (consistent_release _ s' prev dp cp u GTTHREAD_DONE Hs1); msimpl;
    try done.
  - by rewrite list_lookup_alter_ne.
  - right. split; [done|]. set_solver.
  - intros q. unfold field. rewrite Hth. msimpl. case_decide as Hq.
    + subst q. by rewrite !list_lookup_alter_eq, list_lookup_alter_ne, Hdp.
    + by rewrite !(list_lookup_alter_ne _ _ prev).
  - intros q. unfold field. rewrite Hth. msimpl. case_decide as Hq.
    + subst q. by rewrite !list_lookup_alter_eq, list_lookup_alter_ne, Hdp.
    + by rewrite !(list_lookup_alter_ne _ _ prev).
  - by rewrite Hth, !length_alter.
Qed.

Lemma gtthread_create_consistent junk rc thread start_routine arg s v s' :
  consistent s →
  gtthread_create junk rc thread start_routine arg s = Ok v s' →
  consistent s'.
Proof.
  intros Hs Hrun.
  pose proof (gtthread_create_spec junk rc thread start_routine arg s) as H.
  rewrite Hrun in H.
  destruct H as (_ & _ & _ & Hth & Hctx & Hstk & Hrq & Hzq & Hcur & _).
  pose proof (cons_nodup s Hs) as Hnd. pose proof (cons_valid s Hs) as Hval.
  assert (∀ {A} (f : thread_t → A) p, (p < length (threads s))%nat →
            field f s' p = field f s p) as Hold.
  { intros A f p Hp. unfold field. by rewrite Hth, lookup_app_l. }
  assert (∀ {A} (f : thread_t → A) p x, field f s' p = Some x →
            (p < length (threads s))%nat ∨ p = length (threads s)) as Hcases.
  { intros A f p x Hp. apply field_lt in Hp. rewrite Hth, length_app in Hp.
    cbn in Hp. lia. }
  assert (field ucp s' (length (threads s)) = Some (Some (length (contexts s))))
    as Hnew by (unfold field; by rewrite Hth, lookup_snoc).
  assert (∀ p c, field ucp s p = Some (Some c) → (c < length (contexts s))%nat)
    as Hclt.
  { intros p c Hp. destruct (cons_context s Hs p c Hp) as [_ [u Hu]].
    by apply lookup_lt_Some in Hu. }
  assert (∀ c u b, contexts s !! c = Some (Some u) → ss_sp u = Some b →
                   (b < length (stacks s))%nat) as Hblt.
  { intros c u b Hc Hb. pose proof (cons_stack_live s Hs c u b Hc Hb) as H.
    by apply lookup_lt_Some in H. }
  assert (∀ c u, contexts s' !! c = Some (Some u) →
            contexts s !! c = Some (Some u)
            ∨ (c = length (contexts s) ∧ ss_sp u = Some (length (stacks s))))
    as Hcc.
  { intros c u Hc. rewrite Hctx in Hc.
    destruct (decide (c < length (contexts s))%nat).
    - left. by rewrite lookup_app_l in Hc.
    - right. rewrite lookup_app_r in Hc by lia.
      destruct (c - length (contexts s))%nat as [|k] eqn:Hk; [|done].
      injection Hc as <-. split; [lia|done]. }
  assert (∀ p, p ∈ current_list s ++ ready_queue s ++ zombie_queue s →
               (p < length (threads s))%nat) as Hlt.
  { intros p Hp. rewrite Forall_forall in Hval. by apply Hval. }
  constructor; unfold current_list in *; rewrite ?Hrq, ?Hzq, ?Hcur.
  - rewrite app_assoc. apply NoDup_app. split; [done|]. split.
    + intros p Hp [<-|[]]%list_elem_of_In.
      specialize (Hlt (length (threads s))). rewrite !elem_of_app in Hlt.
      rewrite elem_of_app in Hp. specialize (Hlt ltac:(tauto)). lia.
    + apply NoDup_singleton.
  - rewrite Hth, length_app. cbn. rewrite Forall_forall. intros q Hq.
    rewrite !elem_of_app, list_elem_of_singleton in Hq.
    destruct (decide (q = length (threads s))) as [->|Hne]; [lia|].
    specialize (Hlt q). rewrite !elem_of_app in Hlt.
    specialize (Hlt ltac:(tauto)). lia.
  - intros p [Hp|Hp%list_elem_of_singleton]%elem_of_app.
    + rewrite !Hold by (apply Hlt; set_solver). by apply (cons_ready s Hs).
    + subst p. right. by eexists.
  - intros p Hp. rewrite !Hold by (apply Hlt; set_solver).
    by apply (cons_zombie s Hs).
  - intros p c Hp. destruct (Hcases _ _ _ _ Hp) as [Hlt'| ->].
    + rewrite Hold in Hp |- * by done.
      destruct (cons_context s Hs p c Hp) as [H1 [u Hu]]. split; [done|].
      exists u. rewrite Hctx. by apply lookup_app_l_Some.
    + rewrite Hnew in Hp. injection Hp as <-. split.
      * unfold field. by rewrite Hth, lookup_snoc.
      * eexists. by rewrite Hctx, lookup_snoc.
  - intros p q c Hp Hq.
    destruct (Hcases _ _ _ _ Hp) as [Hp'| ->],
             (Hcases _ _ _ _ Hq) as [Hq'| ->]; try done.
    + rewrite Hold in Hp, Hq by done. by apply (cons_ctx s Hs p q c).
    + rewrite Hold in Hp by done. rewrite Hnew in Hq. injection Hq as <-.
      apply Hclt in Hp. lia.
    + rewrite Hold in Hq by done. rewrite Hnew in Hp. injection Hp as <-.
      apply Hclt in Hq. lia.
  - intros c1 c2 u1 u2 b H1 H2 Hb1 Hb2.
    destruct (Hcc _ _ H1) as [H1'|[-> Hn1]], (Hcc _ _ H2) as [H2'|[-> Hn2]];
      try done.
    + by apply (cons_stack s Hs c1 c2 u1 u2 b).
    + rewrite Hn2 in Hb2. injection Hb2 as <-.
      pose proof (Hblt _ _ _ H1' Hb1). lia.
    + rewrite Hn1 in Hb1. injection Hb1 as <-.
      pose proof (Hblt _ _ _ H2' Hb2). lia.
  - intros c u b Hc Hb. destruct (Hcc _ _ Hc) as [Hc'|[-> Hn]].
    + rewrite Hstk. apply lookup_app_l_Some.
      by apply (cons_stack_live s Hs c u b).
    + rewrite Hn in Hb. injection Hb as <-. by rewrite Hstk, lookup_snoc.
Qed.

Lemma cancel_target_consistent thread s v s' :
  consistent s → cancel_target thread s = Ok v s' → consistent s'.
Proof.
  intros Hs Hrun.
  pose proof (cancel_target_spec thread s) as H. rewrite Hrun in H.
  destruct H as [(-> & -> & _)|Hok].
  { by apply consistent_blocked. }
  destruct Hok as (-> & t & d & cp & u & Ht & Hd & Hst & Hcp & Hu & Hth & Hctx
                   & Hstk & Hrq & Hzq & Hcur' & _).
  eapply (consistent_release s s' t d cp u GTTHREAD_CANCEL Hs); try done.
  - by left.
  - intros q. unfold field. rewrite Hth. case_decide as Hq.
    + subst q. by rewrite !list_lookup_alter_eq, Hd.
    + by rewrite !(list_lookup_alter_ne _ _ t).
  - intros q. unfold field. rewrite Hth. case_decide as Hq.
    + subst q. by rewrite !list_lookup_alter_eq, Hd.
    + by rewrite !(list_lookup_alter_ne _ _ t).
  - by rewrite Hth, !length_alter.
Qed.

Lemma exit_drain_consistent fuel : ∀ rv s s',
  consistent s → continues (exit_drain fuel rv s) = Some s' → consistent s'.
Proof.
  induction fuel as [|fuel IH]; intros rv s s' Hs.
  all: destruct (decide (ready_queue s = [])) as [Hrq|Hrq].
  all: try by rewrite exit_drain_empty.
  - cbn [exit_drain]. rewrite run_steque_isempty. msimpl.
    by destruct (ready_queue s).
  - rewrite exit_drain_turn by done.
    destruct (sigvtalrm_handler (with_blocked false s)) as [[] s1|h s1] eqn:Hh.
    + apply IH. apply consistent_blocked.
      apply (sigvtalrm_handler_consistent (with_blocked false s));
        [by apply consistent_blocked|by rewrite Hh].
    + intros Hc. apply (sigvtalrm_handler_consistent (with_blocked false s));
        [by apply consistent_blocked|by rewrite Hh].
Qed.

Lemma gtthread_exit_consistent fuel rv s s' :
  consistent s → continues (gtthread_exit fuel rv s) = Some s' → consistent s'.
Proof.
  intros Hs. rewrite gtthread_exit_unfold.
  destruct (ready_queue s); [done|]. destruct (current s) as [cur|]; [|done].
  destruct (threads s !! cur) as [c|]; [|done].
  destruct (tid c =? 1).
  - apply exit_drain_consistent. by apply consistent_blocked.
  - apply exit_switch_consistent. by apply consistent_blocked.
Qed.

Lemma join_wait_consistent fuel : ∀ t status s s',
  consistent s → continues (join_wait fuel t status s) = Some s' →
  consistent s'.
Proof.
  induction fuel as [|fuel IH]; intros t status s s' Hs Hrun.
  all: match type of Hrun with
       | context [join_wait ?f _ _ _] =>
           pose proof (join_wait_spec f t status s) as Hspec;
           destruct (join_wait f t status s) as [v s1|h s1] eqn:Hw;
           cbn in Hrun
       end.
  all: try (injection Hrun as <-; destruct Hspec as (_ & d & _ & _ & ->);
            by apply consistent_deliver).
  all: destruct h; try done; injection Hrun as <-.
  all: destruct (field_inv _ _ _ _ Hspec) as (d & Hd & Hst).
  - cbn [join_wait] in Hw. by rewrite run_deref, Hd, Hst in Hw.
  - rewrite (join_wait_running fuel t status s d Hd Hst) in Hw.
    destruct (sigvtalrm_handler (with_blocked false s)) as [[] s2|h s2] eqn:Hh.
    + apply (IH t status (with_blocked true s2)); [|by rewrite Hw].
      apply consistent_blocked.
      apply (sigvtalrm_handler_consistent (with_blocked false s));
        [by apply consistent_blocked|by rewrite Hh].
    + injection Hw as -> ->.
      apply (sigvtalrm_handler_consistent (with_blocked false s));
        [by apply consistent_blocked|by rewrite Hh].
Qed.

Lemma gtthread_join_consistent fuel thread status s s' :
  consistent s → continues (gtthread_join fuel thread status s) = Some s' →
  consistent s'.
Proof.
  intros Hs. unfold gtthread_join. rewrite run_get_current.
  destruct (current s) as [cur|]; [|done].
  rewrite run_deref. destruct (threads s !! cur) as [c|]; [|done].
  destruct (thread =? tid c); [by intros [= <-]|].
  rewrite run_bind_case. pose proof (thread_get_spec thread s) as Hget.
  destruct (thread_get thread s) as [r s1|h s1]; destruct Hget as [-> ->];
    [|done].
  destruct (target_of s thread) as [t|]; [|by intros [= <-]].
  rewrite run_deref. destruct (threads s !! t) as [d|]; [|done].
  destruct (joining d =? tid c); [by intros [= <-]|].
  rewrite run_store. destruct (threads s !! cur); [|done].
  apply join_wait_consistent. by apply consistent_alter.
Qed.

Lemma gtthread_cancel_consistent fuel thread s s' :
  consistent s → continues (gtthread_cancel fuel thread s) = Some s' →
  consistent s'.
Proof.
  intros Hs Hrun.
  destruct (current s) as [cur|] eqn:Hcur.
  2: { unfold gtthread_cancel in Hrun. by rewrite run_get_current, Hcur in Hrun. }
  destruct (threads s !! cur) as [c|] eqn:Hc.
  2: { unfold gtthread_cancel in Hrun.
       by rewrite run_get_current, Hcur, run_deref, Hc in Hrun. }
  assert (∀ s0, consistent s0 →
            continues (cancel_target thread s0) = Some s' → consistent s')
    as Htarget.
  { intros s0 Hs0 H. pose proof (cancel_target_spec thread s0) as Hspec.
    destruct (cancel_target thread s0) as [v s1|h s1] eqn:Ht; cbn in H.
    - injection H as <-. by eapply cancel_target_consistent.
    - by subst h. }
  destruct (decide (tid c = thread)) as [Hself|Hother].
  - rewrite (gtthread_cancel_self fuel thread s cur c) in Hrun by done.
    destruct (gtthread_exit fuel 0 s) as [[] s0|h s0] eqn:Hexit.
    + apply (Htarget s0); [|done].
      apply (gtthread_exit_consistent fuel 0 s); [done|by rewrite Hexit].
    + apply (gtthread_exit_consistent fuel 0 s); [done|by rewrite Hexit].
  - rewrite (gtthread_cancel_other fuel thread s cur c) in Hrun by done.
    by apply (Htarget s).
Qed.

Lemma continues_erase {A} (r : result A) : continues (erase r) = continues r.
Proof. by destruct r. Qed.

Lemma continues_start_returns r s' :
  continues (start_returns r) = Some s' →
  continues r = Some s' ∧ ∃ h, r = Stop h s'.
Proof.
  destruct r as [[] s|h s]; [done|]. cbn. intros H. split; [done|].
  exists h. destruct h; try done; by injection H as ->.
Qed.

(** Every call keeps the state consistent. *)
Lemma perform_consistent c s s' :
  consistent s → perform c s = Some s' → consistent s'.
Proof.
  intros Hs. unfold perform.
  destruct c as [junk rc thread sr a|fuel thread status|fuel t status
                |fuel rv|fuel rv| |fuel thread| | |fuel v| ]; cbn [run_call];
    rewrite ?continues_erase.
  - destruct (gtthread_create _ _ _ _ _ _) as [v s1|h s1] eqn:Hrun; cbn.
    + intros [= <-]. by eapply gtthread_create_consistent.
    + pose proof (gtthread_create_spec junk rc thread sr a s) as Hspec.
      rewrite Hrun in Hspec. by destruct h.
  - by apply gtthread_join_consistent.
  - unfold gtthread_join_resume. rewrite run_sigprocmask.
    apply join_wait_consistent. by apply consistent_blocked.
  - by apply gtthread_exit_consistent.
  - unfold gtthread_exit_resume. rewrite run_sigprocmask.
    apply exit_drain_consistent. by apply consistent_blocked.
  - by apply gtthread_yield_consistent.
  - by apply gtthread_cancel_consistent.
  - unfold gtthread_self. rewrite run_get_current.
    destruct (current s) as [cur|]; [|done]. rewrite run_deref.
    destruct (threads s !! cur); [|done]. by intros [= <-].
  - cbn. intros [= <-]. by apply consistent_blocked.
  - intros [Hrun _]%continues_start_returns. revert Hrun.
    unfold gtthread_start_return. rewrite run_get_current.
    destruct (current s) as [cur|]; [|done]. rewrite run_store.
    destruct (threads s !! cur); [|done]. rewrite run_deref.
    destruct (threads _ !! cur) as [c|]; [|done].
    apply gtthread_exit_consistent. by apply consistent_alter.
  - by apply sigvtalrm_handler_consistent.
Qed.

Lemma reachable_consistent s : reachable s → consistent s.
Proof.
  induction 1 as [blocked mem junk rg rt rs period s Hinit|c s s' _ IH _ Hrun].
  - by eapply started_consistent.
  - by eapply perform_consistent.
Qed.

Lemma consistent_apart s : consistent s → ready_apart s.
Proof.
  intros Hs. pose proof (cons_nodup s Hs) as Hnd. unfold current_list in Hnd.
  split.
  - intros p Hcur. rewrite Hcur in Hnd. lists. set_solver.
  - apply NoDup_app in Hnd. tauto.
Qed.

(** * Cancel and the queues *)






(** * Identities *)

#[global] Instance tids_frame : Frame tids_kept ok_tid.
Proof.
  split.
  - by split.
  - intros s1 s2 s3 [H1 H1'] [H2 H2']. split; congruence.
  - intros s s' Ht Hm. split; [done|by rewrite Ht].
  - intros p g s Hg. split; [done|]. msimpl. by apply fmap_alter_same.
  - intros p x d. by destruct d.
Qed.

Lemma keeps_gtthread_exit fuel rv : keeps tids_kept (gtthread_exit fuel rv).
Proof. unfold gtthread_exit, exit_switch, exit. frame. Qed.

Lemma keeps_gtthread_join fuel thread status :
  keeps tids_kept (gtthread_join fuel thread status).
Proof. unfold gtthread_join, gtthread_equal. frame. Qed.

Lemma keeps_gtthread_cancel fuel thread :
  keeps tids_kept (gtthread_cancel fuel thread).
Proof.
  pose proof (keeps_gtthread_exit fuel 0).
  unfold gtthread_cancel, cancel_target, gtthread_equal. frame.
Qed.

Lemma keeps_gtthread_start_return fuel v :
  keeps tids_kept (gtthread_start_return fuel v).
Proof.
  pose proof (keeps_gtthread_exit fuel).
  unfold gtthread_start_return. frame.
Qed.

(** Every call but gtthread_create leaves identities and counter alone. *)
Lemma run_call_tids c s :
  match c with
  | Create _ _ _ _ _ => True
  | _ => tids_kept s (final (run_call c s))
  end.
Proof.
  destruct c; cbn [run_call]; rewrite ?final_erase, ?final_start_returns;
    [done|..].
  - apply keeps_gtthread_join.
  - apply keeps_gtthread_join_resume.
  - apply keeps_gtthread_exit.
  - apply keeps_gtthread_exit_resume.
  - apply keeps_gtthread_yield.
  - apply keeps_gtthread_cancel.
  - apply keeps_gtthread_self.
  - apply (keeps_sigprocmask SIG_UNBLOCK).
  - apply keeps_gtthread_start_return.
  - apply keeps_sigvtalrm_handler.
Qed.

Lemma continues_final {A} (r : result A) s : continues r = Some s → final r = s.
Proof. destruct r as [a s1|[] s1]; cbn; congruence. Qed.

Lemma perform_Create junk rc thread start_routine arg s s' :
  perform (Create junk rc thread start_routine arg) s = Some s' →
  gtthread_create junk rc thread start_routine arg s = Ok 0 s'.
Proof.
  unfold perform. cbn [run_call].
  pose proof (gtthread_create_spec junk rc thread start_routine arg s) as H.
  destruct (gtthread_create _ _ _ _ _ _) as [v s1|h s1]; cbn.
  - destruct H as (-> & _). by intros [= ->].
  - by destruct h.
Qed.

(** A descriptor keeps the identity it was given. *)
Lemma perform_tids c s s' :
  perform c s = Some s' → tid <$> threads s `prefix_of` tid <$> threads s'.
Proof.
  intros Hrun. pose proof (run_call_tids c s) as H.
  destruct c as [junk rc thread sr a|fuel thread status|fuel t status
                |fuel rv|fuel rv| |fuel thread| | |fuel v| ];
    try (apply continues_final in Hrun; rewrite Hrun in H;
         destruct H as [_ ->]; done).
  apply perform_Create in Hrun.
  pose proof (gtthread_create_spec junk rc thread sr a s) as Hs.
  rewrite Hrun in Hs. destruct Hs as (_ & _ & _ & -> & _).
  rewrite fmap_app. by apply prefix_app_r.
Qed.

(** gtthread_init in a fresh process. *)
Lemma gtthread_init_boot blocked mem junk rg rt rs period s :
  continues (gtthread_init junk rg rt rs period (boot blocked mem)) = Some s →
  threads s = [mk_thread 1 0 GTTHREAD_RUNNING (proc junk) 0 (retval junk) (Some 0%nat)]
  ∧ current s = Some 0%nat ∧ maxtid s = 2.
Proof.
  destruct (Z.eq_dec rg (-1)) as [->|Hg].
  { unfold gtthread_init. mexec; try (done || lia). }
  destruct (Z.ltb_spec rt 0).
  { unfold gtthread_init. mexec; try (done || lia). }
  destruct (Z.ltb_spec rs 0).
  { unfold gtthread_init. mexec; try (done || lia). }
  rewrite gtthread_init_run by lia. cbn. by intros [= <-].
Qed.

(** The relation [tids_monotone]. *)
Lemma tids_monotone_below s p i :
  tids_monotone s → field tid s p = Some i → 0 < i < maxtid s.
Proof.
  unfold tids_monotone, field. rewrite <- list_lookup_fmap.
  intros Hs Hp. apply list_elem_of_lookup_2 in Hp.
  apply StronglySorted_cons in Hs as [H0 Hs].
  rewrite Forall_app, Forall_forall in H0. destruct H0 as [H0 _].
  split; [by apply H0|].
  eapply StronglySorted_app_1_elem_of; [exact Hs|done|]. by left.
Qed.

Lemma tids_monotone_counter s : tids_monotone s → 0 < maxtid s.
Proof.
  unfold tids_monotone. intros Hs.
  apply StronglySorted_cons in Hs as [H0 _].
  rewrite Forall_app, Forall_singleton in H0. tauto.
Qed.

Lemma tids_monotone_kept s s' : tids_kept s s' → tids_monotone s → tids_monotone s'.
Proof. unfold tids_monotone. by intros [-> ->]. Qed.

Lemma tids_monotone_create junk rc thread start_routine arg s s' :
  tids_monotone s → maxtid s + 1 < gtthread_t_modulus →
  gtthread_create junk rc thread start_routine arg s = Ok 0 s' →
  tids_monotone s' ∧ maxtid s' = maxtid s + 1.
Proof.
  intros Hs Hlt Hrun.
  pose proof (tids_monotone_counter s Hs) as Hpos.
  pose proof (gtthread_create_spec junk rc thread start_routine arg s) as H.
  rewrite Hrun in H.
  destruct H as (_ & _ & _ & Hth & _ & _ & _ & _ & _ & Hmax & _).
  assert (maxtid s' = maxtid s + 1) as Hm.
  { rewrite Hmax. unfold tid_succ. apply Z.mod_small. lia. }
  split; [|done]. unfold tids_monotone in *. rewrite Hth, Hm, fmap_app. cbn.
  rewrite <- app_assoc, app_comm_cons.
  change ([maxtid s] ++ [maxtid s + 1]) with ([maxtid s; maxtid s + 1]).
  apply StronglySorted_cons in Hs as [H0 Hs].
  apply StronglySorted_app in Hs as (Hlast & Hl & _).
  rewrite Forall_app, Forall_singleton in H0.
  apply StronglySorted_app; split_and!.
  - intros x1 x2 H1 H2. apply elem_of_cons in H2 as [->|H2].
    + apply elem_of_cons in H1 as [->|H1]; [lia|].
      apply Hlast; [done|by left].
    + apply list_elem_of_singleton in H2 as ->.
      apply elem_of_cons in H1 as [->|H1]; [lia|].
      assert (x1 < maxtid s) by (apply Hlast; [done|by left]). lia.
  - apply StronglySorted_cons; tauto.
  - repeat constructor. lia.
Qed.

Lemma perform_monotone c s s' :
  tids_monotone s → in_range c s → perform c s = Some s' → tids_monotone s'.
Proof.
  intros Hs Hr Hrun. pose proof (run_call_tids c s) as H.
  destruct c;
    try (apply continues_final in Hrun; rewrite Hrun in H;
         by eapply tids_monotone_kept).
  apply perform_Create in Hrun. cbn in Hr.
  by eapply tids_monotone_create.
Qed.

Lemma reachable_monotone s : reachable s → tids_monotone s.
Proof.
  induction 1 as [blocked mem junk rg rt rs period s Hinit|c s s' _ IH Hr Hrun].
  - apply gtthread_init_boot in Hinit as (Hth & _ & Hm).
    unfold tids_monotone. rewrite Hth, Hm. cbn.
    repeat constructor; lia.
  - by eapply perform_monotone.
Qed.

(** C9. Identities grow strictly and are never given twice.
    [gtthread_init] gives the initial thread identity 1.  In every state
    that a run of the library reaches, the sentinel 0, the identities of
    the descriptors in the order of their allocation and the counter
    grow strictly, and no call changes the identity of a descriptor.  A
    call of [gtthread_create] with the counter below the largest value
    of [gtthread_t], with getcontext succeeding and a destination that is
    not NULL, returns 0; the descriptor it allocates has the value of the
    counter as its identity, which is larger than every identity given
    before; that identity is written to the destination; the descriptor
    is RUNNING and at the tail of the ready queue; the descriptors
    allocated before are as they were, and the counter has grown. *)
Theorem gtthread_create_fresh_identity :
  (∀ blocked mem junk rg rt rs period s,
     continues (gtthread_init junk rg rt rs period (boot blocked mem)) = Some s →
     ∃ p, current s = Some p ∧ field tid s p = Some 1
          ∧ tid <$> threads s = [1])
  ∧ (∀ s, reachable s → tids_monotone s)
  ∧ (∀ c s s', perform c s = Some s' →
       tid <$> threads s `prefix_of` tid <$> threads s')
  ∧ (∀ junk rc thread start_routine arg s,
       reachable s → maxtid s + 1 < gtthread_t_modulus →
       rc ≠ -1 → thread ≠ 0 →
       ∃ s', gtthread_create junk rc thread start_routine arg s = Ok 0 s'
         ∧ (∀ p i, field tid s p = Some i → i < maxtid s)
         ∧ field tid s' (length (threads s)) = Some (maxtid s)
         ∧ field state s' (length (threads s)) = Some GTTHREAD_RUNNING
         ∧ user_mem s' !! thread = Some (maxtid s)
         ∧ ready_queue s' = ready_queue s ++ [length (threads s)]
         ∧ (∀ p, (p < length (threads s))%nat → threads s' !! p = threads s !! p)
         ∧ maxtid s < maxtid s').
Proof.
  split_and!.
  - intros blocked mem junk rg rt rs period s Hinit.
    apply gtthread_init_boot in Hinit as (Hth & Hcur & _).
    exists 0%nat. unfold field. by rewrite Hth.
  - apply reachable_monotone.
  - apply perform_tids.
  - intros junk rc thread start_routine arg s Hs Hlt Hrc Hthread.
    apply reachable_monotone in Hs.
    destruct (gtthread_create_run junk rc thread start_routine arg s)
      as [s' Hrun]; [done..|].
    exists s'. split; [done|].
    destruct (tids_monotone_create _ _ _ _ _ _ _ Hs Hlt Hrun) as [_ Hm].
    pose proof (gtthread_create_spec junk rc thread start_routine arg s) as H.
    rewrite Hrun in H.
    destruct H as (_ & _ & _ & Hth & _ & _ & Hrq & _ & _ & _ & Hmem & _).
    unfold field. rewrite Hth, Hrq, Hmem, Hm. split_and!.
    + intros p i Hp. by eapply tids_monotone_below.
    + by rewrite lookup_snoc.
    + by rewrite lookup_snoc.
    + apply lookup_insert_eq.
    + done.
    + intros p Hp. by apply lookup_app_l.
    + lia.
Qed.

Lemma gtthread_create_fresh_identity_witness :
  ∃ s', gtthread_create junk0 0 100 7 41 started = Ok 0 s'
        ∧ field tid s' (length (threads started)) = Some (maxtid started)
        ∧ user_mem s' !! 100 = Some (maxtid started).
Proof.
  destruct gtthread_create_fresh_identity as (_ & _ & _ & H).
  destruct (H junk0 0 100 7 41 started) as (s' & Hrun & _ & Htid & _ & Hmem & _).
  - apply reachable_started.
  - vm_compute. reflexivity.
  - done.
  - done.
  - exists s'. split_and!; assumption.
Defined.

(** * What every call keeps of the set-up *)

Lemma setup_kept_refl s : setup_kept s s.
Proof. split; auto. Qed.

Lemma setup_kept_trans s1 s2 s3 :
  setup_kept s1 s2 → setup_kept s2 s3 → setup_kept s1 s3.
Proof.
  intros (Hc1 & Ht1 & Hh1) (Hc2 & Ht2 & Hh2).
  split; [|split; congruence].
  destruct Hc2 as [Hc2|]; [|by right]. rewrite Hc2. exact Hc1.
Qed.

(** A statement that writes none of the three. *)
Lemma setup_rest {A} (m : M A) :
  (∀ s, current (final (m s)) = current s
        ∧ timer (final (m s)) = timer s
        ∧ handler_installed (final (m s)) = handler_installed s) →
  keeps setup_kept m.
Proof. intros H s. destruct (H s) as (? & ? & ?). split; auto. Qed.

Lemma setup_bind {A B} (m : M A) (k : A → M B) :
  keeps setup_kept m → (∀ a, keeps setup_kept (k a)) →
  keeps setup_kept (bind m k).
Proof.
  intros Hm Hk s. unfold bind. specialize (Hm s).
  destruct (m s) as [a s1|h s1]; cbn in *; [|done].
  eapply setup_kept_trans; [exact Hm|apply Hk].
Qed.

Lemma setup_ret {A} (a : A) : keeps setup_kept (ret a).
Proof. by apply setup_rest. Qed.

Lemma setup_stop {A} h : keeps setup_kept (@stop A h).
Proof. by apply setup_rest. Qed.

Lemma setup_gets {A} (f : sched → A) : keeps setup_kept (gets f).
Proof. by apply setup_rest. Qed.

Lemma setup_sigprocmask how : keeps setup_kept (sigprocmask how).
Proof. by apply setup_rest. Qed.

Lemma setup_steque_enqueue q item : keeps setup_kept (steque_enqueue q item).
Proof. apply setup_rest. intros s. by destruct q. Qed.

Lemma setup_steque_isempty q : keeps setup_kept (steque_isempty q).
Proof. by apply setup_rest. Qed.

Lemma setup_steque_pop q : keeps setup_kept (steque_pop q).
Proof.
  apply setup_rest. intros s. unfold steque_pop. rewrite run_gets.
  by destruct q, (queue_of _ s).
Qed.

Lemma setup_with_ready l : keeps setup_kept (modify (with_queue Ready l)).
Proof. by apply setup_rest. Qed.

Lemma setup_deref p : keeps setup_kept (deref p).
Proof. apply setup_rest. intros s. unfold deref. by destruct (threads s !! p). Qed.

Lemma setup_store p g : keeps setup_kept (store p g).
Proof.
  unfold store. apply setup_bind; [apply setup_deref|]. intros _.
  by apply setup_rest.
Qed.

Lemma setup_get_current : keeps setup_kept get_current.
Proof.
  apply setup_rest. intros s. unfold get_current.
  by destruct (current s) eqn:E.
Qed.

Lemma setup_set_current p : keeps setup_kept (modify (with_current (Some p))).
Proof. intros s. split; [right; by eexists|done]. Qed.

Lemma setup_with_maxtid m : keeps setup_kept (modify (with_maxtid m)).
Proof. by apply setup_rest. Qed.

Lemma setup_load_context p : keeps setup_kept (load_context p).
Proof.
  apply setup_rest. intros s. unfold load_context.
  destruct p as [c|]; [|done]. by destruct (contexts s !! c) as [[]|].
Qed.

Lemma setup_store_context p f : keeps setup_kept (store_context p f).
Proof.
  apply setup_rest. intros s. unfold store_context.
  rewrite run_load_context. destruct p as [c|]; [|done].
  by destruct (contexts s !! c) as [[]|].
Qed.

Lemma setup_free_stack p : keeps setup_kept (free_stack p).
Proof.
  apply setup_rest. intros s. unfold free_stack.
  destruct p as [b|]; [|done]. by destruct (stacks s !! b) as [[]|].
Qed.

Lemma setup_free_context p : keeps setup_kept (free_context p).
Proof.
  apply setup_rest. intros s. unfold free_context.
  destruct p as [c|]; [|done]. by destruct (contexts s !! c) as [[]|].
Qed.

Lemma setup_poke p v : keeps setup_kept (poke p v).
Proof. apply setup_rest. intros s. unfold poke. by destruct (p =? 0). Qed.

Lemma setup_malloc_thread junk : keeps setup_kept (malloc_thread junk).
Proof. by apply setup_rest. Qed.

Lemma setup_malloc_context : keeps setup_kept malloc_context.
Proof. by apply setup_rest. Qed.

Lemma setup_malloc_stack : keeps setup_kept malloc_stack.
Proof. by apply setup_rest. Qed.

Create HintDb setup discriminated.

#[local] Hint Resolve setup_ret setup_stop setup_gets setup_sigprocmask
  setup_steque_enqueue setup_steque_isempty setup_steque_pop setup_with_ready
  setup_deref setup_store setup_get_current setup_set_current
  setup_with_maxtid setup_load_context setup_store_context setup_free_stack
  setup_free_context setup_poke setup_malloc_thread setup_malloc_context
  setup_malloc_stack : setup.

#[local] Hint Extern 3 (keeps _ (bind _ _)) =>
  apply setup_bind; [|intros ?; cbv beta] : setup.

#[local] Hint Extern 2 (keeps _ (match ?x with _ => _ end)) => destruct x : setup.

Ltac setups := auto 80 with setup.

Lemma setup_swapcontext oucp ucp : keeps setup_kept (swapcontext oucp ucp).
Proof. unfold swapcontext. setups. Qed.

Lemma setup_setcontext ucp : keeps setup_kept (setcontext ucp).
Proof. unfold setcontext. setups. Qed.

Lemma setup_exit {A} st : keeps setup_kept (@exit A st).
Proof. apply setup_stop. Qed.

Lemma setup_getcontext rc p : keeps setup_kept (getcontext rc p).
Proof. unfold getcontext. setups. Qed.

Lemma setup_memset_context p : keeps setup_kept (memset_context p).
Proof. apply setup_store_context. Qed.

#[local] Hint Resolve setup_swapcontext setup_setcontext setup_exit
  setup_getcontext setup_memset_context : setup.

Lemma setup_thread_scan nodes id : keeps setup_kept (thread_scan nodes id).
Proof. induction nodes; cbn [thread_scan]; setups. Qed.

#[local] Hint Resolve setup_thread_scan : setup.

Lemma setup_thread_get id : keeps setup_kept (thread_get id).
Proof. unfold thread_get. setups. Qed.

Lemma setup_skip_cancelled rq : ∀ next, keeps setup_kept (skip_cancelled rq next).
Proof. induction rq; intros next; cbn [skip_cancelled]; setups. Qed.

#[local] Hint Resolve setup_thread_get setup_skip_cancelled : setup.

Lemma setup_sigvtalrm_handler : keeps setup_kept sigvtalrm_handler.
Proof. unfold sigvtalrm_handler. setups. Qed.

#[local] Hint Resolve setup_sigvtalrm_handler : setup.

Lemma setup_gtthread_yield : keeps setup_kept gtthread_yield.
Proof. unfold gtthread_yield. setups. Qed.

Lemma setup_join_finish t status : keeps setup_kept (join_finish t status).
Proof. unfold join_finish. setups. Qed.

#[local] Hint Resolve setup_join_finish : setup.

Lemma setup_join_wait fuel : ∀ t status, keeps setup_kept (join_wait fuel t status).
Proof. induction fuel; intros t status; cbn [join_wait]; setups. Qed.

#[local] Hint Resolve setup_join_wait : setup.

Lemma setup_gtthread_join fuel thread status :
  keeps setup_kept (gtthread_join fuel thread status).
Proof. unfold gtthread_join. setups. Qed.

Lemma setup_gtthread_join_resume fuel t status :
  keeps setup_kept (gtthread_join_resume fuel t status).
Proof. unfold gtthread_join_resume. setups. Qed.

Lemma setup_exit_drain fuel : ∀ rv, keeps setup_kept (exit_drain fuel rv).
Proof. induction fuel; intros rv; cbn [exit_drain]; setups. Qed.

#[local] Hint Resolve setup_exit_drain : setup.

Lemma setup_exit_switch rv : keeps setup_kept (exit_switch rv).
Proof. unfold exit_switch. setups. Qed.

#[local] Hint Resolve setup_exit_switch : setup.

Lemma setup_gtthread_exit fuel rv : keeps setup_kept (gtthread_exit fuel rv).
Proof. unfold gtthread_exit. setups. Qed.

#[local] Hint Resolve setup_gtthread_exit : setup.

Lemma setup_gtthread_exit_resume fuel rv :
  keeps setup_kept (gtthread_exit_resume fuel rv).
Proof. unfold gtthread_exit_resume. setups. Qed.

Lemma setup_gtthread_create junk rc thread start_routine arg :
  keeps setup_kept (gtthread_create junk rc thread start_routine arg).
Proof. unfold gtthread_create. setups. Qed.

Lemma setup_gtthread_cancel fuel thread :
  keeps setup_kept (gtthread_cancel fuel thread).
Proof. unfold gtthread_cancel, cancel_target. setups. Qed.

Lemma setup_gtthread_self : keeps setup_kept gtthread_self.
Proof. unfold gtthread_self. setups. Qed.

Lemma setup_gtthread_start_return fuel v :
  keeps setup_kept (gtthread_start_return fuel v).
Proof. unfold gtthread_start_return. setups. Qed.

(** No call of the library clears [current], sets the timer or changes
    the disposition of SIGVTALRM. *)
Lemma run_call_setup c s : setup_kept s (final (run_call c s)).
Proof.
  destruct c; cbn [run_call]; rewrite ?final_erase, ?final_start_returns.
  - apply setup_gtthread_create.
  - apply setup_gtthread_join.
  - apply setup_gtthread_join_resume.
  - apply setup_gtthread_exit.
  - apply setup_gtthread_exit_resume.
  - apply setup_gtthread_yield.
  - apply setup_gtthread_cancel.
  - apply setup_gtthread_self.
  - apply (setup_sigprocmask SIG_UNBLOCK).
  - apply setup_gtthread_start_return.
  - apply setup_sigvtalrm_handler.
Qed.

(** * The states the library reaches *)

Lemma gtthread_init_continues junk rg rt rs period s s' :
  continues (gtthread_init junk rg rt rs period s) = Some s' →
  rg ≠ -1 ∧ 0 ≤ rt ∧ 0 ≤ rs.
Proof.
  destruct (Z.eq_dec rg (-1)) as [->|Hg].
  { unfold gtthread_init. mexec; try (done || lia). }
  destruct (Z.ltb_spec rt 0).
  { unfold gtthread_init. mexec; try (done || lia). }
  destruct (Z.ltb_spec rs 0).
  { unfold gtthread_init. mexec; try (done || lia). }
  done.
Qed.

Lemma reachable_setup s :
  reachable s →
  is_Some (current s) ∧ is_Some (timer s) ∧ handler_installed s = true.
Proof.
  induction 1 as [blocked mem junk rg rt rs period s Hinit
                 |c s s' _ (Hc & Ht & Hh) _ Hrun].
  - destruct (gtthread_init_continues _ _ _ _ _ _ _ Hinit) as (? & ? & ?).
    rewrite gtthread_init_run in Hinit by done. injection Hinit as <-.
    cbn. split_and!; by eauto.
  - apply continues_final in Hrun.
    destruct (run_call_setup c s) as (Hc' & Ht' & Hh').
    rewrite Hrun in Hc', Ht', Hh'. rewrite Ht', Hh'. split_and!; try done.
    destruct Hc' as [->|]; done.
Qed.

Lemma reachable_queues_valid s : reachable s → queues_valid s.
Proof.
  intros Hs. apply reachable_consistent in Hs as [_ Hv _ _ _].
  apply Forall_app in Hv as [_ Hv]. unfold queues_valid.
  eapply Forall_impl; [exact Hv|]. intros p Hp. by apply lookup_lt_is_Some.
Qed.

(** The running thread of a reachable state. *)
Lemma reachable_current s :
  reachable s →
  ∃ cur c, current s = Some cur ∧ threads s !! cur = Some c
           ∧ 0 < tid c < maxtid s.
Proof.
  intros Hs. destruct (reachable_setup s Hs) as ([cur Hcur] & _).
  pose proof (reachable_consistent s Hs) as [_ Hv _ _ _].
  unfold current_list in Hv. rewrite Hcur in Hv.
  apply Forall_cons in Hv as [Hlt _].
  apply lookup_lt_is_Some in Hlt as [c Hc]. exists cur, c.
  split; [done|]. split; [done|].
  apply (tids_monotone_below s cur); [by apply reachable_monotone|].
  unfold field. by rewrite Hc.
Qed.

Lemma StronglySorted_lt_NoDup (l : list Z) : StronglySorted Z.lt l → NoDup l.
Proof.
  induction 1 as [|x l _ IH Hx]; constructor; [|done].
  intros Hin. rewrite Forall_forall in Hx. specialize (Hx x Hin). lia.
Qed.

(** Two descriptors do not carry the same identity. *)
Lemma tids_inj s p q dp dq :
  tids_monotone s → threads s !! p = Some dp → threads s !! q = Some dq →
  tid dp = tid dq → p = q.
Proof.
  intros Hs Hp Hq Heq. unfold tids_monotone in Hs.
  apply StronglySorted_cons in Hs as [_ Hs].
  apply StronglySorted_app_1_l, StronglySorted_lt_NoDup in Hs.
  eapply NoDup_lookup; [exact Hs| |]; rewrite list_lookup_fmap.
  - by rewrite Hp.
  - rewrite Hq. cbn. by rewrite Heq.
Qed.

(** X1. In every state the library reaches, [current] points to a
    descriptor, setitimer has been called (the timer holds the setting
    gtthread_init gave it) and the handler of SIGVTALRM is installed: no
    call clears [current], and none sets the timer or changes the
    disposition of the signal after gtthread_init. *)
Theorem reachable_keeps_setup s :
  reachable s →
  (∃ cur c, current s = Some cur ∧ threads s !! cur = Some c)
  ∧ is_Some (timer s) ∧ handler_installed s = true
  ∧ ∀ c, setup_kept s (final (run_call c s)).
Proof.
  intros Hs. destruct (reachable_current s Hs) as (cur & c & Hcur & Hc & _).
  destruct (reachable_setup s Hs) as (_ & Ht & Hh).
  split_and!; try done.
  - by exists cur, c.
  - intros c'. apply run_call_setup.
Qed.

Lemma reachable_keeps_setup_witness :
  is_Some (timer one_child) ∧ handler_installed one_child = true.
Proof.
  destruct (reachable_keeps_setup one_child) as (_ & Ht & Hh & _).
  - apply reachable_one_child.
  - split; [exact Ht|exact Hh].
Defined.

(** X2. In every state the library reaches, gtthread_self returns the
    identity of the descriptor [current] points to, which is positive and
    below the counter, and changes nothing. *)
Theorem gtthread_self_returns_current s :
  reachable s →
  ∃ cur c, current s = Some cur ∧ threads s !! cur = Some c
           ∧ gtthread_self s = Ok (tid c) s
           ∧ 0 < tid c < maxtid s.
Proof.
  intros Hs. destruct (reachable_current s Hs) as (cur & c & Hcur & Hc & Hlt).
  exists cur, c. split_and!; try done; try lia.
  unfold gtthread_self. by mrun.
Qed.

Lemma gtthread_self_returns_current_witness :
  ∃ cur c, current second_running = Some cur
           ∧ threads second_running !! cur = Some c
           ∧ gtthread_self second_running = Ok (tid c) second_running.
Proof.
  destruct (gtthread_self_returns_current second_running)
    as (cur & c & Hcur & Hc & Hself & _).
  - apply reachable_second_running.
  - exists cur, c. split; [exact Hcur|]. split; [exact Hc|exact Hself].
Defined.

(** X3. In every state the library reaches, gtthread_equal tells the
    descriptors apart by their identities: on the identities of two
    descriptors it returns 1 when they are one descriptor and 0 when they
    are two. *)
Theorem gtthread_equal_same_descriptor s p q dp dq :
  reachable s → threads s !! p = Some dp → threads s !! q = Some dq →
  (p = q → gtthread_equal (tid dp) (tid dq) = 1)
  ∧ (p ≠ q → gtthread_equal (tid dp) (tid dq) = 0).
Proof.
  intros Hs Hp Hq. apply reachable_monotone in Hs. unfold gtthread_equal.
  split.
  - intros <-. rewrite Hp in Hq. injection Hq as <-. by rewrite Z.eqb_refl.
  - intros Hne. destruct (Z.eqb_spec (tid dp) (tid dq)) as [Heq|]; [|done].
    destruct Hne. by eapply tids_inj.
Qed.

Lemma gtthread_equal_same_descriptor_witness :
  gtthread_equal 1 2 = 0.
Proof.
  destruct (gtthread_equal_same_descriptor one_child 0 1
              (mk_thread 1 0 GTTHREAD_RUNNING 0 0 0 (Some 0%nat))
              (mk_thread 2 0 GTTHREAD_RUNNING 7 41 0 (Some 1%nat)))
    as [_ H].
  - apply reachable_one_child.
  - vm_compute. reflexivity.
  - vm_compute. reflexivity.
  - apply H. lia.
Defined.

(** * The lookup of an identity *)

Lemma find_split {A} (f : A → bool) (l : list A) x :
  find f l = Some x →
  ∃ pre post, l = pre ++ x :: post ∧ Forall (fun y => f y = false) pre
              ∧ f x = true.
Proof.
  induction l as [|y l IH]; cbn; [done|].
  destruct (f y) eqn:Hy.
  - intros [= ->]. by exists [], l.
  - intros H. destruct (IH H) as (pre & post & -> & Hpre & Hx).
    exists (y :: pre), post. split; [done|]. split; [by constructor|done].
Qed.


(** A predicate that holds of one element of the list at most. *)
Lemma find_only {A} (f : A → bool) (l : list A) x :
  x ∈ l → f x = true → (∀ y, y ∈ l → f y = true → y = x) →
  find f l = Some x.
Proof.
  intros Hin Hx Hone. destruct (find f l) as [y|] eqn:Hf.
  - apply find_some in Hf as [Hy Hfy]. f_equal.
    apply Hone; [by apply list_elem_of_In|done].
  - apply list_elem_of_In in Hin. by rewrite (find_none _ _ Hf x Hin) in Hx.
Qed.

Lemma has_tid_false s id p : has_tid s id p = false → field tid s p ≠ Some id.
Proof.
  unfold has_tid, field. destruct (threads s !! p) as [d|]; [|done].
  intros H%Z.eqb_neq [=]. done.
Qed.

Lemma has_tid_true s id p :
  has_tid s id p = true ↔ ∃ d, threads s !! p = Some d ∧ tid d = id.
Proof.
  unfold has_tid. destruct (threads s !! p) as [d|]; split.
  - intros H%Z.eqb_eq. by exists d.
  - intros (d' & [= <-] & H). by apply Z.eqb_eq.
  - done.
  - by intros (d' & [=] & _).
Qed.

(** X4. When the queues hold pointers to descriptors, thread_get changes
    nothing and returns: NULL when no descriptor of the ready queue or of
    the zombie queue carries the identity, and else the first that does,
    in the ready queue from its head and then in the zombie queue. *)
Theorem thread_get_finds_first id s :
  queues_valid s →
  ∃ r, thread_get id s = Ok r s
       ∧ match r with
         | None => ¬ known s id
         | Some t =>
             ∃ pre post d,
               ready_queue s ++ zombie_queue s = pre ++ t :: post
               ∧ Forall (fun p => field tid s p ≠ Some id) pre
               ∧ threads s !! t = Some d ∧ tid d = id
         end.
Proof.
  intros Hv. exists (target_of s id). split; [by apply thread_get_valid|].
  destruct (target_of s id) as [t|] eqn:Ht; [|by apply target_of_None].
  unfold target_of in Ht.
  apply find_split in Ht as (pre & post & Hl & Hpre & Hx).
  apply has_tid_true in Hx as (d & Hd & Hid).
  exists pre, post, d. split_and!; try done.
  eapply Forall_impl; [exact Hpre|]. intros p. apply has_tid_false.
Qed.

Lemma thread_get_finds_first_witness :
  ∃ r, thread_get 3 head_cancelled = Ok r head_cancelled.
Proof.
  destruct (thread_get_finds_first 3 head_cancelled) as (r & Hr & _).
  - apply reachable_queues_valid, reachable_head_cancelled.
  - exists r. exact Hr.
Defined.

(** X5. In every state the library reaches, the running thread is not in
    the ready queue, and thread_get finds it only in the zombie queue: for
    the identity of the descriptor [current] points to it returns NULL,
    unless that descriptor is in the zombie queue (gtthread_yield or
    gtthread_exit has made a cancelled descriptor the current one); then
    it returns it, and the descriptor has no context record. *)
Theorem thread_get_current s :
  reachable s →
  ∃ cur c, current s = Some cur ∧ threads s !! cur = Some c
           ∧ (cur ∉ ready_queue s)
           ∧ (cur ∉ zombie_queue s → thread_get (tid c) s = Ok None s)
           ∧ (cur ∈ zombie_queue s →
              thread_get (tid c) s = Ok (Some cur) s
              ∧ field ucp s cur = Some None).
Proof.
  intros Hs. destruct (reachable_current s Hs) as (cur & c & Hcur & Hc & _).
  pose proof (reachable_consistent s Hs) as Hcons.
  destruct (consistent_apart s Hcons) as [Hap _]. specialize (Hap cur Hcur).
  assert (∀ p d, threads s !! p = Some d → tid d = tid c → p = cur) as Hone.
  { intros p d Hd Hid. eapply tids_inj; [by apply reachable_monotone|done..]. }
  exists cur, c. split_and!; try done.
  - intros Hz. rewrite thread_get_valid by by apply reachable_queues_valid.
    f_equal. apply target_of_None. intros (p & d & Hin & Hd & Hid).
    rewrite (Hone p d Hd Hid) in Hin. apply elem_of_app in Hin as [|]; done.
  - intros Hz. split; [|by apply (cons_zombie s Hcons)].
    rewrite thread_get_valid by by apply reachable_queues_valid.
    f_equal. apply find_only.
    + apply elem_of_app. by right.
    + apply has_tid_true. by exists c.
    + intros p _ (d & Hd & Hid)%has_tid_true. by apply (Hone p d).
Qed.

Lemma thread_get_current_witness :
  thread_get 2 cancelled_current = Ok (Some 1%nat) cancelled_current
  ∧ thread_get 2 second_running = Ok None second_running.
Proof.
  split.
  - destruct (thread_get_current cancelled_current reachable_cancelled_current)
      as (cur & c & Hcur & Hc & _ & _ & Hfound).
    assert (cur = 1%nat) as -> by (vm_compute in Hcur; congruence).
    assert (tid c = 2) as <- by (vm_compute in Hc; by injection Hc as <-).
    apply Hfound. apply list_elem_of_In. vm_compute. tauto.
  - destruct (thread_get_current second_running reachable_second_running)
      as (cur & c & Hcur & Hc & _ & Hmiss & _).
    assert (cur = 1%nat) as -> by (vm_compute in Hcur; congruence).
    assert (tid c = 2) as <- by (vm_compute in Hc; by injection Hc as <-).
    apply Hmiss. intros Hin%list_elem_of_In. vm_compute in Hin. tauto.
Defined.



(** * Cancel, again *)

Lemma with_blocked_same s : with_blocked (vtalrm_blocked s) s = s.
Proof. by destruct s. Qed.

Lemma has_tid_ext s s' id p :
  tid <$> threads s' = tid <$> threads s → has_tid s' id p = has_tid s id p.
Proof.
  intros Ht. unfold has_tid.
  assert (tid <$> threads s' !! p = tid <$> threads s !! p) as H
    by by rewrite <- !list_lookup_fmap, Ht.
  destruct (threads s' !! p), (threads s !! p); cbn in H; congruence.
Qed.

Lemma find_ext {A} (f g : A → bool) (l : list A) :
  (∀ x, f x = g x) → find f l = find g l.
Proof. intros H. induction l as [|x l IH]; cbn; [done|]. by rewrite H, IH. Qed.

(** gtthread_cancel on an identity other than the caller's that no
    descriptor of the queues carries, or whose descriptor is terminal. *)
Lemma gtthread_cancel_refused fuel thread s cur c :
  current s = Some cur → threads s !! cur = Some c → tid c ≠ thread →
  queues_valid s →
  (target_of s thread = None
   ∨ ∃ t d, target_of s thread = Some t ∧ threads s !! t = Some d
            ∧ terminal (state d)) →
  gtthread_cancel fuel thread s = Ok (-1) (with_blocked false s).
Proof.
  intros Hcur Hc Hother Hvalid Hcase.
  rewrite (gtthread_cancel_other fuel thread s cur c) by done.
  unfold cancel_target. rewrite run_sigprocmask, run_bind_case.
  rewrite (thread_get_ext thread s _ (target_of s thread)); try done.
  2: { by apply thread_get_valid. }
  destruct Hcase as [->|(t & d & -> & Hd & [Hst|Hst])]; mrun; try done.
  - by rewrite Hst; mrun.
  - by rewrite Hst; mrun.
Qed.

(** A gtthread_cancel that returns 0 was not on the caller's own
    identity, when no two descriptors carry one identity: a caller that
    cancels itself and comes back from gtthread_exit finds its own
    descriptor, DONE. *)
Lemma gtthread_cancel_zero fuel thread s s' :
  tids_monotone s → gtthread_cancel fuel thread s = Ok 0 s' →
  ∃ cur c, current s = Some cur ∧ threads s !! cur = Some c
           ∧ tid c ≠ thread.
Proof.
  intros Hmono Hrun. pose proof (gtthread_cancel_spec fuel thread s) as H.
  rewrite Hrun in H.
  destruct H as (cur & c & s0 & Hcur & Hc & [[Hne _]|[Hself Hexit]] & Ht).
  { by exists cur, c. }
  exfalso. apply gtthread_exit_returns in Hexit as [Hexit _].
  pose proof (exit_switch_spec 0 (with_blocked true s)) as Hs.
  rewrite Hexit in Hs.
  destruct Hs as (prev & next & rq & dp & dn & cp & u & Hcur' & _ & _ & Hdp
                  & _ & _ & _ & Hth & _).
  msimpl. rewrite Hcur in Hcur'. injection Hcur' as <-.
  rewrite Hc in Hdp. injection Hdp as <-.
  pose proof (cancel_target_spec thread s0) as Hspec. rewrite Ht in Hspec.
  destruct Hspec as [(? & _)|(_ & t & d & _ & _ & Htarget & Hd & Hst & _)];
    [done|].
  apply target_of_Some in Htarget as (_ & d' & Hd' & Hid).
  rewrite Hd in Hd'. injection Hd' as <-.
  assert (tid <$> threads s0 !! t = tid <$> threads s !! t) as Htid.
  { rewrite Hth. by rewrite !lookup_alter_keep by by intros []. }
  rewrite Hd in Htid. cbn in Htid.
  destruct (threads s !! t) as [d0|] eqn:Hd0; [|done].
  injection Htid as Htid.
  assert (t = cur) as -> by (eapply (tids_inj s); [done..|congruence]).
  rewrite Hth, !list_lookup_alter_eq in Hd.
  destruct (decide (next = cur)) as [->|Hne].
  - rewrite list_lookup_alter_eq, Hc in Hd. injection Hd as <-. done.
  - rewrite list_lookup_alter_ne, Hc in Hd by done. injection Hd as <-. done.
Qed.

(** The state a gtthread_cancel on an identity other than the caller's
    leaves when it returns 0. *)
Lemma gtthread_cancel_done fuel thread s s' cur c :
  current s = Some cur → threads s !! cur = Some c → tid c ≠ thread →
  queues_valid s → gtthread_cancel fuel thread s = Ok 0 s' →
  ∃ t d,
    current s' = Some cur ∧ threads s' !! cur = Some c
    ∧ queues_valid s' ∧ target_of s' thread = Some t
    ∧ threads s' !! t = Some d ∧ tid d = thread
    ∧ state d = GTTHREAD_CANCEL ∧ joining d = 0
    ∧ vtalrm_blocked s' = false ∧ user_mem s' = user_mem s.
Proof.
  intros Hcur Hc Hne Hv Hrun.
  rewrite (gtthread_cancel_other fuel thread s cur c) in Hrun by done.
  pose proof (cancel_target_spec thread s) as H. rewrite Hrun in H.
  destruct H as [(? & _)|(_ & H)]; [done|].
  destruct H as (t & d & cp & u & Ht & Hd & Hst & _ & _ & Hth & _ & _ & Hrq
                 & Hzq & Hcur' & _ & Hmem & Hb).
  destruct (target_of_Some _ _ _ Ht) as (Hin & d' & Hd' & Htid).
  rewrite Hd in Hd'. injection Hd' as <-.
  assert (t ≠ cur) as Htc by (intros ->; congruence).
  assert (tid <$> threads s' = tid <$> threads s) as Htids.
  { rewrite Hth. by rewrite !fmap_alter_same by by intros []. }
  exists t, (set_joining 0 (set_ucp None (set_state GTTHREAD_CANCEL d))).
  split_and!; try done.
  - congruence.
  - by rewrite Hth, !list_lookup_alter_ne.
  - unfold queues_valid in *. rewrite Hrq, Hzq, app_assoc, Forall_app.
    split.
    + eapply Forall_impl; [exact Hv|]. intros p [x Hx].
      rewrite Hth. apply lookup_lt_is_Some. rewrite !length_alter.
      by apply lookup_lt_Some in Hx.
    + constructor; [|constructor]. rewrite Hth, !list_lookup_alter_eq, Hd.
      by eexists.
  - unfold target_of in *. rewrite Hrq, Hzq, app_assoc, find_app.
    rewrite (find_ext _ (has_tid s thread)) by (intros p; by apply has_tid_ext).
    by rewrite Ht.
  - by rewrite Hth, !list_lookup_alter_eq, Hd.
Qed.

(** X7. gtthread_cancel on an identity other than the caller's returns 0
    or -1 when it returns; it returns -1 exactly when no descriptor of the
    queues carries the identity or the one found is DONE or CANCEL, and
    then it has done nothing but unblock the signal. *)
Theorem gtthread_cancel_refuses_exactly fuel thread s cur c :
  current s = Some cur → threads s !! cur = Some c → tid c ≠ thread →
  queues_valid s →
  (∀ v s', gtthread_cancel fuel thread s = Ok v s' → v = 0 ∨ v = -1)
  ∧ (∀ s', gtthread_cancel fuel thread s = Ok (-1) s' →
           s' = with_blocked false s)
  ∧ (gtthread_cancel fuel thread s = Ok (-1) (with_blocked false s)
     ↔ ¬ known s thread
       ∨ ∃ t d, target_of s thread = Some t ∧ threads s !! t = Some d
                ∧ terminal (state d)).
Proof.
  intros Hcur Hc Hother Hvalid.
  rewrite (gtthread_cancel_other fuel thread s cur c) by done.
  pose proof (cancel_target_spec thread s) as Hspec. split_and!.
  - intros v s' Hrun. rewrite Hrun in Hspec.
    destruct Hspec as [(-> & _)|(-> & _)]; auto.
  - intros s' Hrun. rewrite Hrun in Hspec.
    by destruct Hspec as [(_ & -> & _)|(? & _)].
  - split.
    + intros Hrun. rewrite Hrun in Hspec.
      destruct Hspec as [(_ & _ & H)|(? & _)]; [|done].
      destruct H as [H|H]; [left; by apply target_of_None|by right].
    + intros H.
      rewrite <- (gtthread_cancel_other fuel thread s cur c) by done.
      apply (gtthread_cancel_refused fuel thread s cur c); try done.
      destruct H as [H|H]; [left; by apply target_of_None|by right].
Qed.

Lemma gtthread_cancel_refuses_exactly_witness :
  gtthread_cancel 1 9 one_child = Ok (-1) (with_blocked false one_child).
Proof.
  destruct (gtthread_cancel_refuses_exactly 1 9 one_child 0
              (mk_thread 1 0 GTTHREAD_RUNNING 0 0 0 (Some 0%nat)))
    as (_ & _ & H).
  - vm_compute. reflexivity.
  - vm_compute. reflexivity.
  - simpl. lia.
  - apply reachable_queues_valid, reachable_one_child.
  - apply H. left. apply target_of_None. vm_compute. reflexivity.
Defined.

(** X8. gtthread_cancel is not repeatable: when no two descriptors carry
    one identity, after a call that has returned 0 a second call on the
    same identity returns -1 and changes nothing, so the stack and the
    context record of the target are released once. *)
Theorem gtthread_cancel_twice fuel fuel' thread s s' :
  tids_monotone s → queues_valid s →
  gtthread_cancel fuel thread s = Ok 0 s' →
  gtthread_cancel fuel' thread s' = Ok (-1) s'.
Proof.
  intros Hmono Hv Hrun.
  destruct (gtthread_cancel_zero fuel thread s s' Hmono Hrun)
    as (cur & c & Hcur0 & Hc0 & Hne).
  destruct (gtthread_cancel_done fuel thread s s' cur c Hcur0 Hc0 Hne Hv Hrun)
    as (t & d & Hcur & Hc & Hv' & Ht & Hd & _ & Hst & _ & Hb & _).
  rewrite <- (with_blocked_same s') at 2. rewrite Hb.
  apply (gtthread_cancel_refused fuel' thread s' cur c); try done.
  right. exists t, d. split_and!; try done. by left.
Qed.

Lemma gtthread_cancel_twice_witness :
  gtthread_cancel 1 2 child_cancelled = Ok (-1) child_cancelled.
Proof.
  apply (gtthread_cancel_twice 1 1 2 one_child child_cancelled).
  - apply reachable_monotone, reachable_one_child.
  - apply reachable_queues_valid, reachable_one_child.
  - vm_compute. reflexivity.
Defined.

(** X9. Cancel, then join: in a state the library reaches, after a
    gtthread_cancel that has returned 0 a gtthread_join of the caller on
    the same identity returns 0 at once, without a switch, and stores 1,
    the value of GTTHREAD_CANCEL, through a status that is not NULL. *)
Theorem gtthread_cancel_then_join fuel fuel' thread status s s' :
  reachable s → gtthread_cancel fuel thread s = Ok 0 s' → status ≠ 0 →
  ∃ s'', gtthread_join fuel' thread status s' = Ok 0 s''
         ∧ user_mem s'' = <[status := 1]> (user_mem s')
         ∧ ready_queue s'' = ready_queue s'
         ∧ current s'' = current s'.
Proof.
  intros Hs Hrun Hstatus.
  destruct (gtthread_cancel_zero fuel thread s s' (reachable_monotone s Hs) Hrun)
    as (cur & c & Hcur0 & Hc0 & Hne).
  destruct (gtthread_cancel_done fuel thread s s' cur c Hcur0 Hc0 Hne
              (reachable_queues_valid s Hs) Hrun)
    as (t & d & Hcur & Hc & Hv' & Ht & Hd & Htid & Hst & Hj & _).
  destruct (reachable_current s Hs) as (cur' & c' & Hcur' & Hc' & Hpos).
  rewrite Hcur0 in Hcur'. injection Hcur' as <-.
  rewrite Hc0 in Hc'. injection Hc' as <-.
  eexists. split.
  - apply (gtthread_join_terminal fuel' thread status s' cur c t d);
      try done.
    + rewrite <- Ht. by apply thread_get_valid.
    + lia.
    + by left.
  - rewrite user_mem_deliver, ready_queue_deliver, current_deliver.
    destruct (Z.eqb_spec status 0); [done|].
    unfold join_result. by rewrite Hst.
Qed.

Lemma gtthread_cancel_then_join_witness :
  ∃ s'', gtthread_join 1 3 200 third_cancelled = Ok 0 s''
         ∧ user_mem s'' = <[200 := 1]> (user_mem third_cancelled).
Proof.
  destruct (gtthread_cancel_then_join 1 1 3 200 two_children third_cancelled)
    as (s'' & Hrun & Hmem & _).
  - apply reachable_two_children.
  - vm_compute. reflexivity.
  - done.
  - exists s''. split; [exact Hrun|exact Hmem].
Defined.

(** X10. gtthread_cancel on the caller's own identity calls
    gtthread_exit(0): when that call does not return, gtthread_cancel ends
    as it ends, in the same state; when it returns (the head of the ready
    queue had no context: it was cancelled), in a state the library
    reaches, gtthread_cancel goes on at line 292, finds the caller's own
    descriptor, DONE, in the zombie queue, and returns -1. *)
Theorem gtthread_cancel_self_exits fuel thread s cur c :
  current s = Some cur → threads s !! cur = Some c → tid c = thread →
  (∀ h s', gtthread_exit fuel 0 s = Stop h s' →
           gtthread_cancel fuel thread s = Stop h s')
  ∧ (∀ s', reachable s → gtthread_exit fuel 0 s = Ok tt s' →
           gtthread_cancel fuel thread s = Ok (-1) s'
           ∧ field state s' cur = Some GTTHREAD_DONE
           ∧ cur ∈ zombie_queue s'
           ∧ current s' ≠ Some cur).
Proof.
  intros Hcur Hc Hself.
  rewrite (gtthread_cancel_self fuel thread s cur c) by done. split.
  { by intros h s' ->. }
  intros s' Hs Hexit. rewrite Hexit.
  assert (reachable s') as Hs'.
  { apply (reachable_step (Exit fuel 0) s s' Hs); [exact I|].
    unfold perform. cbn [run_call]. by rewrite Hexit. }
  apply gtthread_exit_returns in Hexit as [Hexit _].
  pose proof (exit_switch_spec 0 (with_blocked true s)) as Hspec.
  rewrite Hexit in Hspec.
  destruct Hspec as (prev & next & rq & dp & dn & cp & u & Hcur' & Hrq & _ & Hdp
                     & _ & _ & _ & Hth & _ & _ & _ & Hzq & Hnext & _ & _ & Hb).
  msimpl. rewrite Hcur in Hcur'. injection Hcur' as <-.
  rewrite Hc in Hdp. injection Hdp as <-.
  pose proof (cons_nodup s (reachable_consistent s Hs)) as Hnd.
  unfold current_list in Hnd. rewrite Hcur, Hrq in Hnd.
  apply NoDup_cons in Hnd as [Hnd _].
  assert (next ≠ cur) as Hne by (intros ->; apply Hnd; by left).
  assert (threads s' !! cur =
          Some (set_joining 0 (set_retval 0 (set_state GTTHREAD_DONE
                  (set_ucp None c))))) as Hd.
  { by rewrite Hth, !list_lookup_alter_eq, list_lookup_alter_ne, Hc. }
  assert (cur ∈ zombie_queue s') as Hin.
  { rewrite Hzq. apply elem_of_app. right. by apply list_elem_of_singleton. }
  split_and!; try done.
  2: { unfold field. by rewrite Hd. }
  2: { rewrite Hnext. congruence. }
  unfold cancel_target. rewrite run_sigprocmask, run_bind_case.
  rewrite (thread_get_ext thread s' _ (Some cur)); try done.
  - mrun. f_equal. rewrite <- Hb. by destruct s'.
  - rewrite thread_get_valid by by apply reachable_queues_valid.
    f_equal. apply find_only.
    + apply elem_of_app. by right.
    + apply has_tid_true. eexists. split; [exact Hd|done].
    + intros p _ (d & Hp & Hid)%has_tid_true.
      eapply (tids_inj s'); [by apply reachable_monotone|done..|].
      by rewrite Hid.
Qed.

Lemma gtthread_cancel_self_exits_witness :
  gtthread_cancel 1 2 head_cancelled
  = Ok (-1) (after (gtthread_exit 1 0) head_cancelled).
Proof.
  destruct (gtthread_cancel_self_exits 1 2 head_cancelled 1
              (mk_thread 2 0 GTTHREAD_RUNNING 7 41 0 (Some 1%nat)))
    as [_ H].
  - vm_compute. reflexivity.
  - vm_compute. reflexivity.
  - reflexivity.
  - apply (H (after (gtthread_exit 1 0) head_cancelled)).
    + apply reachable_head_cancelled.
    + vm_compute. reflexivity.
Defined.

(** * Failures of the host calls *)

(** X11. gtthread_create returns no code but 0.  When getcontext fails it
    ends the process with EXIT_FAILURE: by then it has allocated the
    descriptor, advanced the counter and written the identity to the
    destination, the signal is still blocked, and nothing has been
    enqueued and no stack allocated.  A NULL destination is written
    through before anything is tested. *)
Theorem gtthread_create_fails junk rc thread start_routine arg s :
  (∀ v s', gtthread_create junk rc thread start_routine arg s = Ok v s' →
           v = 0 ∧ rc ≠ -1 ∧ thread ≠ 0)
  ∧ (thread ≠ 0 → rc = -1 →
     ∃ s', gtthread_create junk rc thread start_routine arg s
           = Stop (Exited EXIT_FAILURE) s'
           ∧ ready_queue s' = ready_queue s ∧ zombie_queue s' = zombie_queue s
           ∧ current s' = current s ∧ stacks s' = stacks s
           ∧ length (threads s') = S (length (threads s))
           ∧ maxtid s' = tid_succ (maxtid s)
           ∧ user_mem s' = <[thread := maxtid s]> (user_mem s)
           ∧ vtalrm_blocked s' = true)
  ∧ (thread = 0 →
     ∃ s', gtthread_create junk rc thread start_routine arg s = Stop Fault s'
           ∧ ready_queue s' = ready_queue s
           ∧ maxtid s' = tid_succ (maxtid s)).
Proof.
  split_and!.
  - intros v s' Hrun.
    pose proof (gtthread_create_spec junk rc thread start_routine arg s) as H.
    rewrite Hrun in H. tauto.
  - intros Hthread ->. eexists. split.
    + unfold gtthread_create. mrun.
      destruct (Z.eqb_spec thread 0) as [|_]; [done|]. mrun. reflexivity.
    + msimpl. rewrite !length_alter, !length_app. cbn. split_and!; try done.
      lia.
  - intros ->. eexists. split.
    + unfold gtthread_create. mrun. reflexivity.
    + done.
Qed.

Lemma gtthread_create_fails_witness :
  ∃ s', gtthread_create junk0 (-1) 100 7 41 started
        = Stop (Exited EXIT_FAILURE) s'
        ∧ ready_queue s' = ready_queue started.
Proof.
  destruct (gtthread_create_fails junk0 (-1) 100 7 41 started)
    as (_ & H & _).
  destruct H as (s' & Hrun & Hrq & _); [done..|].
  exists s'. split; [exact Hrun|exact Hrq].
Defined.



(** The first descriptor is the initial thread's. *)
Lemma reachable_first s : reachable s → (tid <$> threads s) !! 0%nat = Some 1.
Proof.
  induction 1 as [blocked mem junk rg rt rs period s Hinit|c s s' _ IH _ Hrun].
  - apply gtthread_init_boot in Hinit as (-> & _). done.
  - apply perform_tids in Hrun. by eapply prefix_lookup_Some.
Qed.

(** X13. gtthread_init does not guard against a second call: called in a
    state the library has reached, with the host calls succeeding, it
    returns after discarding the ready queue and setting the counter back,
    and gives a new descriptor identity 1, which the initial thread's
    descriptor carries already, so that identities are no longer
    distinct.  The zombie queue and the descriptors allocated before stay
    as they were. *)
Theorem gtthread_init_again junk rg rt rs period s :
  reachable s → rg ≠ -1 → 0 ≤ rt → 0 ≤ rs →
  ∃ s', gtthread_init junk rg rt rs period s = Ok tt s'
        ∧ ready_queue s' = [] ∧ zombie_queue s' = zombie_queue s
        ∧ maxtid s' = 2
        ∧ current s' = Some (length (threads s))
        ∧ (∀ p, p < length (threads s) → threads s' !! p = threads s !! p)%nat
        ∧ field tid s' 0 = Some 1
        ∧ field tid s' (length (threads s)) = Some 1
        ∧ length (threads s) ≠ 0%nat
        ∧ ¬ tids_monotone s'.
Proof.
  intros Hs Hg Ht Hr. pose proof (reachable_first s Hs) as Hfirst.
  rewrite list_lookup_fmap in Hfirst.
  destruct (threads s !! 0%nat) as [d0|] eqn:Hd0; [|done].
  injection Hfirst as Hfirst.
  assert (length (threads s) ≠ 0%nat) as Hlen.
  { apply lookup_lt_Some in Hd0. lia. }
  eexists. split; [by apply gtthread_init_run|]. unfold field. cbn.
  assert ((threads s ++
             [mk_thread 1 0 GTTHREAD_RUNNING (proc junk) 0 (retval junk)
                (Some (length (contexts s)))]) !! 0%nat = Some d0) as H0.
  { by apply lookup_app_l_Some. }
  split_and!; try done.
  - intros p Hp. by apply lookup_app_l.
  - rewrite H0. cbn. by rewrite Hfirst.
  - by rewrite lookup_snoc.
  - intros Hmono. apply Hlen. symmetry.
    eapply (tids_inj _ 0%nat (length (threads s))); [exact Hmono|..]; cbn.
    + exact H0.
    + apply lookup_snoc.
    + done.
Qed.

Lemma gtthread_init_again_witness :
  ∃ s', gtthread_init junk0 0 0 0 1000 one_child = Ok tt s'
        ∧ ready_queue s' = [].
Proof.
  destruct (gtthread_init_again junk0 0 0 0 1000 one_child)
    as (s' & Hrun & Hrq & _).
  - apply reachable_one_child.
  - done.
  - done.
  - done.
  - exists s'. split; [exact Hrun|exact Hrq].
Defined.

(** * Yield *)

Lemma rotate_succ {A} n (l : list A) :
  rotate (S n) l = match rotate n l with [] => [] | x :: l' => l' ++ [x] end.
Proof.
  destruct (decide (l = [])) as [->|Hne].
  { unfold rotate. by rewrite !drop_nil, !take_nil. }
  assert (length l ≠ 0%nat) as Hlen by by destruct l.
  pose proof (Nat.mod_upper_bound n (length l) Hlen) as Hk.
  pose proof (Nat.div_mod_eq n (length l)) as Hn.
  unfold rotate. set (k := (n `mod` length l)%nat) in *.
  destruct (lookup_lt_is_Some_2 l k Hk) as [x Hx].
  rewrite (drop_S l x k Hx). cbn. rewrite <- app_assoc.
  destruct (decide (S k = length l)) as [Hlast|Hmid].
  - replace (S n `mod` length l)%nat with 0%nat.
    2: { apply (Nat.mod_unique _ _ (S (n `div` length l))); lia. }
    rewrite Hlast, drop_all, drop_0, take_0, <- (take_S_r l k x Hx), Hlast.
    by rewrite take_ge, app_nil_r.
  - replace (S n `mod` length l)%nat with (S k).
    2: { apply (Nat.mod_unique _ _ (n `div` length l)); lia. }
    by rewrite (take_S_r l k x Hx).
Qed.

Lemma rotate_0 {A} (l : list A) : rotate 0 l = l.
Proof.
  unfold rotate. destruct l as [|x l]; [done|].
  by rewrite Nat.Div0.mod_0_l, drop_0, take_0, app_nil_r.
Qed.

Lemma rotate_1_cons {A} (x : A) l : rotate 1 (x :: l) = l ++ [x].
Proof. by rewrite rotate_succ, rotate_0. Qed.

Lemma rotate_rotate_1 {A} n (l : list A) : rotate n (rotate 1 l) = rotate (S n) l.
Proof.
  induction n as [|n IH]; [by rewrite rotate_0|].
  by rewrite rotate_succ, IH, <- rotate_succ.
Qed.

Lemma rotate_length_same {A} (l : list A) : rotate (length l) l = l.
Proof.
  unfold rotate. by rewrite Nat.Div0.mod_same, drop_0, take_0, app_nil_r.
Qed.

Lemma alter_fixed {A} (f : A → A) i (l : list A) x :
  l !! i = Some x → f x = x → alter f i l = l.
Proof.
  intros Hx Hf. apply list_eq. intros j. destruct (decide (i = j)) as [<-|].
  - by rewrite list_lookup_alter_eq, Hx; cbn; rewrite Hf.
  - by rewrite list_lookup_alter_ne.
Qed.

(** gtthread_yield blocks the signal first, however it found it. *)
Lemma gtthread_yield_blocked b s :
  gtthread_yield (with_blocked b s) = gtthread_yield s.
Proof. unfold gtthread_yield. by rewrite !run_sigprocmask. Qed.

(** gtthread_yield between two threads that own a context. *)
Lemma gtthread_yield_switch s cur next rq :
  current s = Some cur → ready_queue s = next :: rq →
  runnable s cur = true → runnable s next = true →
  gtthread_yield s =
  Stop Switched (with_blocked false
                   (with_current (Some next) (with_ready (rq ++ [cur]) s))).
Proof.
  unfold runnable. intros Hcur Hrq Hc Hn.
  destruct (threads s !! cur) as [dc|] eqn:Hdc; [|done].
  destruct (threads s !! next) as [dn|] eqn:Hdn; [|done].
  destruct (live_Some _ _ Hn) as [cn Hcn].
  unfold gtthread_yield. mrun.
  replace (live _ (ucp dc)) with (live s (ucp dc)) by done.
  replace (live _ (ucp dn)) with (live s (ucp dn)) by done.
  by rewrite Hc, Hn, Hcn.
Qed.

Lemma scheduled_eta s cur :
  current s = Some cur → scheduled (cur :: ready_queue s) s = with_blocked false s.
Proof. destruct s. cbn. by intros ->. Qed.

Lemma yields_scheduled s0 n : ∀ l,
  (2 ≤ length l)%nat → Forall (fun p => runnable s0 p = true) l →
  yields n (scheduled l s0) = Some (scheduled (rotate n l) s0).
Proof.
  induction n as [|n IH]; intros l Hlen Hl; [by rewrite rotate_0|].
  destruct l as [|x [|y l]]; cbn in Hlen; try lia.
  apply Forall_cons in Hl as [Hx Hl]. pose proof Hl as Hl'.
  apply Forall_cons in Hl' as [Hy _].
  cbn [yields].
  rewrite (gtthread_yield_switch (scheduled (x :: y :: l) s0) x y l);
    try done.
  cbn [continues]. rewrite <- rotate_rotate_1, rotate_1_cons.
  rewrite <- (IH ((y :: l) ++ [x])).
  - done.
  - rewrite length_app. cbn. lia.
  - apply Forall_app. split; [done|]. by constructor.
Qed.

(** X14. gtthread_yield serves the threads in turn: when the running
    thread and the threads of a ready queue that is not empty all own a
    context, [n] yields in a row, each by the thread the one before has
    switched to, leave the running thread followed by the ready queue
    rotated by [n], the signal unblocked and all else as it was; after as
    many yields as there are threads every thread has run once and the
    running thread and the ready queue are the ones at the start. *)
Theorem gtthread_yield_round_robin s cur :
  current s = Some cur → ready_queue s ≠ [] →
  Forall (fun p => runnable s p = true) (cur :: ready_queue s) →
  (∀ n, (0 < n)%nat →
        yields n s = Some (scheduled (rotate n (cur :: ready_queue s)) s))
  ∧ yields (S (length (ready_queue s))) s = Some (with_blocked false s).
Proof.
  intros Hcur Hrq Hl.
  assert (∀ n, (0 < n)%nat →
               yields n s = Some (scheduled (rotate n (cur :: ready_queue s)) s))
    as Hn.
  { intros [|n] Hpos; [lia|]. cbn [yields].
    rewrite <- (gtthread_yield_blocked false s), <- (scheduled_eta s cur Hcur).
    change (yields (S n) (scheduled (cur :: ready_queue s) s)
            = Some (scheduled (rotate (S n) (cur :: ready_queue s)) s)).
    apply yields_scheduled; [|done].
    destruct (ready_queue s); [done|]. cbn. lia. }
  split; [done|].
  rewrite Hn by lia.
  change (S (length (ready_queue s))) with (length (cur :: ready_queue s)).
  by rewrite rotate_length_same, scheduled_eta.
Qed.

Lemma gtthread_yield_round_robin_witness :
  yields 3 two_children = Some (with_blocked false two_children).
Proof.
  destruct (gtthread_yield_round_robin two_children 0) as [_ H].
  - vm_compute. reflexivity.
  - vm_compute. discriminate.
  - repeat constructor; vm_compute; reflexivity.
  - exact H.
Defined.

(** * The handler and gtthread_yield *)

Lemma skip_cancelled_running rq next s d :
  threads s !! next = Some d → state d ≠ GTTHREAD_CANCEL →
  skip_cancelled rq next s = Ok next s.
Proof.
  intros Hd Hst. destruct rq; cbn [skip_cancelled]; rewrite run_deref, Hd;
    by destruct (state d).
Qed.

Lemma with_threads_fixed f i x s :
  threads s !! i = Some x → f x = x → with_threads (alter f i) s = s.
Proof.
  intros Hx Hf. destruct s. unfold with_threads. cbn in *.
  by rewrite (alter_fixed f i _ x).
Qed.

(** X15. On a ready queue whose head is a RUNNING descriptor the handler
    of SIGVTALRM does what gtthread_yield does: the two end in the same
    way and in the same state. *)
Theorem sigvtalrm_handler_as_yield s next rq dn :
  ready_queue s = next :: rq → threads s !! next = Some dn →
  state dn = GTTHREAD_RUNNING →
  sigvtalrm_handler s = erase (gtthread_yield s).
Proof.
  intros Hrq Hdn Hst.
  assert (set_state GTTHREAD_RUNNING dn = dn) as Hfix.
  { destruct dn. cbn in Hst. by rewrite Hst. }
  unfold sigvtalrm_handler, gtthread_yield. mrun.
  rewrite run_bind_case, (skip_cancelled_running rq next _ dn)
    by (by rewrite ?Hst).
  mrun. destruct (current s) as [cur|] eqn:Hcur; [|done]. mrun.
  rewrite with_threads_fixed with (x := dn) by done.
  mrun. rewrite ?(alter_fixed _ next (threads s) dn) by done.
  destruct (threads s !! cur) as [dc|] eqn:Hdc; [|done]. mrun.
  repeat first
    [ done
    | match goal with
      | |- context [live ?a ?b] => destruct (live a b) eqn:?
      | |- context [match ucp ?d with _ => _ end] => destruct (ucp d) eqn:?
      end ].
Qed.

Lemma sigvtalrm_handler_as_yield_witness :
  sigvtalrm_handler two_children = erase (gtthread_yield two_children).
Proof.
  apply (sigvtalrm_handler_as_yield two_children 1 [2%nat]
           (mk_thread 2 0 GTTHREAD_RUNNING 7 41 0 (Some 1%nat)));
    vm_compute; reflexivity.
Defined.

(** X16. gtthread_yield does not look at the state of the descriptor it
    pops: in a state the library reaches, when the head of the ready queue
    is a cancelled descriptor and the caller has a context record, the
    call makes the cancelled descriptor the current one, puts the caller
    at the tail of the ready queue, unblocks the signal and, swapcontext
    having refused the NULL context of the cancelled thread, returns 0:
    the caller goes on under the identity of the cancelled thread. *)
Theorem gtthread_yield_installs_cancelled s next rq cur cc :
  reachable s → ready_queue s = next :: rq →
  field state s next = Some GTTHREAD_CANCEL →
  current s = Some cur → field ucp s cur = Some (Some cc) →
  ∃ s' dn, gtthread_yield s = Ok 0 s'
           ∧ current s' = Some next
           ∧ ready_queue s' = rq ++ [cur]
           ∧ threads s' !! next = Some dn
           ∧ state dn = GTTHREAD_CANCEL ∧ ucp dn = None
           ∧ vtalrm_blocked s' = false
           ∧ gtthread_self s' = Ok (tid dn) s'.
Proof.
  intros Hs Hrq Hst Hcur Hcc.
  pose proof (reachable_consistent s Hs) as Hcons.
  pose proof (cancelled_no_context s next Hcons Hst) as Hucp.
  destruct (field_inv _ _ _ _ Hst) as (dn & Hdn & Hst').
  rewrite (field_Some _ _ _ dn Hdn) in Hucp. injection Hucp as Hucp.
  destruct (field_inv _ _ _ _ Hcc) as (dc & Hdc & Hcc').
  destruct (cons_context s Hcons cur cc Hcc) as [_ [u Hu]].
  eexists _, dn. split.
  - unfold gtthread_yield. mrun. rewrite Hucp.
    unfold live. msimpl. rewrite Hcc', Hu. reflexivity.
  - split_and!; try done. unfold gtthread_self. by mrun.
Qed.

Lemma gtthread_yield_installs_cancelled_witness :
  ∃ s' dn, gtthread_yield child_cancelled = Ok 0 s'
           ∧ current s' = Some 1%nat
           ∧ gtthread_self s' = Ok (tid dn) s'.
Proof.
  destruct (gtthread_yield_installs_cancelled child_cancelled 1 [] 0 0)
    as (s' & dn & Hrun & Hcur' & _ & _ & _ & _ & _ & Hself).
  - apply reachable_child_cancelled.
  - vm_compute. reflexivity.
  - vm_compute. reflexivity.
  - vm_compute. reflexivity.
  - vm_compute. reflexivity.
  - exists s', dn. split; [exact Hrun|]. split; [exact Hcur'|exact Hself].
Defined.

(** * Exit and the start routine *)

(** gtthread_exit by a thread that owns a context and a stack, with a
    descriptor at the head of the ready queue that owns another context. *)
Lemma exit_switch_run rv s prev next rq dp dn cp cn u un :
  current s = Some prev → ready_queue s = next :: rq → next ≠ prev →
  threads s !! prev = Some dp → threads s !! next = Some dn →
  ucp dp = Some cp → contexts s !! cp = Some (Some u) →
  (∀ b, ss_sp u = Some b → stacks s !! b = Some true) →
  ucp dn = Some cn → cn ≠ cp → contexts s !! cn = Some (Some un) →
  ∃ s', exit_switch rv s = Stop Installed s'.
Proof.
  intros Hcur Hrq Hne Hdp Hdn Hcp Hu Hstack Hcn Hcc Hun.
  unfold exit_switch. mrun. rewrite Hcp. mrun.
  destruct (ss_sp u) as [b|] eqn:Hb; mrun.
  - rewrite (Hstack b eq_refl). mrun. unfold live. rewrite Hcn. mrun.
    by eexists.
  - unfold live. rewrite Hcn. mrun. by eexists.
Qed.

(** gtthread_exit by a thread other than the initial one, with another
    descriptor that owns a context of its own at the head of the ready
    queue. *)
Lemma gtthread_exit_effect fuel rv s prev next rq dp dn cp cn u un :
  current s = Some prev → threads s !! prev = Some dp → tid dp ≠ 1 →
  ready_queue s = next :: rq → next ≠ prev → threads s !! next = Some dn →
  ucp dp = Some cp → contexts s !! cp = Some (Some u) →
  (∀ b, ss_sp u = Some b → stacks s !! b = Some true) →
  ucp dn = Some cn → cn ≠ cp → contexts s !! cn = Some (Some un) →
  ∃ s', gtthread_exit fuel rv s = Stop Installed s'
        ∧ current s' = Some next ∧ ready_queue s' = rq
        ∧ zombie_queue s' = zombie_queue s ++ [prev]
        ∧ threads s' !! prev
          = Some (mk_thread (tid dp) 0 GTTHREAD_DONE (proc dp) (arg dp) rv None)
        ∧ threads s' !! next = Some (set_state GTTHREAD_RUNNING dn)
        ∧ contexts s' = <[cp := None]> (contexts s)
        ∧ (∀ b, ss_sp u = Some b → stacks s' = <[b := false]> (stacks s))
        ∧ vtalrm_blocked s' = false.
Proof.
  intros Hcur Hdp Hinit Hrq Hne Hdn Hcp Hu Hstack Hcn Hcc Hun.
  rewrite gtthread_exit_unfold, Hrq, Hcur, Hdp.
  destruct (Z.eqb_spec (tid dp) 1) as [|_]; [done|].
  destruct (exit_switch_run rv (with_blocked true s) prev next rq dp dn cp cn
              u un) as [s' Hrun]; try done.
  exists s'. split; [done|].
  pose proof (exit_switch_spec rv (with_blocked true s)) as H.
  rewrite Hrun in H. msimpl.
  destruct H as (prev' & next' & rq' & dp' & dn' & cp' & cn' & u' & Hcur'
                 & Hrq' & _ & Hdp' & Hdn' & Hcp' & Hu' & _ & Hth & Hctx & Hstk
                 & Hrq2 & Hzq & Hcur2 & _ & _ & Hb).
  rewrite Hcur in Hcur'. injection Hcur' as <-.
  rewrite Hrq in Hrq'. injection Hrq' as <- <-.
  rewrite Hdp in Hdp'. injection Hdp' as <-.
  rewrite Hdn in Hdn'. injection Hdn' as <-.
  rewrite Hcp in Hcp'. injection Hcp' as <-.
  rewrite Hu in Hu'. injection Hu' as <-.
  split_and!; try done.
  - rewrite Hth, !list_lookup_alter_eq, list_lookup_alter_ne, Hdp by done.
    done.
  - by rewrite Hth, !list_lookup_alter_ne, list_lookup_alter_eq, Hdn by done.
  - intros b Hb'. by rewrite Hstk, Hb'.
Qed.

Lemma is_Some_tids s s' p :
  tid <$> threads s' = tid <$> threads s →
  is_Some (threads s !! p) → is_Some (threads s' !! p).
Proof.
  intros Ht Hp. apply (fmap_is_Some tid). rewrite <- list_lookup_fmap, Ht.
  rewrite list_lookup_fmap. by apply fmap_is_Some.
Qed.

Lemma blocked_deliver status d s :
  vtalrm_blocked (deliver status d s) = vtalrm_blocked s.
Proof. unfold deliver. by destruct (status =? 0). Qed.

(** What a thread hands to gtthread_exit is what a join on it stores. *)
Lemma exit_then_join fuel fuel' rv status s s' :
  tids_monotone s → queues_valid s →
  gtthread_exit fuel rv s = Stop Installed s' → status ≠ 0 →
  ∃ prev dp s'',
    current s = Some prev ∧ threads s !! prev = Some dp
    ∧ field state s' prev = Some GTTHREAD_DONE
    ∧ field retval s' prev = Some rv
    ∧ gtthread_join fuel' (tid dp) status s' = Ok 0 s''
    ∧ user_mem s'' = <[status := rv]> (user_mem s').
Proof.
  intros Hmono Hv Hrun Hstatus. apply gtthread_exit_installed in Hrun.
  pose proof (exit_switch_spec rv (with_blocked true s)) as H.
  rewrite Hrun in H. msimpl.
  destruct H as (prev & next & rq & dp & dn & cp & cn & u & Hcur & Hrq & Hne
                 & Hdp & Hdn & _ & _ & _ & Hth & _ & _ & Hrq' & Hzq & Hcur'
                 & _ & _ & _).
  set (d' := set_joining 0 (set_retval rv (set_state GTTHREAD_DONE
                                             (set_ucp None dp)))).
  assert (threads s' !! prev = Some d') as Hprev.
  { by rewrite Hth, !list_lookup_alter_eq, list_lookup_alter_ne, Hdp by done. }
  assert (threads s' !! next = Some (set_state GTTHREAD_RUNNING dn)) as Hnext.
  { by rewrite Hth, !list_lookup_alter_ne, list_lookup_alter_eq, Hdn by done. }
  assert (tid <$> threads s' = tid <$> threads s) as Htids.
  { rewrite Hth. by rewrite !fmap_alter_same by by intros []. }
  unfold queues_valid in Hv. rewrite Hrq in Hv.
  apply Forall_cons in Hv as [_ Hv].
  assert (queues_valid s') as Hv'.
  { unfold queues_valid. rewrite Hrq', Hzq, app_assoc, Forall_app. split.
    - eapply Forall_impl; [exact Hv|]. intros p. by apply is_Some_tids.
    - constructor; [by rewrite Hprev|constructor]. }
  assert (target_of s' (tid dp) = Some prev) as Ht.
  { unfold target_of. rewrite Hrq', Hzq. apply find_only.
    - rewrite !elem_of_app, list_elem_of_singleton. auto.
    - apply has_tid_true. exists d'. by split.
    - intros y _ Hy. rewrite (has_tid_ext s s') in Hy by done.
      apply has_tid_true in Hy as (d & Hd & Hid). by eapply tids_inj. }
  assert (tid dp ≠ tid dn) as Hother.
  { intros Heq. apply Hne. symmetry. by eapply tids_inj. }
  assert (0 < tid dn) as Hpos.
  { apply (tids_monotone_below s next); [done|]. unfold field. by rewrite Hdn. }
  exists prev, dp. eexists. unfold field. rewrite Hprev. split_and!; try done.
  - apply (gtthread_join_terminal fuel' (tid dp) status s' next
             (set_state GTTHREAD_RUNNING dn) prev d'); try done.
    + rewrite <- Ht. by apply thread_get_valid.
    + cbn. lia.
    + by right.
  - rewrite user_mem_deliver. by destruct (Z.eqb_spec status 0).
Qed.

(** X18. Exit, then join: in a state the library reaches, after a
    gtthread_exit that has switched to the next thread, the caller is DONE
    and a gtthread_join of the thread now running on the identity of the
    one that exited returns 0 at once and stores, through a status that is
    not NULL, the value that gtthread_exit was given. *)
Theorem gtthread_exit_then_join fuel fuel' rv status s s' :
  reachable s → gtthread_exit fuel rv s = Stop Installed s' → status ≠ 0 →
  ∃ prev dp s'',
    current s = Some prev ∧ threads s !! prev = Some dp
    ∧ field state s' prev = Some GTTHREAD_DONE
    ∧ field retval s' prev = Some rv
    ∧ gtthread_join fuel' (tid dp) status s' = Ok 0 s''
    ∧ user_mem s'' = <[status := rv]> (user_mem s').
Proof.
  intros Hs. apply exit_then_join.
  - by apply reachable_monotone.
  - by apply reachable_queues_valid.
Qed.

Lemma gtthread_exit_then_join_witness :
  ∃ s'', gtthread_join 1 2 300 (after (gtthread_exit 1 9) second_running)
         = Ok 0 s''
         ∧ user_mem s''
           = <[300 := 9]> (user_mem (after (gtthread_exit 1 9) second_running)).
Proof.
  destruct (gtthread_exit_then_join 1 1 9 300 second_running
              (after (gtthread_exit 1 9) second_running))
    as (prev & dp & s'' & Hcur & Hdp & _ & _ & Hjoin & Hmem).
  - apply reachable_second_running.
  - vm_compute. reflexivity.
  - done.
  - assert (prev = 1%nat) as ->.
    { assert (Some prev = Some 1%nat) as [= ->]; [|done].
      rewrite <- Hcur. vm_compute. reflexivity. }
    assert (dp = mk_thread 2 0 GTTHREAD_RUNNING 7 41 0 (Some 1%nat)) as ->.
    { assert (Some dp
              = Some (mk_thread 2 0 GTTHREAD_RUNNING 7 41 0 (Some 1%nat)))
        as [= ->]; [|done].
      rewrite <- Hdp. vm_compute. reflexivity. }
    exists s''. split; [exact Hjoin|exact Hmem].
Defined.

(** X19. gtthread_start: before the start routine runs the wrapper
    unblocks the signal; when the routine has returned [v], the wrapper
    stores [v] in the retval of the running thread and calls gtthread_exit
    with it, so that, in a state the library reaches, after the switch to
    the next thread the thread is DONE and a join on its identity stores
    [v]. *)
Theorem gtthread_start_hands_over fuel fuel' v status s s' :
  reachable s → gtthread_start_return fuel v s = Stop Installed s' →
  status ≠ 0 →
  gtthread_start_enter s = Ok tt (with_blocked false s)
  ∧ ∃ cur c s'',
      current s = Some cur ∧ threads s !! cur = Some c
      ∧ gtthread_start_return fuel v s
        = gtthread_exit fuel v (with_threads (alter (set_retval v) cur) s)
      ∧ field state s' cur = Some GTTHREAD_DONE
      ∧ field retval s' cur = Some v
      ∧ gtthread_join fuel' (tid c) status s' = Ok 0 s''
      ∧ user_mem s'' = <[status := v]> (user_mem s').
Proof.
  intros Hs Hrun Hstatus. split; [done|].
  destruct (reachable_current s Hs) as (cur & c & Hcur & Hc & _).
  assert (gtthread_start_return fuel v s
          = gtthread_exit fuel v (with_threads (alter (set_retval v) cur) s))
    as Hunfold.
  { unfold gtthread_start_return. by mrun. }
  rewrite Hunfold in Hrun.
  destruct (exit_then_join fuel fuel' v status
              (with_threads (alter (set_retval v) cur) s) s')
    as (prev & dp & s'' & Hcur' & Hdp & Hst & Hrv & Hjoin & Hmem); try done.
  - unfold tids_monotone. msimpl. rewrite fmap_alter_same by by intros [].
    by apply reachable_monotone.
  - pose proof (reachable_queues_valid s Hs) as Hv.
    unfold queues_valid in *. msimpl. eapply Forall_impl; [exact Hv|].
    intros p Hp. apply lookup_lt_is_Some. rewrite length_alter.
    by apply lookup_lt_is_Some.
  - msimpl. rewrite Hcur in Hcur'. injection Hcur' as <-.
    rewrite list_lookup_alter_eq, Hc in Hdp. injection Hdp as <-.
    exists cur, c, s''. split_and!; done.
Qed.

Lemma gtthread_start_hands_over_witness :
  ∃ cur c s'',
    current second_running = Some cur ∧ threads second_running !! cur = Some c
    ∧ gtthread_join 1 (tid c) 300
        (after (gtthread_start_return 1 9) second_running) = Ok 0 s''
    ∧ user_mem s''
      = <[300 := 9]> (user_mem (after (gtthread_start_return 1 9) second_running)).
Proof.
  destruct (gtthread_start_hands_over 1 1 9 300 second_running
              (after (gtthread_start_return 1 9) second_running))
    as (_ & cur & c & s'' & Hcur & Hc & _ & _ & _ & Hjoin & Hmem).
  - apply reachable_second_running.
  - vm_compute. reflexivity.
  - done.
  - exists cur, c, s''. split; [exact Hcur|]. split; [exact Hc|].
    split; [exact Hjoin|exact Hmem].
Defined.

(** * Join and the signal mask *)

Lemma join_wait_terminal fuel t status s d :
  threads s !! t = Some d → terminal (state d) →
  join_wait fuel t status s = Ok 0 (deliver status d s).
Proof.
  intros Hd Hst. rewrite <- (join_finish_terminal t status s d Hd Hst).
  destruct fuel; cbn [join_wait]; rewrite run_deref, Hd;
    by destruct Hst as [-> | ->].
Qed.

(** X20. gtthread_join and the signal mask: a call that returns without
    having waited leaves the mask as it found it; a call that has waited
    returns only when, going on after line 186, it finds the target
    terminal, and then it returns 0 with SIGVTALRM blocked, having stored
    the result and nothing else; and it does return then. *)
Theorem gtthread_join_mask fuel thread t status s :
  (∀ v s', gtthread_join fuel thread status s = Ok v s' →
           vtalrm_blocked s' = vtalrm_blocked s)
  ∧ (∀ v s', gtthread_join_resume fuel t status s = Ok v s' →
             v = 0 ∧ vtalrm_blocked s' = true
             ∧ ∃ d, threads s !! t = Some d ∧ terminal (state d)
                    ∧ s' = deliver status d (with_blocked true s))
  ∧ (∀ d, threads s !! t = Some d → terminal (state d) →
          gtthread_join_resume fuel t status s
          = Ok 0 (deliver status d (with_blocked true s))).
Proof.
  split_and!.
  - intros v s' Hrun. pose proof (gtthread_join_spec fuel thread status s) as H.
    rewrite Hrun in H.
    destruct H as (cur & c & _ & _ & [(_ & -> & _)|(_ & _ & H)]); [done|].
    destruct H as (t' & d & _ & _ & _ & _ & _ & ->).
    by rewrite blocked_deliver.
  - intros v s' Hrun.
    pose proof (gtthread_join_resume_spec fuel t status s) as H.
    rewrite Hrun in H. destruct H as (-> & d & Hd & Hst & ->).
    split_and!; [done|by rewrite blocked_deliver|by exists d].
  - intros d Hd Hst. unfold gtthread_join_resume. rewrite run_sigprocmask.
    by apply join_wait_terminal.
Qed.

Lemma gtthread_join_mask_witness :
  ∃ d, gtthread_join_resume 1 2 200 third_cancelled
       = Ok 0 (deliver 200 d (with_blocked true third_cancelled)).
Proof.
  destruct (gtthread_join_mask 1 3 2 200 third_cancelled) as (_ & _ & H).
  eexists. apply H.
  - vm_compute. reflexivity.
  - left. reflexivity.
Defined.
(** * Calls in the states the library reaches *)

(** A descriptor that has a context record is RUNNING and equipped. *)
Lemma consistent_equipped s p c :
  consistent s → field ucp s p = Some (Some c) →
  field state s p = Some GTTHREAD_RUNNING ∧ equipped s p.
Proof.
  intros Hs Hp. destruct (cons_context s Hs p c Hp) as [Hst [u Hu]].
  split; [done|]. exists c, u. split_and!; try done.
  intros b Hb. by apply (cons_stack_live s Hs c u b).
Qed.

Lemma equipped_runnable s p : equipped s p → runnable s p = true.
Proof.
  intros (c & u & Hp & Hc & _). unfold runnable, field in *.
  destruct (threads s !! p) as [d|]; [|done]. cbn in Hp. injection Hp as Hp.
  unfold live. by rewrite Hp, Hc.
Qed.

(** A descriptor of the ready queue is cancelled, or RUNNING and
    equipped. *)
Lemma ready_equipped s p :
  consistent s → p ∈ ready_queue s →
  field state s p = Some GTTHREAD_CANCEL
  ∨ (field state s p = Some GTTHREAD_RUNNING ∧ equipped s p).
Proof.
  intros Hs Hp. destruct (cons_ready s Hs p Hp) as [H|[c Hc]]; [by left|].
  right. by apply (consistent_equipped s p c).
Qed.

(** The ready queue is made of cancelled descriptors, up to the first
    that is running, if there is one. *)
Lemma ready_split s :
  consistent s →
  Forall (fun p => field state s p = Some GTTHREAD_CANCEL) (ready_queue s)
  ∨ ∃ pre n rest,
      ready_queue s = pre ++ n :: rest
      ∧ Forall (fun p => field state s p = Some GTTHREAD_CANCEL) pre
      ∧ field state s n = Some GTTHREAD_RUNNING ∧ equipped s n.
Proof.
  intros Hs.
  assert (∀ p, p ∈ ready_queue s →
               field state s p = Some GTTHREAD_CANCEL
               ∨ (field state s p = Some GTTHREAD_RUNNING ∧ equipped s p)) as H.
  { intros p. by apply ready_equipped. }
  induction (ready_queue s) as [|x l IH]; [by left|].
  destruct (H x) as [Hx|[Hx Hex]]; [set_solver| |].
  - destruct IH as [IH|(pre & n & rest & -> & Hpre & Hn)].
    + intros p Hp. apply H. set_solver.
    + left. by constructor.
    + right. exists (x :: pre), n, rest.
      split; [done|]. split; [by constructor|done].
  - right. by exists [], x, l.
Qed.

(** The handler, called by a thread that has a context record, switches
    to the first descriptor of the ready queue that is not cancelled. *)
Lemma sigvtalrm_handler_safe s cur cc pre n rest :
  consistent s → current s = Some cur → field ucp s cur = Some (Some cc) →
  ready_queue s = pre ++ n :: rest →
  Forall (fun p => field state s p = Some GTTHREAD_CANCEL) pre →
  field state s n = Some GTTHREAD_RUNNING →
  sigvtalrm_handler s =
  Stop Switched
    (with_blocked false
       (with_current (Some n)
          (with_ready (rest ++ [cur])
             (with_zombie (zombie_queue s ++ pre) s)))).
Proof.
  intros Hcons Hcur Hcc Hrq Hpre Hst.
  destruct (consistent_equipped s cur cc Hcons Hcc) as [_ Hec].
  destruct (ready_equipped s n Hcons) as [?|[_ Heq]]; [|congruence|].
  { rewrite Hrq. set_solver. }
  pose proof (equipped_runnable _ _ Heq) as Hrn.
  pose proof (equipped_runnable _ _ Hec) as Hrc.
  unfold runnable, field in *.
  destruct (threads s !! n) as [d|] eqn:Hd; [|done].
  destruct (threads s !! cur) as [dc|] eqn:Hdc; [|done].
  injection Hst as Hst.
  rewrite (sigvtalrm_handler_dispatch s pre n rest cur d dc); try done.
  2: { by rewrite Hst. }
  rewrite (with_threads_fixed (set_state GTTHREAD_RUNNING) n d); try done.
  destruct d. cbn in *. by rewrite Hst.
Qed.

(** Called by a descriptor that has no context record, it faults when it
    saves the caller's context (line 380). *)
Lemma sigvtalrm_handler_faults s cur pre n rest :
  current s = Some cur → field ucp s cur = Some None →
  ready_queue s = pre ++ n :: rest →
  Forall (fun p => field state s p = Some GTTHREAD_CANCEL) pre →
  field state s n = Some GTTHREAD_RUNNING →
  ∃ s', sigvtalrm_handler s = Stop Fault s'.
Proof.
  intros Hcur Hcc Hrq Hpre Hst.
  destruct (field_inv _ _ _ _ Hcc) as (dc & Hdc & Hnone).
  destruct (field_inv _ _ _ _ Hst) as (d & Hd & Hrun).
  unfold sigvtalrm_handler. mrun.
  destruct (pre ++ n :: rest) as [|next0 rq] eqn:Hsplit; [by destruct pre|].
  mrun. rewrite run_bind_case.
  rewrite (skip_cancelled_run pre rq next0 _ n rest d); try done.
  2: { by rewrite Hrun. }
  mrun. destruct (decide (n = cur)) as [->|Hne]; heap.
  - replace dc with d in * by congruence. mrun. rewrite Hnone. cbn [live].
    by eexists.
  - mrun. rewrite Hnone. cbn [live]. by eexists.
Qed.

(** X17. In a state the library reaches, gtthread_exit by a thread other
    than the initial one that has a context record, when the head of the
    ready queue is a RUNNING descriptor, does not fault and does not
    return: it makes the head the current descriptor, releases the
    caller's stack and context record and sets its ucp to NULL, marks the
    caller DONE with the value it was given and joining 0, appends it to
    the zombie queue, unblocks the signal and installs the context of the
    new current descriptor.  A caller that has no context record (a
    cancelled descriptor that gtthread_yield or gtthread_exit has made
    the current one) faults at line 233. *)
Theorem gtthread_exit_installs fuel rv s cur c next rq :
  reachable s → current s = Some cur → threads s !! cur = Some c →
  tid c ≠ 1 → ready_queue s = next :: rq →
  field state s next = Some GTTHREAD_RUNNING →
  (∀ cp, ucp c = Some cp →
     ∃ s' u,
       contexts s !! cp = Some (Some u)
       ∧ gtthread_exit fuel rv s = Stop Installed s'
       ∧ current s' = Some next ∧ ready_queue s' = rq
       ∧ zombie_queue s' = zombie_queue s ++ [cur]
       ∧ threads s' !! cur
         = Some (mk_thread (tid c) 0 GTTHREAD_DONE (proc c) (arg c) rv None)
       ∧ threads s' !! next = threads s !! next
       ∧ contexts s' = <[cp := None]> (contexts s)
       ∧ (∀ b, ss_sp u = Some b → stacks s' = <[b := false]> (stacks s))
       ∧ vtalrm_blocked s' = false)
  ∧ (ucp c = None → ∃ s', gtthread_exit fuel rv s = Stop Fault s').
Proof.
  intros Hs Hcur Hc Hinit Hrq Hst.
  pose proof (reachable_consistent s Hs) as Hcons.
  pose proof (cons_nodup s Hcons) as Hnd. unfold current_list in Hnd.
  rewrite Hcur, Hrq in Hnd. apply NoDup_cons in Hnd as [Hne _].
  assert (next ≠ cur) as Hne' by set_solver.
  destruct (field_inv _ _ _ _ Hst) as (dn & Hdn & Hst').
  split.
  - intros cp Hcp.
    assert (field ucp s cur = Some (Some cp)) as Hfcp
      by by rewrite (field_Some _ _ _ c), Hcp.
    destruct (consistent_equipped s cur cp Hcons Hfcp)
      as (_ & cp' & u & Hcp' & Hu & Hstack).
    rewrite Hfcp in Hcp'. injection Hcp' as <-.
    destruct (ready_equipped s next Hcons)
      as [Hcan|(_ & cn & un & Hcn & Hun & _)]; [|congruence|].
    { rewrite Hrq. set_solver. }
    assert (cn ≠ cp) as Hcc
      by (intros ->; by apply Hne', (cons_ctx s Hcons next cur cp)).
    rewrite (field_Some _ _ _ dn Hdn) in Hcn. injection Hcn as Hcn.
    destruct (gtthread_exit_effect fuel rv s cur next rq c dn cp cn u un)
      as (s' & Hrun & H1 & H2 & H3 & H4 & H5 & H6 & H7 & H8); try done.
    exists s', u. split_and!; try done.
    rewrite H5, Hdn. f_equal. destruct dn. cbn in *. by rewrite Hst'.
  - intros Hnone. rewrite gtthread_exit_unfold, Hrq, Hcur, Hc.
    destruct (Z.eqb_spec (tid c) 1) as [|_]; [done|].
    unfold exit_switch. mrun. rewrite Hnone. by eexists.
Qed.

Lemma gtthread_exit_installs_witness :
  ∃ s', gtthread_exit 1 9 second_running = Stop Installed s'
        ∧ current s' = Some 2%nat
        ∧ zombie_queue s' = zombie_queue second_running ++ [1%nat].
Proof.
  destruct (gtthread_exit_installs 1 9 second_running 1
              (mk_thread 2 0 GTTHREAD_RUNNING 7 41 0 (Some 1%nat)) 2 [0%nat])
    as [H _].
  - apply reachable_second_running.
  - vm_compute. reflexivity.
  - vm_compute. reflexivity.
  - cbn. lia.
  - vm_compute. reflexivity.
  - vm_compute. reflexivity.
  - destruct (H 1%nat eq_refl) as (s' & u & _ & Hrun & Hcur & _ & Hzq & _).
    exists s'. split; [exact Hrun|]. split; [exact Hcur|exact Hzq].
Defined.

(** gtthread_join on a RUNNING thread, in a state the library reaches, by
    a caller that has a context record. *)
Lemma join_switches_run fuel thread status s cur c cc t d :
  reachable s → current s = Some cur → threads s !! cur = Some c →
  ucp c = Some cc →
  thread ≠ tid c → target_of s thread = Some t → threads s !! t = Some d →
  joining d ≠ tid c → state d = GTTHREAD_RUNNING →
  ∃ s' rest,
    gtthread_join (S fuel) thread status s = Stop Switched s'
    ∧ sigvtalrm_handler
        (with_blocked false
           (with_threads (alter (set_joining (tid d)) cur) s))
      = Stop Switched s'
    ∧ field joining s' cur = Some thread
    ∧ ready_queue s' = rest ++ [cur]
    ∧ vtalrm_blocked s' = false.
Proof.
  intros Hs Hcur Hc Hcc Hother Ht Hd Hj Hst.
  pose proof (reachable_consistent s Hs) as Hcons.
  pose proof (reachable_queues_valid s Hs) as Hv.
  destruct (target_of_Some _ _ _ Ht) as (Hin & d' & Hd' & Htid).
  rewrite Hd in Hd'. injection Hd' as <-.
  assert (t ≠ cur) as Htc by (intros ->; congruence).
  assert (t ∈ ready_queue s) as Hready.
  { apply elem_of_app in Hin as [|Hz]; [done|].
    destruct (cons_zombie s Hcons t Hz) as [_ [H|[H|H]]].
    - rewrite (field_Some _ _ _ d Hd) in H. congruence.
    - rewrite (field_Some _ _ _ d Hd) in H. congruence.
    - congruence. }
  set (s1 := with_blocked false
               (with_threads (alter (set_joining (tid d)) cur) s)).
  assert (consistent s1) as Hcons1.
  { by apply consistent_blocked, consistent_alter. }
  assert (field state s1 t = Some GTTHREAD_RUNNING) as Hst1.
  { unfold s1. rewrite <- Hst. unfold field. msimpl.
    rewrite lookup_alter_keep by done. by rewrite Hd. }
  assert (field ucp s1 cur = Some (Some cc)) as Hcc1.
  { unfold s1. rewrite <- Hcc. unfold field. msimpl.
    rewrite lookup_alter_keep by done. by rewrite Hc. }
  destruct (ready_split s1 Hcons1)
    as [Hall|(pre & n & rest & Hrq & Hpre & Hn & Heq)].
  { rewrite Forall_forall in Hall. specialize (Hall t Hready). congruence. }
  pose proof (sigvtalrm_handler_safe s1 cur cc pre n rest Hcons1 Hcur Hcc1 Hrq
                Hpre Hn) as Hsafe.
  eexists. exists rest. split_and!; [|exact Hsafe|..]; try done.
  - unfold gtthread_join. rewrite run_get_current, Hcur, run_deref, Hc.
    destruct (Z.eqb_spec thread (tid c)) as [|_]; [done|].
    rewrite run_bind_case, thread_get_valid, Ht by done.
    rewrite run_deref, Hd.
    destruct (Z.eqb_spec (joining d) (tid c)) as [|_]; [done|].
    rewrite run_store, Hc.
    destruct (field_inv _ _ _ _ Hst1) as (d1 & Hd1 & Hrun1).
    rewrite (join_wait_running fuel t status _ d1) by done.
    fold s1. by rewrite Hsafe.
  - unfold field, s1. msimpl. rewrite list_lookup_alter_eq, Hc. cbn.
    by rewrite Htid.
Qed.

(** X21. In a state the library reaches, gtthread_join on a RUNNING
    thread, by a caller that has a context record, does not return and
    does not fault: it records the identity of the target in the caller's
    joining field, unblocks the signal and ends as the handler of SIGVTALRM
    ends, by a switch to the first thread of the ready queue that is not
    cancelled, with the caller at the tail of the ready queue. *)
Theorem gtthread_join_switches fuel thread status s cur c cc t d :
  reachable s → current s = Some cur → threads s !! cur = Some c →
  ucp c = Some cc →
  thread ≠ tid c → target_of s thread = Some t → threads s !! t = Some d →
  joining d ≠ tid c → state d = GTTHREAD_RUNNING →
  ∃ s' rest,
    gtthread_join (S fuel) thread status s = Stop Switched s'
    ∧ sigvtalrm_handler
        (with_blocked false
           (with_threads (alter (set_joining (tid d)) cur) s))
      = Stop Switched s'
    ∧ field joining s' cur = Some thread
    ∧ ready_queue s' = rest ++ [cur]
    ∧ vtalrm_blocked s' = false.
Proof. apply join_switches_run. Qed.

Lemma gtthread_join_switches_witness :
  ∃ s', gtthread_join 1 3 0 two_children = Stop Switched s'
        ∧ field joining s' 0 = Some 3.
Proof.
  destruct (gtthread_join_switches 0 3 0 two_children 0
              (mk_thread 1 0 GTTHREAD_RUNNING 0 0 0 (Some 0%nat)) 0 2
              (mk_thread 3 0 GTTHREAD_RUNNING 8 42 0 (Some 2%nat)))
    as (s' & rest & Hrun & _ & Hj & _).
  - apply reachable_two_children.
  - vm_compute. reflexivity.
  - vm_compute. reflexivity.
  - reflexivity.
  - cbn. lia.
  - vm_compute. reflexivity.
  - vm_compute. reflexivity.
  - cbn. lia.
  - reflexivity.
  - exists s'. split; [exact Hrun|exact Hj].
Defined.

(** X22. Who owns what, in every state the library reaches: a descriptor
    that has a context record is RUNNING, and the record and its stack are
    in use; a descriptor that is DONE or cancelled has none; a descriptor
    of the ready queue is cancelled, or RUNNING with a context record; a
    descriptor of the zombie queue has no context record, and is DONE or
    cancelled unless it is the current one; the current descriptor is not
    in the ready queue; no two descriptors point to the same context
    record and no two context records in use to the same stack. *)
Theorem reachable_ownership s :
  reachable s →
  (∀ p c, field ucp s p = Some (Some c) →
          field state s p = Some GTTHREAD_RUNNING ∧ equipped s p)
  ∧ (∀ p, field state s p = Some GTTHREAD_CANCEL
          ∨ field state s p = Some GTTHREAD_DONE →
          field ucp s p = Some None)
  ∧ (∀ p, p ∈ ready_queue s →
          field state s p = Some GTTHREAD_CANCEL
          ∨ (field state s p = Some GTTHREAD_RUNNING ∧ equipped s p))
  ∧ (∀ p, p ∈ zombie_queue s →
          field ucp s p = Some None
          ∧ (field state s p = Some GTTHREAD_CANCEL
             ∨ field state s p = Some GTTHREAD_DONE
             ∨ current s = Some p))
  ∧ (∀ p, current s = Some p → p ∉ ready_queue s)
  ∧ (∀ p q c, field ucp s p = Some (Some c) → field ucp s q = Some (Some c) →
              p = q)
  ∧ (∀ c1 c2 u1 u2 b,
       contexts s !! c1 = Some (Some u1) → contexts s !! c2 = Some (Some u2) →
       ss_sp u1 = Some b → ss_sp u2 = Some b → c1 = c2).
Proof.
  intros Hs. pose proof (reachable_consistent s Hs) as Hcons.
  split_and!.
  - intros p c. by apply consistent_equipped.
  - intros p Hst.
    assert (∃ d, threads s !! p = Some d ∧ state d ≠ GTTHREAD_RUNNING)
      as (d & Hd & Hnr).
    { destruct Hst as [(d & Hd & Hst)%field_inv|(d & Hd & Hst)%field_inv];
        exists d; split; congruence. }
    rewrite (field_Some _ _ _ d Hd). destruct (ucp d) as [c|] eqn:Hc; [|done].
    assert (field ucp s p = Some (Some c)) as H
      by by rewrite (field_Some _ _ _ d Hd), Hc.
    apply (cons_context s Hcons) in H as [H _].
    rewrite (field_Some _ _ _ d Hd) in H. congruence.
  - intros p. by apply ready_equipped.
  - apply (cons_zombie s Hcons).
  - by destruct (consistent_apart s Hcons).
  - apply (cons_ctx s Hcons).
  - apply (cons_stack s Hcons).
Qed.

Lemma reachable_ownership_witness :
  field ucp cancelled_current 1 = Some None
  ∧ (field state cancelled_current 1 = Some GTTHREAD_CANCEL
     ∨ field state cancelled_current 1 = Some GTTHREAD_DONE
     ∨ current cancelled_current = Some 1%nat).
Proof.
  destruct (reachable_ownership cancelled_current) as (_ & _ & _ & H & _).
  - apply reachable_cancelled_current.
  - apply H. apply list_elem_of_In. vm_compute. tauto.
Defined.

(** X23. In a state the library reaches, gtthread_yield with a RUNNING
    descriptor at the head of the ready queue, called by a thread that has
    a context record, does not fault: it switches to that descriptor, with
    the caller at the tail of the ready queue and the signal unblocked,
    and changes nothing else.  A caller that has no context record (a
    cancelled descriptor that gtthread_yield or gtthread_exit has made
    the current one) faults in swapcontext. *)
Theorem gtthread_yield_switches s next rq cur :
  reachable s → ready_queue s = next :: rq →
  field state s next = Some GTTHREAD_RUNNING → current s = Some cur →
  (∀ cc, field ucp s cur = Some (Some cc) →
     gtthread_yield s =
     Stop Switched
       (with_blocked false
          (with_current (Some next) (with_ready (rq ++ [cur]) s))))
  ∧ (field ucp s cur = Some None → ∃ s', gtthread_yield s = Stop Fault s').
Proof.
  intros Hs Hrq Hst Hcur.
  pose proof (reachable_consistent s Hs) as Hcons. split.
  - intros cc Hcc.
    destruct (consistent_equipped s cur cc Hcons Hcc) as [_ Hec].
    destruct (ready_equipped s next Hcons) as [|[_ Hen]]; [|congruence|].
    { rewrite Hrq. set_solver. }
    apply gtthread_yield_switch; try done; by apply equipped_runnable.
  - intros (dc & Hdc & Hnone)%field_inv.
    destruct (field_inv _ _ _ _ Hst) as (dn & Hdn & _).
    unfold gtthread_yield. mrun. rewrite Hnone. cbn [live]. by eexists.
Qed.

Lemma gtthread_yield_switches_witness :
  gtthread_yield two_children =
  Stop Switched
    (with_blocked false
       (with_current (Some 1%nat)
          (with_ready ([2%nat] ++ [0%nat]) two_children))).
Proof.
  destruct (gtthread_yield_switches two_children 1 [2%nat] 0) as [H _].
  - apply reachable_two_children.
  - vm_compute. reflexivity.
  - vm_compute. reflexivity.
  - vm_compute. reflexivity.
  - apply (H 0%nat). vm_compute. reflexivity.
Defined.

(** X24. All the handler of SIGVTALRM does in a state the library
    reaches.  It returns, with the signal blocked, when the ready queue is
    empty; when the ready queue holds cancelled descriptors only it moves
    them all to the zombie queue and pops the empty queue; else it moves
    the cancelled descriptors before the first RUNNING one to the zombie
    queue, puts the outgoing thread at the tail of the ready queue and
    switches to that RUNNING descriptor, when the caller has a context
    record, and faults in swapcontext when it has none (the caller is a
    cancelled descriptor that gtthread_yield or gtthread_exit has made
    the current one). *)
Theorem sigvtalrm_handler_outcome s cur :
  reachable s → current s = Some cur →
  (ready_queue s = [] ∧ sigvtalrm_handler s = Ok tt (with_blocked true s))
  ∨ (ready_queue s ≠ []
     ∧ Forall (fun p => field state s p = Some GTTHREAD_CANCEL) (ready_queue s)
     ∧ sigvtalrm_handler s =
       Stop Underflow
         (with_ready [] (with_zombie (zombie_queue s ++ ready_queue s)
                           (with_blocked true s))))
  ∨ (∃ pre n rest,
       ready_queue s = pre ++ n :: rest
       ∧ Forall (fun p => field state s p = Some GTTHREAD_CANCEL) pre
       ∧ field state s n = Some GTTHREAD_RUNNING
       ∧ (((∃ cc, field ucp s cur = Some (Some cc))
           ∧ sigvtalrm_handler s =
             Stop Switched
               (with_blocked false
                  (with_current (Some n)
                     (with_ready (rest ++ [cur])
                        (with_zombie (zombie_queue s ++ pre) s)))))
          ∨ (field ucp s cur = Some None
             ∧ ∃ s', sigvtalrm_handler s = Stop Fault s'))).
Proof.
  intros Hs Hcur. pose proof (reachable_consistent s Hs) as Hcons.
  destruct (ready_queue s) as [|x l] eqn:Hrq.
  { left. split; [done|]. by apply sigvtalrm_handler_empty. }
  right. destruct (ready_split s Hcons)
    as [Hall|(pre & n & rest & Hrq' & Hpre & Hn & Heq)].
  - left. rewrite <- Hrq. split_and!.
    + by rewrite Hrq.
    + done.
    + apply sigvtalrm_handler_underflow; [by rewrite Hrq|done].
  - right. exists pre, n, rest. rewrite <- Hrq. split_and!; try done.
    destruct (reachable_current s Hs) as (cur' & c & Hcur' & Hc & _).
    rewrite Hcur in Hcur'. injection Hcur' as <-.
    destruct (ucp c) as [cc|] eqn:Hcc.
    + left. assert (field ucp s cur = Some (Some cc)) as Hf
        by by rewrite (field_Some _ _ _ c), Hcc.
      split; [by exists cc|]. by apply (sigvtalrm_handler_safe s cur cc).
    + right. assert (field ucp s cur = Some None) as Hf
        by by rewrite (field_Some _ _ _ c), Hcc.
      split; [done|]. by apply (sigvtalrm_handler_faults s cur pre n rest).
Qed.

Lemma sigvtalrm_handler_outcome_witness :
  ∃ s', sigvtalrm_handler two_children = Stop Switched s'.
Proof.
  destruct (sigvtalrm_handler_outcome two_children 0 reachable_two_children)
    as [[H _]|[(_ & _ & H)|(pre & n & rest & _ & _ & _ & [[_ H]|[H _]])]].
  - vm_compute. reflexivity.
  - vm_compute in H. discriminate H.
  - vm_compute in H. discriminate H.
  - eexists. exact H.
  - vm_compute in H. discriminate H.
Defined.

(** X25. In a state the library reaches, gtthread_cancel on an identity
    other than the caller's does not fault: it returns 0 when thread_get
    finds a RUNNING descriptor for the identity, and -1, with nothing
    changed but the signal unblocked, when it finds none or one that is
    DONE or cancelled. *)
Theorem gtthread_cancel_returns fuel thread s cur c :
  reachable s → current s = Some cur → threads s !! cur = Some c →
  tid c ≠ thread →
  (∃ t s', target_of s thread = Some t
           ∧ field state s t = Some GTTHREAD_RUNNING
           ∧ gtthread_cancel fuel thread s = Ok 0 s')
  ∨ ((target_of s thread = None
      ∨ ∃ t, target_of s thread = Some t
             ∧ (field state s t = Some GTTHREAD_CANCEL
                ∨ field state s t = Some GTTHREAD_DONE))
     ∧ gtthread_cancel fuel thread s = Ok (-1) (with_blocked false s)).
Proof.
  intros Hs Hcur Hc Hother.
  pose proof (reachable_consistent s Hs) as Hcons.
  pose proof (reachable_queues_valid s Hs) as Hv.
  destruct (target_of s thread) as [t|] eqn:Ht.
  2: { right. split; [by left|].
       apply (gtthread_cancel_refused fuel thread s cur c); auto. }
  destruct (target_of_Some _ _ _ Ht) as (Hin & d & Hd & Htid).
  assert (t ≠ cur) as Htc by (intros ->; congruence).
  destruct (state d) eqn:Hst.
  - left.
    assert (equipped s t) as (cp & u & Hcp & Hu & Hstack).
    { apply elem_of_app in Hin as [Hr|Hz].
      - destruct (ready_equipped s t Hcons Hr) as [Hx|[_ ?]]; [|done].
        rewrite (field_Some _ _ _ d Hd) in Hx. congruence.
      - destruct (cons_zombie s Hcons t Hz) as [_ [H|[H|H]]].
        + rewrite (field_Some _ _ _ d Hd) in H. congruence.
        + rewrite (field_Some _ _ _ d Hd) in H. congruence.
        + congruence. }
    rewrite (field_Some _ _ _ d Hd) in Hcp. injection Hcp as Hcp.
    destruct (gtthread_cancel_run fuel thread s cur c t d cp u)
      as (s' & Hrun & _); try done.
    exists t, s'. unfold field. rewrite Hd. cbn. by rewrite Hst.
  - right. split.
    + right. exists t. split; [done|]. left. unfold field.
      rewrite Hd. cbn. by rewrite Hst.
    + apply (gtthread_cancel_refused fuel thread s cur c); try done.
      right. exists t, d. split_and!; try done. left. done.
  - right. split.
    + right. exists t. split; [done|]. right. unfold field.
      rewrite Hd. cbn. by rewrite Hst.
    + apply (gtthread_cancel_refused fuel thread s cur c); try done.
      right. exists t, d. split_and!; try done. right. done.
Qed.

Lemma gtthread_cancel_returns_witness :
  ∃ v s', gtthread_cancel 1 3 second_running = Ok v s'.
Proof.
  destruct (gtthread_cancel_returns 1 3 second_running 1
              (mk_thread 2 0 GTTHREAD_RUNNING 7 41 0 (Some 1%nat)))
    as [(t & s' & _ & _ & H)|[_ H]].
  - apply reachable_second_running.
  - vm_compute. reflexivity.
  - vm_compute. reflexivity.
  - cbn. lia.
  - exists 0, s'. exact H.
  - eexists _, _. exact H.
Defined.

(** X26. In a state the library reaches gtthread_join, called by a thread
    that has a context record, does not fault and does not pop an empty
    queue: it returns -1 and changes nothing, or returns 0, or switches to
    another thread. *)
Theorem gtthread_join_outcome fuel thread status s cur cc :
  reachable s → current s = Some cur → field ucp s cur = Some (Some cc) →
  gtthread_join (S fuel) thread status s = Ok (-1) s
  ∨ (∃ s', gtthread_join (S fuel) thread status s = Ok 0 s')
  ∨ (∃ s', gtthread_join (S fuel) thread status s = Stop Switched s').
Proof.
  intros Hs Hcur Hcc. destruct (field_inv _ _ _ _ Hcc) as (c & Hc & Hucp).
  pose proof (reachable_queues_valid s Hs) as Hv.
  destruct (decide (thread = tid c)) as [Hself|Hother].
  { left. apply (gtthread_join_refused _ _ _ s cur c); auto. }
  destruct (target_of s thread) as [t|] eqn:Ht.
  2: { left. apply (gtthread_join_refused _ _ _ s cur c); try done.
       right. left. by apply target_of_None. }
  destruct (target_of_Some _ _ _ Ht) as (_ & d & Hd & _).
  destruct (decide (joining d = tid c)) as [Hrec|Hj].
  { left. apply (gtthread_join_refused _ _ _ s cur c); try done.
    right. right. by exists t, d. }
  destruct (state d) eqn:Hst.
  - right. right.
    destruct (join_switches_run fuel thread status s cur c cc t d)
      as (s' & _ & Hrun & _); try done. by exists s'.
  - right. left. eexists.
    apply (gtthread_join_terminal _ _ _ s cur c t d); try done.
    + rewrite <- Ht. by apply thread_get_valid.
    + by left.
  - right. left. eexists.
    apply (gtthread_join_terminal _ _ _ s cur c t d); try done.
    + rewrite <- Ht. by apply thread_get_valid.
    + by right.
Qed.

Lemma gtthread_join_outcome_witness :
  gtthread_join 1 3 200 second_running = Ok (-1) second_running
  ∨ (∃ s', gtthread_join 1 3 200 second_running = Ok 0 s')
  ∨ (∃ s', gtthread_join 1 3 200 second_running = Stop Switched s').
Proof.
  apply (gtthread_join_outcome 0 3 200 second_running 1 1).
  - apply reachable_second_running.
  - vm_compute. reflexivity.
  - vm_compute. reflexivity.
Defined.
(** * Initialisation, again *)


(** * When gtthread_exit ends the process *)




(** * The joining field, over runs *)

(** Lines 292-318 write the [joining] field of the descriptor they find,
    and of no other. *)
Lemma cancel_target_joining thread s :
  joining_kept (fun p => target_of s thread = Some p) s
    (final (cancel_target thread s)).
Proof.
  unfold cancel_target. rewrite run_sigprocmask, run_bind_case.
  pose proof (thread_get_spec thread (with_blocked true s)) as Hget.
  destruct (thread_get thread _) as [r s1|h s1]; destruct Hget as [-> ->];
    [|by apply joining_kept_threads].
  replace (target_of (with_blocked true s) thread)
    with (target_of s thread) by done.
  destruct (target_of s thread) as [t|].
  - apply joining_kept_step; [by apply joining_kept_threads|]. frame.
  - apply joining_kept_step; [by apply joining_kept_threads|]. frame.
Qed.

(** gtthread_cancel writes the [joining] field of its caller (through
    gtthread_exit, when the caller names itself) and of its target.  No
    two descriptors carry one identity: a caller that has named itself and
    comes back from gtthread_exit finds no descriptor but its own. *)
Lemma gtthread_cancel_joining fuel thread s :
  tids_monotone s →
  joining_kept (fun p => current s = Some p ∨ target_of s thread = Some p) s
    (final (gtthread_cancel fuel thread s)).
Proof.
  intros Hmono.
  destruct (current s) as [cur|] eqn:Hcur.
  2: { unfold gtthread_cancel. rewrite run_get_current, Hcur.
       apply joining_kept_refl. }
  destruct (threads s !! cur) as [c|] eqn:Hc.
  2: { unfold gtthread_cancel. rewrite run_get_current, Hcur, run_deref, Hc.
       apply joining_kept_refl. }
  destruct (decide (tid c = thread)) as [Hself|Hother].
  - rewrite (gtthread_cancel_self fuel thread s cur c) by done.
    pose proof (gtthread_exit_joining fuel 0 s) as Hexit.
    pose proof (keeps_gtthread_exit fuel 0 s) as [_ Htids].
    rewrite Hcur in Hexit.
    destruct (gtthread_exit fuel 0 s) as [[] s0|h s0]; cbn [final] in *.
    2: { eapply joining_kept_weaken; [|exact Hexit]. cbn. auto. }
    eapply joining_kept_trans.
    { eapply joining_kept_weaken; [|exact Hexit]. cbn. auto. }
    eapply joining_kept_weaken; [|apply cancel_target_joining].
    cbn. intros t Ht. left. f_equal.
    apply target_of_Some in Ht as (_ & d & Hd & Hid).
    assert (tid <$> threads s0 !! t = tid <$> threads s !! t) as Ht
      by by rewrite <- !list_lookup_fmap, Htids.
    rewrite Hd in Ht. cbn in Ht.
    destruct (threads s !! t) as [d0|] eqn:Hd0; [|done].
    injection Ht as Ht.
    eapply (tids_inj s); [done..|congruence].
  - rewrite (gtthread_cancel_other fuel thread s cur c) by done.
    eapply joining_kept_weaken; [|apply cancel_target_joining]. cbn. auto.
Qed.

(** Every call leaves the [joining] field of every descriptor alone,
    except of those in [may_write_joining]. *)
Lemma run_call_joining c s :
  tids_monotone s →
  joining_kept (may_write_joining c s) s (final (run_call c s)).
Proof.
  intros Hmono.
  destruct c; cbn [run_call may_write_joining];
    rewrite ?final_erase, ?final_start_returns.
  - apply keeps_gtthread_create.
  - apply gtthread_join_joining.
  - apply keeps_gtthread_join_resume.
  - apply gtthread_exit_joining.
  - apply keeps_gtthread_exit_resume.
  - apply keeps_gtthread_yield.
  - by apply gtthread_cancel_joining.
  - apply keeps_gtthread_self.
  - by apply joining_kept_threads.
  - apply gtthread_start_return_joining.
  - apply keeps_sigvtalrm_handler.
Qed.

(** Calls that may not write the [joining] field of a descriptor lead
    from a state the library reaches to one it reaches, in which the field
    holds what it held. *)
Lemma undisturbed_reachable p s s' :
  undisturbed p s s' → reachable s →
  reachable s'
  ∧ (length (threads s) ≤ length (threads s'))%nat
  ∧ ((p < length (threads s))%nat → field joining s' p = field joining s p).
Proof.
  induction 1 as [s|c s s1 s2 _ IH Hrange Hnot Hstep]; intros Hs.
  { by split_and!. }
  destruct (IH Hs) as (Hs1 & Hlen & Hkeep).
  pose proof (run_call_joining c s1 (reachable_monotone s1 Hs1)) as [Hl Hj].
  unfold perform in Hstep.
  rewrite (continues_final _ _ Hstep) in Hl, Hj.
  split_and!.
  - by apply (reachable_step c s1).
  - lia.
  - intros Hp. rewrite <- Hkeep by done.
    unfold field. rewrite <- !list_lookup_fmap. apply Hj; [done|lia].
Qed.

(** The field a gtthread_join has written is there when the call is left
    by a switch inside the wait loop. *)
Lemma gtthread_join_switched fuel thread status s s1 cur :
  current s = Some cur → gtthread_join fuel thread status s = Stop Switched s1 →
  field joining s1 cur = Some thread.
Proof.
  intros Hcur. unfold gtthread_join.
  rewrite run_get_current, Hcur, run_deref.
  destruct (threads s !! cur) as [c|] eqn:Hc; [|done].
  destruct (Z.eqb_spec thread (tid c)) as [->|Hself]; [done|].
  rewrite run_bind_case. pose proof (thread_get_spec thread s) as Hget.
  destruct (thread_get thread s) as [r s0|h s0]; destruct Hget as [-> ->];
    [|done].
  destruct (target_of s thread) as [t|] eqn:Ht; [|done].
  apply target_of_Some in Ht as (_ & d & Hd & Hid).
  rewrite run_deref, Hd.
  destruct (Z.eqb_spec (joining d) (tid c)); [done|].
  rewrite run_store, Hc. intros Hrun.
  pose proof (keeps_join_wait (R := joining_kept (fun _ => False)) fuel t status
                (with_threads (alter (set_joining (tid d)) cur) s)) as [_ Hj].
  rewrite Hrun in Hj. cbn [final] in Hj.
  unfold field. rewrite <- list_lookup_fmap.
  unfold joinings in Hj. rewrite Hj; [|tauto|].
  - msimpl. by rewrite list_lookup_fmap, list_lookup_alter_eq, Hc, Hid.
  - msimpl. rewrite length_alter. by apply lookup_lt_Some in Hc.
Qed.

(** C10, as the code has it.  A gtthread_join writes the identity of its
    target to the caller's joining field before it waits, and never writes
    the field again: the field holds the identity when the call returns 0
    and when the call is left by a switch inside the wait loop, and a join
    resumed inside the loop returns without writing to any descriptor.
    From the state in which the join has returned, as long as the former
    caller calls neither gtthread_join nor gtthread_exit nor
    gtthread_cancel nor returns from its start routine, and no thread
    cancels it, the field keeps the identity through all calls of the
    library, and a gtthread_join on the former caller by a thread of that
    identity is refused with the state unchanged.  In a state the library
    reaches, a call writes the joining field of no descriptor but of its
    caller (join, exit, cancel, return from the start routine) and of the
    target of a cancel.  gtthread_exit sets the caller's field to 0 when
    the caller is not the initial thread and lines 228-246 are run to
    their end (the next context is installed, or the call returns); with
    an empty ready queue, and called by the initial thread, it writes no
    joining field.  gtthread_cancel, when it returns 0, sets the field of
    its target to 0. *)
Theorem gtthread_join_keeps_joining fuel thread status s s' cur :
  reachable s → current s = Some cur →
  gtthread_join fuel thread status s = Ok 0 s' →
  field joining s' cur = Some thread
  ∧ (∀ fuel0 thread0 status0 s0 s1 cur0,
       current s0 = Some cur0 →
       gtthread_join fuel0 thread0 status0 s0 = Stop Switched s1 →
       field joining s1 cur0 = Some thread0)
  ∧ (∀ fuel1 t1 status1 s1 v s1',
       gtthread_join_resume fuel1 t1 status1 s1 = Ok v s1' →
       threads s1' = threads s1)
  ∧ (∀ s2, undisturbed cur s' s2 →
       reachable s2
       ∧ field joining s2 cur = Some thread
       ∧ ∀ fuel2 status2 cur2 c2 id,
           current s2 = Some cur2 → threads s2 !! cur2 = Some c2 →
           tid c2 = thread → field tid s2 cur = Some id →
           gtthread_join fuel2 id status2 s2 = Ok (-1) s2)
  ∧ (∀ c s0, reachable s0 →
       joining_kept (may_write_joining c s0) s0 (final (run_call c s0)))
  ∧ (∀ fuel3 rv s0 s0' prev,
       current s0 = Some prev →
       gtthread_exit fuel3 rv s0 = Stop Installed s0'
       ∨ gtthread_exit fuel3 rv s0 = Ok tt s0' →
       field joining s0' prev = Some 0
       ∧ ∃ d, threads s0 !! prev = Some d ∧ tid d ≠ 1)
  ∧ (∀ fuel3 rv s0 prev d,
       current s0 = Some prev → threads s0 !! prev = Some d →
       ready_queue s0 = [] ∨ tid d = 1 →
       joining_kept (fun _ => False) s0 (final (gtthread_exit fuel3 rv s0))
       ∧ joining_kept (fun _ => False) s0
           (final (gtthread_exit_resume fuel3 rv s0)))
  ∧ (∀ fuel4 id s0 s0' t,
       reachable s0 → gtthread_cancel fuel4 id s0 = Ok 0 s0' →
       target_of s0 id = Some t → field joining s0' t = Some 0).
Proof.
  intros Hs Hcur Hrun.
  assert (field joining s' cur = Some thread) as Hfield.
  { pose proof (gtthread_join_spec fuel thread status s) as Hspec.
    rewrite Hrun in Hspec.
    destruct Hspec as (cur' & c & Hcur' & Hc & [(? & _)|Hok]); [done|].
    rewrite Hcur in Hcur'. injection Hcur' as <-.
    destruct Hok as (_ & _ & t & d & _ & Ht & Hd & _ & _ & ->).
    apply target_of_Some in Ht as (_ & d' & Hd' & Htid).
    rewrite Hd in Hd'. injection Hd' as <-.
    unfold field. rewrite threads_deliver. msimpl.
    by rewrite list_lookup_alter_eq, Hc, Htid. }
  assert (reachable s') as Hs'.
  { apply (reachable_step (Join fuel thread status) s); [done..|].
    unfold perform. cbn [run_call]. by rewrite Hrun. }
  split_and!.
  - exact Hfield.
  - intros fuel0 thread0 status0 s0 s1 cur0.
    apply gtthread_join_switched.
  - intros fuel1 t1 status1 s1 v s1' Hres.
    pose proof (gtthread_join_resume_spec fuel1 t1 status1 s1) as Hspec.
    rewrite Hres in Hspec. destruct Hspec as (_ & d & _ & _ & ->).
    by rewrite threads_deliver.
  - intros s2 Hrun2.
    destruct (undisturbed_reachable cur s' s2 Hrun2 Hs') as (Hs2 & _ & Hkeep).
    assert (field joining s2 cur = Some thread) as Hfield2.
    { rewrite Hkeep; [done|]. unfold field in Hfield.
      destruct (threads s' !! cur) eqn:E; [|done].
      by apply lookup_lt_Some in E. }
    split_and!; try done.
    intros fuel2 status2 cur2 c2 id Hcur2 Hc2 Htid Hid.
    apply (gtthread_join_refused fuel2 id status2 s2 cur2 c2); try done.
    { by apply reachable_queues_valid. }
    destruct (target_of s2 id) as [t|] eqn:Ht.
    2: { right. left. by apply target_of_None. }
    right. right.
    apply field_inv in Hid as (d & Hd & Hdid).
    destruct (target_of_Some _ _ _ Ht) as (_ & d' & Hd' & Hid').
    assert (t = cur) as ->.
    { eapply (tids_inj s2); [by apply reachable_monotone|done..|congruence]. }
    exists cur, d. split_and!; try done.
    unfold field in Hfield2. rewrite Hd in Hfield2. cbn in Hfield2.
    congruence.
  - intros c s0 Hs0. by apply run_call_joining, reachable_monotone.
  - intros fuel3 rv s0 s0' prev Hprev Hexit.
    assert (∃ next dp,
              threads s0 !! prev = Some dp
              ∧ threads s0' =
                  alter (set_joining 0) prev
                    (alter (set_retval rv) prev
                       (alter (set_state GTTHREAD_DONE) prev
                          (alter (set_ucp None) prev
                             (alter (set_state GTTHREAD_RUNNING) next
                                (threads s0)))))
              ∧ tid dp ≠ 1) as (next & dp & Hdp & Hth & Hne).
    { destruct Hexit as [Hexit|Hexit].
      - pose proof Hexit as Hi. apply gtthread_exit_installed in Hi.
        pose proof (exit_switch_spec rv (with_blocked true s0)) as Hspec.
        rewrite Hi in Hspec.
        destruct Hspec as (prev' & next & rq & dp & dn & cp & cn & u & Hcur0
                           & Hrq & _ & Hdp & _ & _ & _ & _ & Hth & _).
        msimpl. rewrite Hprev in Hcur0. injection Hcur0 as <-.
        exists next, dp. split_and!; try done.
        intros Hone. rewrite gtthread_exit_unfold, Hrq, Hprev, Hdp in Hexit.
        destruct (Z.eqb_spec (tid dp) 1); [|done].
        by apply exit_drain_not_installed in Hexit.
      - apply gtthread_exit_returns in Hexit
          as (Hexit & cur0 & c0 & Hcur0 & Hc0 & Hne).
        rewrite Hprev in Hcur0. injection Hcur0 as <-.
        pose proof (exit_switch_spec rv (with_blocked true s0)) as Hspec.
        rewrite Hexit in Hspec.
        destruct Hspec as (prev' & next & rq & dp & dn & cp & u & Hcur0
                           & _ & _ & Hdp & _ & _ & _ & Hth & _).
        msimpl. rewrite Hprev in Hcur0. injection Hcur0 as <-.
        exists next, dp. split_and!; try done.
        rewrite Hc0 in Hdp. by injection Hdp as <-. }
    split; [|by exists dp].
    unfold field. rewrite Hth, list_lookup_alter_eq.
    destruct (alter _ _ _ !! prev) eqn:E; [done|].
    apply lookup_ge_None in E. rewrite !length_alter in E.
    apply lookup_lt_Some in Hdp. lia.
  - intros fuel3 rv s0 prev d Hprev Hd Hcase. split.
    + rewrite gtthread_exit_unfold.
      destruct (ready_queue s0) as [|n rq] eqn:Hrq.
      { by apply joining_kept_threads. }
      destruct Hcase as [|Hone]; [done|].
      rewrite Hprev, Hd. destruct (Z.eqb_spec (tid d) 1); [|done].
      apply joining_kept_step; [by apply joining_kept_threads|].
      apply keeps_exit_drain.
    + apply keeps_gtthread_exit_resume.
  - intros fuel4 id s0 s0' t Hs0 Hcancel Ht.
    destruct (gtthread_cancel_zero fuel4 id s0 s0' (reachable_monotone s0 Hs0)
                Hcancel) as (cur0 & c0 & Hcur0 & Hc0 & Hother).
    rewrite (gtthread_cancel_other fuel4 id s0 cur0 c0) in Hcancel by done.
    pose proof (cancel_target_spec id s0) as Hspec.
    rewrite Hcancel in Hspec.
    destruct Hspec as [(? & _)|Hok]; [done|].
    destruct Hok as (_ & t' & d & cp & u & Ht' & Hd & _ & _ & _ & Hth & _).
    rewrite Ht in Ht'. injection Ht' as <-.
    unfold field. by rewrite Hth, !list_lookup_alter_eq, Hd.
Qed.

(** The initial thread has joined thread 3, which it had cancelled; after
    two calls of gtthread_yield the descriptor of thread 3 is the current
    one (the switch to its NULL context was refused), and its join on the
    initial thread is refused. *)
Lemma gtthread_join_keeps_joining_witness :
  field joining third_joined 0 = Some 3
  ∧ field joining target_current 0 = Some 3
  ∧ gtthread_join 1 1 0 target_current = Ok (-1) target_current.
Proof.
  destruct (gtthread_join_keeps_joining 1 3 200 third_cancelled third_joined 0)
    as (H1 & _ & _ & H2 & _).
  - apply reachable_third_cancelled.
  - vm_compute. reflexivity.
  - vm_compute. reflexivity.
  - destruct (H2 target_current) as (_ & H3 & H4).
    + apply (undisturbed_step 0 Yield third_joined joiner_waiting).
      * apply (undisturbed_step 0 Yield third_joined third_joined).
        -- apply undisturbed_refl.
        -- exact I.
        -- intros [].
        -- vm_compute. reflexivity.
      * exact I.
      * intros [].
      * vm_compute. reflexivity.
    + split; [exact H1|]. split; [exact H3|].
      apply (H4 1%nat 0 2%nat (mk_thread 3 0 GTTHREAD_CANCEL 8 42 0 None)).
      all: vm_compute; reflexivity.
Defined.

(** C10 as stated fails: the initial thread has joined thread 3 and its
    joining field holds 3; thread 2 cancels the initial thread, and line 315
    sets the field to 0 although its owner has not called gtthread_exit. *)
Lemma gtthread_cancel_clears_joining :
  reachable joiner_waiting
  ∧ current joiner_waiting = Some 1%nat
  ∧ field tid joiner_waiting 0 = Some 1
  ∧ field joining joiner_waiting 0 = Some 3
  ∧ ∃ s', gtthread_cancel 1 1 joiner_waiting = Ok 0 s'
          ∧ field joining s' 0 = Some 0.
Proof.
  split; [apply reachable_joiner_waiting|].
  do 3 (split; [vm_compute; reflexivity|]).
  exists (after (gtthread_cancel 1 1) joiner_waiting). evals.
Qed.
